(** * Soccer Scout AI: the TTL cache and the resilient HTTP client

    A shallow embedding of [utils/cache_service.py] and
    [utils/http_client.py].

    Conventions of the embedding:
    - Python [int] is [Z]; Python [float] seconds are idealised as rationals
      [Q] (no rounding), compared with [Qle_bool]; the two places where a
      [float] operation of the client raises [OverflowError] (an [int] too
      large to convert, a duration outside the range of [time.sleep]) are
      modelled as such;
    - [time.time()] is an oracle: the [n]-th reading of the wall clock is
      [clock n], and every call of [time.time()] consumes one reading;
    - a Python [dict] is an association list in insertion order with
      pairwise distinct keys ([dict_wf]), because [_cleanup_expired]
      iterates the dictionary and reads the clock once per entry;
    - mutable objects ([self]) are threaded explicitly. *)

From Stdlib Require Import ZArith QArith Qminmax List String Ascii Bool Lia Lqa
  Qpower DecimalString DecimalZ DecimalPos.
Import ListNotations.

Set Implicit Arguments.

Local Open Scope string_scope.
Local Open Scope Z_scope.

(* ===================================================================== *)
(** * Python runtime fragments shared by both modules                      *)
(* ===================================================================== *)

Module Py.

(** [a > b] on floats. *)
Definition gt (a b : Q) : bool := negb (Qle_bool a b).

(** [a < b] on floats. *)
Definition lt (a b : Q) : bool := negb (Qle_bool b a).

(** The builtin [min(a, b)]: [b] when [b < a], otherwise [a]. *)
Definition min (a b : Q) : Q := if lt b a then b else a.

(** Truthiness of an [Optional[int]]: [None] and [0] are falsy. *)
Definition or_int (x : option Z) (dflt : Z) : Z :=
  match x with
  | Some 0%Z | None => dflt
  | Some n => n
  end.

(** Truthiness of an [Optional[str]]: [None] and the empty string are
    falsy. *)
Definition truthy_str (x : option string) : bool :=
  match x with
  | None | Some EmptyString => false
  | Some _ => true
  end.

(** [str(n)] for an [int]. *)
Definition str_int (n : Z) : string := NilZero.string_of_int (Z.to_int n).

(** [range(n)]. *)
Definition range (n : Z) : list Z := map Z.of_nat (seq 0 (Z.to_nat n)).

End Py.

(* ===================================================================== *)
(** * utils/cache_service.py                                               *)
(* ===================================================================== *)

Module Cache.

Section InMemoryCache.

(** The payload type ([Any] in the source). *)
Variable V : Type.

(** Successive readings of [time.time()]. *)
Variable clock : nat -> Q.

Definition time_time (t : nat) : Q * nat := (clock t, S t).

(** One cache entry: the dictionary
    [{'value': .., 'expires_at': .., 'created_at': ..}]. *)
Record Entry := mkEntry {
  value : V;
  expires_at : Q;
  created_at : Q
}.

(** [self._cache]: keys in insertion order. *)
Definition PyDict := list (string * Entry).

Definition keys (d : PyDict) : list string := map fst d.

Definition dict_wf (d : PyDict) : Prop := NoDup (keys d).

(** [d.get(key)]. *)
Fixpoint dict_get (key : string) (d : PyDict) : option Entry :=
  match d with
  | [] => None
  | (k, e) :: rest => if String.eqb key k then Some e else dict_get key rest
  end.

(** [d[key] = e]: an existing key keeps its position. *)
Fixpoint dict_set (key : string) (e : Entry) (d : PyDict) : PyDict :=
  match d with
  | [] => [(key, e)]
  | (k, e0) :: rest =>
      if String.eqb key k then (k, e) :: rest
      else (k, e0) :: dict_set key e rest
  end.

(** [del d[key]] (only ever executed for a key that is present). *)
Fixpoint dict_del (key : string) (d : PyDict) : PyDict :=
  match d with
  | [] => []
  | (k, e) :: rest =>
      if String.eqb key k then rest else (k, e) :: dict_del key rest
  end.

(** [key in d]. *)
Definition dict_mem (key : string) (d : PyDict) : bool :=
  match dict_get key d with Some _ => true | None => false end.

Record InMemoryCache := mkCache {
  default_ttl_seconds : Z;
  _cache : PyDict;
  hits : Z;
  misses : Z;
  sets : Z;
  evictions : Z
}.

(** [InMemoryCache.__init__]. *)
Definition init (default_ttl : Z) : InMemoryCache :=
  mkCache default_ttl [] 0 0 0 0.

Definition with_cache (self : InMemoryCache) (d : PyDict) : InMemoryCache :=
  mkCache (default_ttl_seconds self) d (hits self) (misses self)
          (sets self) (evictions self).

(** [_is_expired]: [time.time() > entry.get('expires_at', 0)].  Every
    entry is built by [set], so ['expires_at'] is always present. *)
Definition _is_expired (entry : Entry) (t : nat) : bool * nat :=
  let '(now, t1) := time_time t in
  (Py.gt now (expires_at entry), t1).

(** First loop of [_cleanup_expired]: collect the expired keys, reading
    the clock once per entry. *)
Fixpoint expired_keys (items : PyDict) (t : nat) : list string * nat :=
  match items with
  | [] => ([], t)
  | (key, entry) :: rest =>
      let '(b, t1) := _is_expired entry t in
      let '(ks, t2) := expired_keys rest t1 in
      (if b then key :: ks else ks, t2)
  end.

(** Second loop of [_cleanup_expired]: [del self._cache[key]] and
    [self.evictions += 1] for each collected key. *)
Fixpoint evict (ks : list string) (self : InMemoryCache) : InMemoryCache :=
  match ks with
  | [] => self
  | key :: rest =>
      evict rest
        (mkCache (default_ttl_seconds self) (dict_del key (_cache self))
                 (hits self) (misses self) (sets self)
                 (evictions self + 1))
  end.

Definition _cleanup_expired (self : InMemoryCache) (t : nat)
  : InMemoryCache * nat :=
  let '(ks, t1) := expired_keys (_cache self) t in
  (evict ks self, t1).

(** [get]. *)
Definition get (self : InMemoryCache) (key : string) (t : nat)
  : option V * InMemoryCache * nat :=
  let '(self1, t1) := _cleanup_expired self t in
  match dict_get key (_cache self1) with
  | None =>
      (None,
       mkCache (default_ttl_seconds self1) (_cache self1) (hits self1)
               (misses self1 + 1) (sets self1) (evictions self1),
       t1)
  | Some entry =>
      let '(b, t2) := _is_expired entry t1 in
      if b then
        (None,
         mkCache (default_ttl_seconds self1) (_cache self1) (hits self1)
                 (misses self1 + 1) (sets self1) (evictions self1),
         t2)
      else
        (Some (value entry),
         mkCache (default_ttl_seconds self1) (_cache self1)
                 (hits self1 + 1) (misses self1) (sets self1)
                 (evictions self1),
         t2)
  end.

(** [set]. *)
Definition set (self : InMemoryCache) (key : string) (v : V)
    (ttl_seconds : option Z) (t : nat) : InMemoryCache * nat :=
  let ttl := Py.or_int ttl_seconds (default_ttl_seconds self) in
  let '(now, t1) := time_time t in
  let expires := (now + inject_Z ttl)%Q in
  let '(created, t2) := time_time t1 in
  (mkCache (default_ttl_seconds self)
           (dict_set key (mkEntry v expires created) (_cache self))
           (hits self) (misses self) (sets self + 1) (evictions self),
   t2).

(** [delete]. *)
Definition delete (self : InMemoryCache) (key : string)
  : bool * InMemoryCache :=
  if dict_mem key (_cache self)
  then (true, with_cache self (dict_del key (_cache self)))
  else (false, self).

(** [clear]. *)
Definition clear (self : InMemoryCache) : InMemoryCache :=
  with_cache self [].

(** [n] explicit sweeps in a row. *)
Fixpoint sweeps (n : nat) (self : InMemoryCache) (t : nat)
  : InMemoryCache * nat :=
  match n with
  | O => (self, t)
  | S n' => let '(self1, t1) := _cleanup_expired self t in sweeps n' self1 t1
  end.

(** The dictionary returned by [get_stats]. *)
Record Stats := mkStats {
  stat_hits : Z;
  stat_misses : Z;
  stat_sets : Z;
  stat_evictions : Z;
  hit_rate : Q;
  total_entries : Z;
  total_requests : Z
}.

(** [get_stats]: [hit_rate] is [hits / max(total_requests, 1)], a true
    division. *)
Definition get_stats (self : InMemoryCache) : Stats :=
  let total := hits self + misses self in
  let rate := (inject_Z (hits self) / inject_Z (Z.max total 1))%Q in
  mkStats (hits self) (misses self) (sets self) (evictions self) rate
          (Z.of_nat (List.length (_cache self))) total.

(** The entries a sweep started at reading [t] finds within their expiry,
    each entry compared with its own reading, in dictionary order. *)
Fixpoint survivors (items : PyDict) (t : nat) : PyDict :=
  match items with
  | [] => []
  | (key, entry) :: rest =>
      if Py.gt (clock t) (expires_at entry)
      then survivors rest (S t)
      else (key, entry) :: survivors rest (S t)
  end.

(** The caches a program can hold: built by [__init__] with the default
    TTL [ttl] and then only used through [get], [set], [delete] and
    [clear], at any clock readings. *)
Inductive reachable (ttl : Z) : InMemoryCache -> Prop :=
| reach_init : reachable ttl (init ttl)
| reach_get self key t :
    reachable ttl self -> reachable ttl (snd (fst (get self key t)))
| reach_set self key v ttl_seconds t :
    reachable ttl self -> reachable ttl (fst (set self key v ttl_seconds t))
| reach_delete self key :
    reachable ttl self -> reachable ttl (snd (delete self key))
| reach_clear self :
    reachable ttl self -> reachable ttl (clear self).

End InMemoryCache.

(** ** SmartCache: five namespaces with their own default TTL *)

Section SmartCache.

Variable V : Type.

Variable clock : nat -> Q.

(** [hashlib.md5(data.encode()).hexdigest()], a function of the text. *)
Variable md5_hexdigest : string -> string.

Record SmartCache := mkSmart {
  player_cache : InMemoryCache V;
  stats_cache : InMemoryCache V;
  market_cache : InMemoryCache V;
  league_cache : InMemoryCache V;
  search_cache : InMemoryCache V
}.

(** [SmartCache.__init__]. *)
Definition smart_init : SmartCache :=
  mkSmart (init V 1800) (init V 3600) (init V 7200) (init V 86400)
          (init V 900).

(** The positional arguments of [_make_key]: player ids are [int], seasons,
    positions, leagues and query hashes are [str]. *)
Inductive Arg :=
| ArgInt (n : Z)
| ArgStr (s : string).

(** [str(arg)]. *)
Definition str (a : Arg) : string :=
  match a with
  | ArgInt n => Py.str_int n
  | ArgStr s => s
  end.

(** [_make_key]: the digest of ["prefix:arg1:arg2:..."]. *)
Definition _make_key (prefix : string) (args : list Arg) : string :=
  md5_hexdigest (prefix ++ ":" ++ String.concat ":" (map str args)).

Definition get_player (self : SmartCache) (player_id : Z) (t : nat)
  : option V * SmartCache * nat :=
  let '(r, pc, t1) :=
    get clock (player_cache self) (_make_key "player" [ArgInt player_id]) t in
  (r, mkSmart pc (stats_cache self) (market_cache self) (league_cache self)
              (search_cache self), t1).

Definition set_player (self : SmartCache) (player_id : Z) (data : V) (t : nat)
  : SmartCache * nat :=
  let '(pc, t1) :=
    set clock (player_cache self) (_make_key "player" [ArgInt player_id])
        data None t in
  (mkSmart pc (stats_cache self) (market_cache self) (league_cache self)
           (search_cache self), t1).

Definition get_player_stats (self : SmartCache) (player_id : Z)
    (season : string) (t : nat) : option V * SmartCache * nat :=
  let '(r, sc, t1) :=
    get clock (stats_cache self)
        (_make_key "stats" [ArgInt player_id; ArgStr season]) t in
  (r, mkSmart (player_cache self) sc (market_cache self) (league_cache self)
              (search_cache self), t1).

Definition set_player_stats (self : SmartCache) (player_id : Z)
    (season : string) (data : V) (t : nat) : SmartCache * nat :=
  let '(sc, t1) :=
    set clock (stats_cache self)
        (_make_key "stats" [ArgInt player_id; ArgStr season]) data None t in
  (mkSmart (player_cache self) sc (market_cache self) (league_cache self)
           (search_cache self), t1).

Definition get_market_data (self : SmartCache) (position league : string)
    (t : nat) : option V * SmartCache * nat :=
  let '(r, mc, t1) :=
    get clock (market_cache self)
        (_make_key "market" [ArgStr position; ArgStr league]) t in
  (r, mkSmart (player_cache self) (stats_cache self) mc (league_cache self)
              (search_cache self), t1).

Definition set_market_data (self : SmartCache) (position league : string)
    (data : V) (t : nat) : SmartCache * nat :=
  let '(mc, t1) :=
    set clock (market_cache self)
        (_make_key "market" [ArgStr position; ArgStr league]) data None t in
  (mkSmart (player_cache self) (stats_cache self) mc (league_cache self)
           (search_cache self), t1).

(** The league list lives under the fixed key ["leagues_all"], which is
    not hashed. *)
Definition get_leagues (self : SmartCache) (t : nat)
  : option V * SmartCache * nat :=
  let '(r, lc, t1) := get clock (league_cache self) "leagues_all" t in
  (r, mkSmart (player_cache self) (stats_cache self) (market_cache self) lc
              (search_cache self), t1).

Definition set_leagues (self : SmartCache) (data : V) (t : nat)
  : SmartCache * nat :=
  let '(lc, t1) := set clock (league_cache self) "leagues_all" data None t in
  (mkSmart (player_cache self) (stats_cache self) (market_cache self) lc
           (search_cache self), t1).

Definition get_search_results (self : SmartCache) (query_hash : string)
    (t : nat) : option V * SmartCache * nat :=
  let '(r, sc, t1) :=
    get clock (search_cache self) (_make_key "search" [ArgStr query_hash]) t in
  (r, mkSmart (player_cache self) (stats_cache self) (market_cache self)
              (league_cache self) sc, t1).

Definition set_search_results (self : SmartCache) (query_hash : string)
    (data : V) (t : nat) : SmartCache * nat :=
  let '(sc, t1) :=
    set clock (search_cache self) (_make_key "search" [ArgStr query_hash])
        data None t in
  (mkSmart (player_cache self) (stats_cache self) (market_cache self)
           (league_cache self) sc, t1).

(** [get_all_stats]: the five [get_stats] in the order of the source. *)
Definition get_all_stats (self : SmartCache)
  : Stats * Stats * Stats * Stats * Stats :=
  (get_stats (player_cache self), get_stats (stats_cache self),
   get_stats (market_cache self), get_stats (league_cache self),
   get_stats (search_cache self)).

(** [invalidate_player]: one [delete] on the player namespace; the result
    of [delete] is dropped. *)
Definition invalidate_player (self : SmartCache) (player_id : Z)
  : SmartCache :=
  let '(_, pc) :=
    delete (player_cache self) (_make_key "player" [ArgInt player_id]) in
  mkSmart pc (stats_cache self) (market_cache self) (league_cache self)
          (search_cache self).

End SmartCache.

End Cache.

(* ===================================================================== *)
(** * utils/http_client.py                                                 *)
(* ===================================================================== *)

Module Http.

(** The exceptions that occur.  [HTTPError], [Timeout] and
    [ConnectionError] are subclasses of [requests.RequestException];
    [OtherRequestException] stands for its remaining subclasses. *)
Inductive Exn :=
| CircuitOpenError               (* Exception("Circuit breaker is open, ...") *)
| HTTPError (status : Z)         (* raised by response.raise_for_status() *)
| Timeout
| ConnectionError
| OtherRequestException
| ValueError
| OverflowError
| RuntimeError.                  (* "HTTP request failed without ..." *)

Definition is_network_error (e : Exn) : bool :=
  match e with
  | Timeout | ConnectionError => true
  | _ => false
  end.

Definition is_value_error (e : Exn) : bool :=
  match e with
  | ValueError => true
  | _ => false
  end.

Definition is_request_exception (e : Exn) : bool :=
  match e with
  | HTTPError _ | Timeout | ConnectionError | OtherRequestException => true
  | _ => false
  end.

(** What the client inspects of a [requests.Response]: the status code and
    [response.headers.get("Retry-After")]. *)
Record Response := mkResponse {
  status_code : Z;
  retry_after : option string
}.

(** One call of [self.session.get(...)]: a response, or one of the
    exceptions of the requests library. *)
Inductive NetResult :=
| NetResponse (r : Response)
| NetTimeout
| NetConnectionError
| NetRequestException.

(** A Python [float]. *)
Inductive PyFloat :=
| Finite (q : Q)
| PosInf
| NegInf
| NaN.

(** The attributes of a [ResilientHTTPClient]. *)
Record Client := mkClient {
  default_timeout_seconds : Q;
  max_retries : Z;
  backoff_base_seconds : Q;
  backoff_cap_seconds : Q;
  circuit_breaker_threshold : Z;
  consecutive_failures : Z;
  circuit_open : bool;
  last_failure_time : Q;
  circuit_reset_timeout : Q;
  request_count : Z;
  error_count : Z;
  rate_limit_count : Z
}.

(** [ResilientHTTPClient.__init__]. *)
Definition init (default_timeout : Q) (retries : Z) (base cap : Q)
    (threshold : Z) : Client :=
  mkClient default_timeout retries base cap threshold 0 false 0%Q 60%Q 0 0 0.

(** The constructor's default arguments. *)
Definition default_client : Client := init 10%Q 5 (1 # 2)%Q 8%Q 5.

Definition set_consecutive_failures (v : Z) (c : Client) : Client :=
  mkClient (default_timeout_seconds c) (max_retries c)
    (backoff_base_seconds c) (backoff_cap_seconds c)
    (circuit_breaker_threshold c) v (circuit_open c) (last_failure_time c)
    (circuit_reset_timeout c) (request_count c) (error_count c)
    (rate_limit_count c).

Definition set_circuit_open (v : bool) (c : Client) : Client :=
  mkClient (default_timeout_seconds c) (max_retries c)
    (backoff_base_seconds c) (backoff_cap_seconds c)
    (circuit_breaker_threshold c) (consecutive_failures c) v
    (last_failure_time c) (circuit_reset_timeout c) (request_count c)
    (error_count c) (rate_limit_count c).

Definition set_last_failure_time (v : Q) (c : Client) : Client :=
  mkClient (default_timeout_seconds c) (max_retries c)
    (backoff_base_seconds c) (backoff_cap_seconds c)
    (circuit_breaker_threshold c) (consecutive_failures c) (circuit_open c)
    v (circuit_reset_timeout c) (request_count c) (error_count c)
    (rate_limit_count c).

Definition set_request_count (v : Z) (c : Client) : Client :=
  mkClient (default_timeout_seconds c) (max_retries c)
    (backoff_base_seconds c) (backoff_cap_seconds c)
    (circuit_breaker_threshold c) (consecutive_failures c) (circuit_open c)
    (last_failure_time c) (circuit_reset_timeout c) v (error_count c)
    (rate_limit_count c).

Definition set_error_count (v : Z) (c : Client) : Client :=
  mkClient (default_timeout_seconds c) (max_retries c)
    (backoff_base_seconds c) (backoff_cap_seconds c)
    (circuit_breaker_threshold c) (consecutive_failures c) (circuit_open c)
    (last_failure_time c) (circuit_reset_timeout c) (request_count c) v
    (rate_limit_count c).

Definition set_rate_limit_count (v : Z) (c : Client) : Client :=
  mkClient (default_timeout_seconds c) (max_retries c)
    (backoff_base_seconds c) (backoff_cap_seconds c)
    (circuit_breaker_threshold c) (consecutive_failures c) (circuit_open c)
    (last_failure_time c) (circuit_reset_timeout c) (request_count c)
    (error_count c) v.

(** The world outside the client: how many clock readings, network calls
    and random draws have been consumed, and the durations passed to
    [time.sleep] so far (latest first). *)
Record World := mkWorld {
  ticks : nat;
  requests : nat;
  draws : nat;
  sleeps : list Q
}.

(** The machine state while [get] runs: the client object, the world and
    the local variable [last_exc]. *)
Record St := mkSt {
  self : Client;
  world : World;
  last_exc : option Exn
}.

(** How a statement ends: normally, by raising, by [return response] or by
    [continue]. *)
Inductive Outcome (A : Type) :=
| Normal (a : A)
| Raise (e : Exn)
| Return (r : Response)
| Continue.

Arguments Normal {A} a.
Arguments Raise {A} e.
Arguments Return {A} r.
Arguments Continue {A}.

Definition M (A : Type) : Type := St -> Outcome A * St.

Definition ret {A} (a : A) : M A := fun s => (Normal a, s).

Definition bind {A B} (m : M A) (k : A -> M B) : M B :=
  fun s =>
    match m s with
    | (Normal a, s1) => k a s1
    | (Raise e, s1) => (Raise e, s1)
    | (Return r, s1) => (Return r, s1)
    | (Continue, s1) => (Continue, s1)
    end.

Declare Scope py_scope.
Delimit Scope py_scope with py.

Notation "x <- m ;; k" := (bind m (fun x => k))
  (at level 61, m at next level, right associativity) : py_scope.
Notation "m ;; k" := (bind m (fun _ => k))
  (at level 61, right associativity) : py_scope.

Local Open Scope py_scope.

Definition raise {A} (e : Exn) : M A := fun s => (Raise e, s).

Definition return_ {A} (r : Response) : M A := fun s => (Return r, s).

Definition continue_ {A} : M A := fun s => (Continue, s).

(** [if b: body] with no [else]. *)
Definition when (b : bool) (body : M unit) : M unit :=
  if b then body else ret tt.

(** Read an attribute of [self]. *)
Definition attr {A} (f : Client -> A) : M A :=
  fun s => (Normal (f (self s)), s).

(** Assign to attributes of [self]. *)
Definition update (f : Client -> Client) : M unit :=
  fun s => (Normal tt, mkSt (f (self s)) (world s) (last_exc s)).

Definition assign_last_exc (v : option Exn) : M unit :=
  fun s => (Normal tt, mkSt (self s) (world s) v).

Definition read_last_exc : M (option Exn) :=
  fun s => (Normal (last_exc s), s).

(** One [except <classes> as exc: handler] clause: the test for the listed
    classes and the handler. *)
Definition Clause (A : Type) : Type := ((Exn -> bool) * (Exn -> M A))%type.

(** The first clause whose classes match the exception, as Python selects
    it. *)
Fixpoint select_clause {A} (clauses : list (Clause A)) (e : Exn)
  : option (Exn -> M A) :=
  match clauses with
  | [] => None
  | (handles, handler) :: rest =>
      if handles e then Some handler else select_clause rest e
  end.

(** [try: body  except ..: ..  except ..: ..].  An exception raised by a
    handler leaves the statement: the later clauses do not see it. *)
Definition try_except {A} (body : M A) (clauses : list (Clause A)) : M A :=
  fun s =>
    match body s with
    | (Raise e, s1) =>
        match select_clause clauses e with
        | Some handler => handler e s1
        | None => (Raise e, s1)
        end
    | r => r
    end.

(** [for x in xs: body x].  The body ends normally or by [continue] to
    reach the next element; [return] and exceptions leave the loop. *)
Fixpoint for_each {X} (xs : list X) (body : X -> M unit) : M unit :=
  match xs with
  | [] => ret tt
  | x :: rest =>
      fun s =>
        match body x s with
        | (Normal _, s1) => for_each rest body s1
        | (Continue, s1) => for_each rest body s1
        | (Raise e, s1) => (Raise e, s1)
        | (Return r, s1) => (Return r, s1)
        end
  end.

Section ResilientHTTPClient.

(** Successive readings of [time.time()]. *)
Variable clock : nat -> Q.

(** The outcome of the [n]-th call of [self.session.get]; the URL, headers,
    query parameters and timeout are the upstream's concern. *)
Variable upstream : nat -> NetResult.

(** The [n]-th value of [random.random()]. *)
Variable random : nat -> Q.

(** The builtin [float(text)]; [None] when it raises [ValueError]. *)
Variable parse_float : string -> option PyFloat.

Definition time_time : M Q :=
  fun s =>
    let w := world s in
    (Normal (clock (ticks w)),
     mkSt (self s) (mkWorld (S (ticks w)) (requests w) (draws w) (sleeps w))
          (last_exc s)).

(** The durations [time.sleep] can convert: it turns its argument into a
    signed 64-bit count of nanoseconds before anything else, so the
    duration times [10^9] must lie in [-2^63, 2^63) (the rounding to a
    whole nanosecond is left out). *)
Definition fits_pytime (d : Q) : bool :=
  Qle_bool (inject_Z (- 2 ^ 63)) (d * inject_Z (10 ^ 9))
  && Py.lt (d * inject_Z (10 ^ 9))%Q (inject_Z (2 ^ 63)).

(** [time.sleep(d)] for a finite [d]: a length that does not convert
    raises [OverflowError]; a negative one that does raises
    [ValueError]. *)
Definition time_sleep (d : Q) : M unit :=
  fun s =>
    if negb (fits_pytime d) then (Raise OverflowError, s)
    else if Py.lt d 0%Q then (Raise ValueError, s)
    else
      let w := world s in
      (Normal tt,
       mkSt (self s) (mkWorld (ticks w) (requests w) (draws w) (d :: sleeps w))
            (last_exc s)).

(** [time.sleep(x)] for any float: NaN raises [ValueError], an infinite
    length of either sign raises [OverflowError]. *)
Definition time_sleep_float (x : PyFloat) : M unit :=
  match x with
  | Finite d => time_sleep d
  | PosInf => raise OverflowError
  | NegInf => raise OverflowError
  | NaN => raise ValueError
  end.

(** [random.uniform(a, b)] is [a + (b - a) * random()]. *)
Definition random_uniform (a b : Q) : M Q :=
  fun s =>
    let w := world s in
    (Normal (a + (b - a) * random (draws w))%Q,
     mkSt (self s) (mkWorld (ticks w) (requests w) (S (draws w)) (sleeps w))
          (last_exc s)).

(** [self.session.get(url, headers=.., params=.., timeout=..)]: one
    iteration of the loop of [get] makes one such call, and [upstream]
    gives its outcome.  The requests the transport adapter mounted in
    [__init__] sends underneath one call are counted in [Transport],
    which derives such an [upstream] from the answers of the network. *)
Definition session_get : M Response :=
  fun s =>
    let w := world s in
    let s1 := mkSt (self s)
                (mkWorld (ticks w) (S (requests w)) (draws w) (sleeps w))
                (last_exc s) in
    match upstream (requests w) with
    | NetResponse r => (Normal r, s1)
    | NetTimeout => (Raise Timeout, s1)
    | NetConnectionError => (Raise ConnectionError, s1)
    | NetRequestException => (Raise OtherRequestException, s1)
    end.

(** [float(text)]. *)
Definition float (text : string) : M PyFloat :=
  match parse_float text with
  | Some x => ret x
  | None => raise ValueError
  end.

(** [min(x, cap)] for a float [x] and a finite [cap]: the second argument
    is returned exactly when [cap < x]. *)
Definition min_float (x : PyFloat) (cap : Q) : PyFloat :=
  match x with
  | Finite q => Finite (Py.min q cap)
  | PosInf => Finite cap
  | NegInf => NegInf
  | NaN => NaN
  end.

(** [response.raise_for_status()] of the requests library: [HTTPError] for
    the statuses 400..599. *)
Definition raise_for_status (response : Response) : M unit :=
  let code := status_code response in
  if (400 <=? code) && (code <? 600) then raise (HTTPError code) else ret tt.

(** [_is_circuit_open]. *)
Definition _is_circuit_open : M bool :=
  is_open <- attr circuit_open ;;
  if negb is_open then ret false
  else
    now <- time_time ;;
    last <- attr last_failure_time ;;
    reset_after <- attr circuit_reset_timeout ;;
    if Py.gt (now - last)%Q reset_after then
      update (set_circuit_open false) ;;
      update (set_consecutive_failures 0) ;;
      ret false
    else ret true.

(** [_record_failure]. *)
Definition _record_failure : M unit :=
  update (fun c => set_consecutive_failures (consecutive_failures c + 1) c) ;;
  update (fun c => set_error_count (error_count c + 1) c) ;;
  now <- time_time ;;
  update (set_last_failure_time now) ;;
  failures <- attr consecutive_failures ;;
  threshold <- attr circuit_breaker_threshold ;;
  when (threshold <=? failures) (update (set_circuit_open true)).

(** [_record_success]. *)
Definition _record_success : M unit :=
  update (set_consecutive_failures 0) ;;
  is_open <- attr circuit_open ;;
  when is_open (update (set_circuit_open false)).

(** [x * (2 ** n)] for a float [x] and an int [n]: the int [2 ** n] is
    converted to a float before the product is taken, which raises
    [OverflowError] from [2 ** 1024] on. *)
Definition float_times_pow2 (x : Q) (n : Z) : M Q :=
  if 1024 <=? n then raise OverflowError else ret (x * Qpower 2 n)%Q.

(** The exponential part of [_sleep_with_backoff] (lines 110-116). *)
Definition exponential_backoff (attempt_index : Z) : M unit :=
  base <- attr backoff_base_seconds ;;
  scaled <- float_times_pow2 base attempt_index ;;
  cap <- attr backoff_cap_seconds ;;
  let base_delay := Py.min scaled cap in
  jitter <- random_uniform 0%Q base ;;
  time_sleep (base_delay + jitter)%Q.

(** [_sleep_with_backoff].  The [try] block returns [true] when it reached
    its [return]; [ValueError] raised inside it ([float], [time.sleep]) is
    swallowed by [except (ValueError, TypeError): pass]. *)
Definition _sleep_with_backoff (attempt_index : Z)
    (retry_after_header : option string) : M unit :=
  slept <-
    match retry_after_header with
    | Some text =>
        if Py.truthy_str retry_after_header then
          try_except
            (sleep_seconds <- float text ;;
             cap <- attr backoff_cap_seconds ;;
             let sleep_time := min_float sleep_seconds cap in
             time_sleep_float sleep_time ;;
             ret true)
            [(is_value_error, fun _ => ret false)]
        else ret false
    | None => ret false
    end ;;
  if slept : bool then ret tt else exponential_backoff attempt_index.

(** The body of the [try] statement of [get] for one attempt
    (lines 138-172). *)
Definition try_body (attempt : Z) : M unit :=
  response <- session_get ;;
  let code := status_code response in
  retries <- attr max_retries ;;
  (* Success *)
  when ((200 <=? code) && (code <? 300))
    (_record_success ;; return_ response) ;;
  (* Rate limiting *)
  when (code =? 429)
    (update (fun c => set_rate_limit_count (rate_limit_count c + 1) c) ;;
     when (attempt <? retries)
       (_sleep_with_backoff attempt (retry_after response) ;; continue_)) ;;
  (* Server errors - retry *)
  when ((code =? 500) || (code =? 502) || (code =? 503) || (code =? 504))
    (when (attempt <? retries)
       (_sleep_with_backoff attempt None ;; continue_)) ;;
  (* Client errors - don't retry *)
  when ((400 <=? code) && (code <? 500))
    (_record_failure ;; raise_for_status response ;; return_ response) ;;
  (* Other errors *)
  raise_for_status response ;;
  return_ response.

(** The common shape of the two [except] clauses of [get]. *)
Definition on_exception (attempt : Z) (exc : Exn) : M unit :=
  assign_last_exc (Some exc) ;;
  retries <- attr max_retries ;;
  when (attempt <? retries)
    (_sleep_with_backoff attempt None ;; continue_) ;;
  _record_failure ;;
  raise exc.

(** One iteration of the [for] loop of [get]: the [try] statement with
    [except (requests.Timeout, requests.ConnectionError)] first and
    [except requests.RequestException] second. *)
Definition attempt_once (attempt : Z) : M unit :=
  try_except (try_body attempt)
    [(is_network_error, on_exception attempt);
     (is_request_exception, on_exception attempt)].

(** [get] once the circuit breaker has let the call pass
    (lines 131-195). *)
Definition get_attempts : M unit :=
  update (fun c => set_request_count (request_count c + 1) c) ;;
  assign_last_exc None ;;
  retries <- attr max_retries ;;
  for_each (Py.range (retries + 1)) attempt_once ;;
  _record_failure ;;
  exc <- read_last_exc ;;
  match exc with
  | Some e => raise e
  | None => raise RuntimeError
  end.

(** [get]. *)
Definition get : M unit :=
  blocked <- _is_circuit_open ;;
  if blocked : bool then raise CircuitOpenError else get_attempts.

(** [n] calls of [_record_failure] in a row. *)
Fixpoint record_failures (n : nat) : M unit :=
  match n with
  | O => ret tt
  | S n' => _record_failure ;; record_failures n'
  end.

(** [n] calls of [get] in a row on the same client; the outcomes come
    first call first.  A call that passes the breaker assigns its local
    [last_exc] anew. *)
Fixpoint calls (n : nat) (s : St) : list (Outcome unit) * St :=
  match n with
  | O => ([], s)
  | S n' =>
      let '(o, s1) := get s in
      let '(os, s2) := calls n' s1 in
      (o :: os, s2)
  end.

End ResilientHTTPClient.

(** ** Closed forms of the state changes

    These name the effect of an operation on the client and on the world;
    each is proved equal to the operation it describes. *)

(** The world after one more clock reading. *)
Definition ticked (w : World) : World :=
  mkWorld (S (ticks w)) (requests w) (draws w) (sleeps w).

(** The world after one more network call. *)
Definition requested (w : World) : World :=
  mkWorld (ticks w) (S (requests w)) (draws w) (sleeps w).

(** The world after one more random draw and a sleep of [d] seconds. *)
Definition drawn_slept (d : Q) (w : World) : World :=
  mkWorld (ticks w) (requests w) (S (draws w)) (d :: sleeps w).

(** The world after a sleep of [d] seconds. *)
Definition slept (d : Q) (w : World) : World :=
  mkWorld (ticks w) (requests w) (draws w) (d :: sleeps w).

(** The client after [_record_failure] read the clock at [now]. *)
Definition failed (now : Q) (c : Client) : Client :=
  let c1 :=
    set_last_failure_time now
      (set_error_count (error_count c + 1)
         (set_consecutive_failures (consecutive_failures c + 1) c)) in
  if circuit_breaker_threshold c <=? consecutive_failures c + 1
  then set_circuit_open true c1 else c1.

(** The state in which the loop of [get] starts: the request is counted
    and [last_exc] is [None]. *)
Definition entered (s : St) : St :=
  mkSt (set_request_count (request_count (self s) + 1) (self s)) (world s)
       None.

(** The client after the lazy reset of [_is_circuit_open]. *)
Definition reset (c : Client) : Client :=
  set_consecutive_failures 0 (set_circuit_open false c).

(** The delay of the exponential policy for a draw [u] of
    [random.random()]. *)
Definition exponential_delay (c : Client) (attempt_index : Z) (u : Q) : Q :=
  (Py.min (backoff_base_seconds c * Qpower 2 attempt_index)
          (backoff_cap_seconds c)
   + (0 + (backoff_base_seconds c - 0) * u))%Q.

(** How the [try] block of [_sleep_with_backoff] ends for a header. *)
Inductive Hint :=
| HintSleep (d : Q)      (* [time.sleep(d)] was reached, then [return] *)
| HintFallback           (* no truthy header, or [ValueError]: go on *)
| HintOverflow.          (* [time.sleep] raised [OverflowError] *)

(** The header is truthy, [float] parses it, and [time.sleep] is called
    with [min(hint, cap)]: it sleeps, or raises [ValueError] (caught by
    the [except] clause) or [OverflowError] (not caught). *)
Definition hint_outcome (parse_float : string -> option PyFloat) (cap : Q)
    (retry_after_header : option string) : Hint :=
  match retry_after_header with
  | Some text =>
      if Py.truthy_str retry_after_header then
        match parse_float text with
        | Some x =>
            match min_float x cap with
            | Finite d =>
                if negb (fits_pytime d) then HintOverflow
                else if Py.lt d 0%Q then HintFallback
                else HintSleep d
            | PosInf => HintOverflow
            | NegInf => HintOverflow
            | NaN => HintFallback
            end
        | None => HintFallback
        end
      else HintFallback
  | None => HintFallback
  end.

(** A configuration whose delays [time.sleep] accepts: the base and the
    cap are not negative and their sum converts. *)
Definition sane (c : Client) : Prop :=
  (0 <= backoff_base_seconds c)%Q /\ (0 <= backoff_cap_seconds c)%Q /\
  fits_pytime (backoff_cap_seconds c + backoff_base_seconds c) = true.

(** [random.random()] draws from the unit interval. *)
Definition unit_draws (random : nat -> Q) : Prop :=
  forall i, (0 <= random i)%Q /\ (random i <= 1)%Q.

(** The configuration of a client, which no operation assigns. *)
Definition config (c : Client) : Q * Z * Q * Q * Z * Q :=
  (default_timeout_seconds c, max_retries c, backoff_base_seconds c,
   backoff_cap_seconds c, circuit_breaker_threshold c,
   circuit_reset_timeout c).

(** The statuses on which a response does not end a non-final attempt:
    400..599. *)
Definition is_error_status (code : Z) : bool := (400 <=? code) && (code <? 600).

(** The statuses on which [get] calls [_record_failure] before
    [raise_for_status]: 4xx, 429 included. *)
Definition is_client_error (code : Z) : bool := (400 <=? code) && (code <? 500).

(** The outcomes of [session.get] after which an attempt that is not the
    last one goes on to the next attempt: an exception of the requests
    library, or a response with a status in 400..599, a 429 whose
    [Retry-After] header makes [time.sleep] raise [OverflowError]
    excepted. *)
Definition retried (parse_float : string -> option PyFloat) (cap : Q)
    (res : NetResult) : bool :=
  match res with
  | NetResponse r =>
      is_error_status (status_code r)
      && negb ((status_code r =? 429)
               && match hint_outcome parse_float cap (retry_after r) with
                  | HintOverflow => true
                  | _ => false
                  end)
  | _ => true
  end.

(** How many times an attempt that is not the last one calls
    [_record_failure]: once on a 4xx other than 429. *)
Definition failures_recorded (res : NetResult) : Z :=
  match res with
  | NetResponse r =>
      if is_client_error (status_code r) && negb (status_code r =? 429)
      then 1 else 0
  | _ => 0
  end.

(** The failures recorded by the attempts answered by
    [upstream first], ..., [upstream (first + n - 1)], none of them the last
    attempt. *)
Fixpoint failures_before (upstream : nat -> NetResult) (first n : nat) : Z :=
  match n with
  | O => 0
  | S n' =>
      failures_recorded (upstream first) + failures_before upstream (S first) n'
  end.

(** What [k] attempts that recorded [f] failures change between two
    states. *)
Definition Advance (k : nat) (f : Z) (s s' : St) : Prop :=
  config (self s') = config (self s) /\
  requests (world s') = (requests (world s) + k)%nat /\
  List.length (sleeps (world s')) = (List.length (sleeps (world s)) + k)%nat /\
  error_count (self s') = error_count (self s) + f /\
  consecutive_failures (self s') = consecutive_failures (self s) + f /\
  request_count (self s') = request_count (self s).

(** The snapshot returned by [get_telemetry]. *)
Record Telemetry := mkTelemetry {
  total_requests : Z;
  total_errors : Z;
  rate_limits : Z;
  error_rate : Q;
  telemetry_consecutive_failures : Z;
  telemetry_circuit_open : bool
}.

(** [get_telemetry]: [error_rate] is
    [error_count / max(request_count, 1)], a true division. *)
Definition get_telemetry (c : Client) : Telemetry :=
  mkTelemetry (request_count c) (error_count c) (rate_limit_count c)
    (inject_Z (error_count c) / inject_Z (Z.max (request_count c) 1))%Q
    (consecutive_failures c) (circuit_open c).

(** The exception [session.get] raises for an outcome that is not a
    response. *)
Definition raised_by (res : NetResult) : option Exn :=
  match res with
  | NetResponse _ => None
  | NetTimeout => Some Timeout
  | NetConnectionError => Some ConnectionError
  | NetRequestException => Some OtherRequestException
  end.

(** The statuses [get] treats as success: 200..299. *)
Definition is_success (code : Z) : bool := (200 <=? code) && (code <? 300).

(** An open breaker has at least [circuit_breaker_threshold] consecutive
    failures on record. *)
Definition breaker_consistent (c : Client) : Prop :=
  circuit_open c = true ->
  circuit_breaker_threshold c <= consecutive_failures c.

(** A duration that is not negative and, when the base delay is not
    negative and [random.random()] stays at or below 1, at most the cap
    plus the base. *)
Definition sleep_ok (random : nat -> Q) (c : Client) (d : Q) : Prop :=
  (0 <= d)%Q /\
  ((0 <= backoff_base_seconds c)%Q -> (forall i, (random i <= 1)%Q) ->
   (d <= backoff_cap_seconds c + backoff_base_seconds c)%Q).

(** What [get] may do to the client between two states: the configuration
    and [request_count] stay, the other counters do not decrease, and an
    open breaker keeps its failures on record. *)
Definition Touches (c c' : Client) : Prop :=
  config c' = config c /\
  request_count c' = request_count c /\
  error_count c <= error_count c' /\
  rate_limit_count c <= rate_limit_count c' /\
  (breaker_consistent c -> breaker_consistent c').

(** What a stretch of a call that makes at most [attempts] network calls
    and at most [retries] sleeps changes between two states. *)
Definition Effect (random : nat -> Q) (attempts retries : nat) (s s' : St)
  : Prop :=
  Touches (self s) (self s') /\
  (requests (world s) <= requests (world s')
   <= requests (world s) + attempts)%nat /\
  exists new,
    sleeps (world s') = (new ++ sleeps (world s))%list /\
    (List.length new <= retries)%nat /\
    Forall (sleep_ok random (self s)) new.

(** How one attempt of index [attempt] may end from the state [s]: never
    normally; by [continue] only before the last attempt; by [return] only
    with the response just received, whose status is outside 400..599. *)
Definition attempt_ends (upstream : nat -> NetResult) (attempt : Z) (s : St)
    (o : Outcome unit) : Prop :=
  match o with
  | Normal _ => False
  | Continue => attempt < max_retries (self s)
  | Raise e => e <> RuntimeError /\ e <> CircuitOpenError
  | Return r =>
      upstream (requests (world s)) = NetResponse r /\
      is_error_status (status_code r) = false
  end.

(** The local [last_exc] does not hold the circuit-open error. *)
Definition last_exc_ok (s : St) : Prop := last_exc s <> Some CircuitOpenError.

(** A computation that, started with such a [last_exc], keeps it so, does
    not end by raising the circuit-open error, and only adds network
    calls. *)
Definition passes {A} (m : M A) : Prop :=
  forall s,
    last_exc_ok s ->
    last_exc_ok (snd (m s)) /\
    fst (m s) <> Raise CircuitOpenError /\
    (requests (world s) <= requests (world (snd (m s))))%nat.

End Http.

(* ===================================================================== *)
(** * The transport adapter mounted by [__init__]                          *)
(* ===================================================================== *)

(** [ResilientHTTPClient.__init__] (lines 56-65) mounts on the session
    [HTTPAdapter(max_retries=Retry(total=max_retries,
    status_forcelist=[429, 500, 502, 503, 504],
    backoff_factor=backoff_base_seconds, raise_on_status=False))].  Under
    one call of [self.session.get] urllib3 therefore sends the request
    again while the status of the answer is in the list and the policy has
    retries left, and hands back the last answer when it has none
    ([raise_on_status=False]).

    The network here answers every request, with a response that carries
    no [Retry-After] and no [Location] header: [wire n] is the status of
    the answer to the [n]-th request sent.  The pauses urllib3 makes
    between its own sends are not recorded. *)

Module Transport.

Definition status_forcelist : list Z := [429; 500; 502; 503; 504].

(** [Retry.is_retry] for a GET and an answer without [Retry-After]. *)
Definition is_retry (status : Z) : bool :=
  existsb (Z.eqb status) status_forcelist.

(** [urlopen] with [retries_left] retries in the policy, the next request
    being the [sent]-th: the status handed back and the number of requests
    sent so far. *)
Fixpoint urlopen (retries_left : nat) (wire : nat -> Z) (sent : nat)
  : Z * nat :=
  let status := wire sent in
  if is_retry status then
    match retries_left with
    | O => (status, S sent)
    | S fewer => urlopen fewer wire (S sent)
    end
  else (status, S sent).

(** One call of [session.get] on the session of the client [c]:
    [Retry.increment] lowers [total] by one per answer and the policy is
    exhausted once it is negative, so [total = max_retries] allows
    [max_retries] sends after the first one, and none when it is not
    positive. *)
Definition send (c : Http.Client) (wire : nat -> Z) (sent : nat) : Z * nat :=
  urlopen (Z.to_nat (Http.max_retries c)) wire sent.

(** The number of requests sent before the [n]-th call of
    [session.get]. *)
Fixpoint sent_before (c : Http.Client) (wire : nat -> Z) (n : nat) : nat :=
  match n with
  | O => O
  | S n' => snd (send c wire (sent_before c wire n'))
  end.

(** The outcome of the [n]-th call of [session.get] over this network. *)
Definition session_outcome (c : Http.Client) (wire : nat -> Z) (n : nat)
  : Http.NetResult :=
  Http.NetResponse
    (Http.mkResponse (fst (send c wire (sent_before c wire n))) None).

End Transport.

(* ===================================================================== *)
(** * Sample environments, for the concrete runs                         *)
(* ===================================================================== *)

Module Sample.

(** A clock that advances by one second per reading. *)
Definition tick_clock (n : nat) : Q := inject_Z (Z.of_nat n).

(** A clock that advances by [step] seconds per reading. *)
Definition stride_clock (step : Z) (n : nat) : Q :=
  inject_Z (step * Z.of_nat n).

(** A clock that stands still at [now]. *)
Definition still_clock (now : Q) (n : nat) : Q := now.

(** An upstream that answers every call with the status [code] and no
    [Retry-After] header. *)
Definition always (code : Z) (n : nat) : Http.NetResult :=
  Http.NetResponse (Http.mkResponse code None).

(** An upstream that answers every call with 429 and the given
    [Retry-After] header. *)
Definition rate_limited (hdr : option string) (n : nat) : Http.NetResult :=
  Http.NetResponse (Http.mkResponse 429 hdr).

(** An upstream that answers 503 to the first [n0] calls and 404
    afterwards. *)
Definition unavailable_then_missing (n0 : nat) (n : nat) : Http.NetResult :=
  Http.NetResponse (Http.mkResponse (if (n <? n0)%nat then 503 else 404) None).

(** An upstream that answers 503 to the first [n0] calls and [code]
    afterwards. *)
Definition unavailable_then (n0 : nat) (code : Z) (n : nat)
  : Http.NetResult :=
  Http.NetResponse (Http.mkResponse (if (n <? n0)%nat then 503 else code) None).

(** An upstream on which every call times out. *)
Definition timing_out (n : nat) : Http.NetResult := Http.NetTimeout.

(** A network that answers every request with the status [code]. *)
Definition answering (code : Z) (n : nat) : Z := code.

(** [random.random()] always drawing [u]. *)
Definition constant_draw (u : Q) (n : nat) : Q := u.

(** [float] on the three texts the runs use: ["3"], ["-1"] and anything
    else, which does not parse. *)
Definition float_of_text (text : string) : option Http.PyFloat :=
  if String.eqb text "3" then Some (Http.Finite 3%Q)
  else if String.eqb text "-1" then Some (Http.Finite (-1)%Q)
  else None.

(** A digest that returns its text: collision-free, for the concrete
    runs of the key scheme. *)
Definition plain_digest (text : string) : string := text.

(** A cache holding ["a"], stored at reading 0 for one second, and
    ["b"], stored at reading 2 for 100 seconds. *)
Definition two_entries : Cache.InMemoryCache nat :=
  fst (Cache.set tick_clock
         (fst (Cache.set tick_clock (Cache.init nat 1800) "a" 1%nat
                 (Some 1) 0))
         "b" 2%nat (Some 100) 2).

(** The world before any clock reading, network call, draw or sleep. *)
Definition fresh_world : Http.World := Http.mkWorld 0 0 0 [].

(** A client with the constructor defaults except [max_retries]. *)
Definition client_with_retries (n : Z) : Http.Client :=
  Http.init 10%Q n (1 # 2)%Q 8%Q 5.

End Sample.

(* ===================================================================== *)
(** * Facts about the runtime fragments                                    *)
(* ===================================================================== *)

Module PyFacts.

Lemma gt_true a b : Py.gt a b = true <-> (b < a)%Q.
Proof.
  unfold Py.gt. rewrite negb_true_iff. split; intro H.
  - destruct (Qlt_le_dec b a) as [L|L]; [exact L|].
    apply Qle_bool_iff in L. congruence.
  - destruct (Qle_bool a b) eqn:E; [|reflexivity].
    apply Qle_bool_iff in E. exfalso. apply (Qlt_not_le _ _ H E).
Qed.

Lemma gt_false a b : Py.gt a b = false <-> (a <= b)%Q.
Proof.
  unfold Py.gt. rewrite negb_false_iff. apply Qle_bool_iff.
Qed.

Lemma lt_true a b : Py.lt a b = true <-> (a < b)%Q.
Proof. apply gt_true. Qed.

Lemma lt_false a b : Py.lt a b = false <-> (b <= a)%Q.
Proof. apply gt_false. Qed.

Lemma min_le_r a b : (Py.min a b <= b)%Q.
Proof.
  unfold Py.min. destruct (Py.lt b a) eqn:E.
  - apply Qle_refl.
  - apply lt_false in E. exact E.
Qed.

Lemma min_le_l a b : (Py.min a b <= a)%Q.
Proof.
  unfold Py.min. destruct (Py.lt b a) eqn:E.
  - apply lt_true in E. apply Qlt_le_weak. exact E.
  - apply Qle_refl.
Qed.


Lemma min_glb a b c : (c <= a)%Q -> (c <= b)%Q -> (c <= Py.min a b)%Q.
Proof. intros Ha Hb. unfold Py.min. destruct (Py.lt b a); assumption. Qed.

End PyFacts.
(* ===================================================================== *)
(** * The TTL cache: dictionary lemmas, the sweep, and the claims          *)
(* ===================================================================== *)

Module CacheFacts.

Import Cache.

Section Dict.

Variable V : Type.

Implicit Types (d : PyDict V) (e : Entry V) (key k : string).

Lemma dict_get_set_same key e d : dict_get key (dict_set key e d) = Some e.
Proof.
  induction d as [|[k e0] d IH]; simpl.
  - now rewrite String.eqb_refl.
  - destruct (String.eqb key k) eqn:E; simpl; rewrite E; auto.
Qed.

Lemma dict_get_set_other key k e d :
  k <> key -> dict_get k (dict_set key e d) = dict_get k d.
Proof.
  intro N. induction d as [|[k0 e0] d IH]; simpl.
  - apply String.eqb_neq in N. now rewrite N.
  - destruct (String.eqb key k0) eqn:E; simpl.
    + apply String.eqb_eq in E. subst k0.
      apply String.eqb_neq in N. now rewrite N.
    + now rewrite IH.
Qed.

Lemma dict_get_del_other key k d :
  k <> key -> dict_get k (dict_del key d) = dict_get k d.
Proof.
  intro N. induction d as [|[k0 e0] d IH]; simpl; [reflexivity|].
  destruct (String.eqb key k0) eqn:E; simpl.
  - apply String.eqb_eq in E. subst k0.
    apply String.eqb_neq in N. now rewrite N.
  - now rewrite IH.
Qed.

Lemma dict_get_not_in key d : ~ In key (keys d) -> dict_get key d = None.
Proof.
  induction d as [|[k0 e0] d IH]; simpl; [reflexivity|]. intro N.
  destruct (String.eqb key k0) eqn:E.
  - apply String.eqb_eq in E. subst. tauto.
  - apply IH. tauto.
Qed.

Lemma dict_get_del_same key d :
  dict_wf d -> dict_get key (dict_del key d) = None.
Proof.
  unfold dict_wf. induction d as [|[k0 e0] d IH]; simpl; [reflexivity|].
  intro W. inversion W as [|? ? Hn Hd]; subst.
  destruct (String.eqb key k0) eqn:E; simpl.
  - apply String.eqb_eq in E. subst k0. now apply dict_get_not_in.
  - rewrite E. now apply IH.
Qed.

Lemma keys_del_incl key d k : In k (keys (dict_del key d)) -> In k (keys d).
Proof.
  induction d as [|[k0 e0] d IH]; simpl; [tauto|].
  destruct (String.eqb key k0); simpl; tauto.
Qed.

Lemma dict_wf_del key d : dict_wf d -> dict_wf (dict_del key d).
Proof.
  unfold dict_wf. induction d as [|[k0 e0] d IH]; simpl; [auto|].
  intro W. inversion W as [|? ? Hn Hd]; subst.
  destruct (String.eqb key k0); simpl; [assumption|].
  constructor; [|auto]. intro H. apply Hn. eapply keys_del_incl; eauto.
Qed.

Lemma keys_set_incl key e d k :
  In k (keys (dict_set key e d)) -> k = key \/ In k (keys d).
Proof.
  induction d as [|[k0 e0] d IH]; simpl.
  - intuition.
  - destruct (String.eqb key k0); simpl; intuition.
Qed.

Lemma dict_wf_set key e d : dict_wf d -> dict_wf (dict_set key e d).
Proof.
  unfold dict_wf. induction d as [|[k0 e0] d IH]; simpl.
  - intros _. repeat constructor. simpl. tauto.
  - intro W. inversion W as [|? ? Hn Hd]; subst.
    destruct (String.eqb key k0) eqn:E; simpl.
    + constructor; assumption.
    + constructor; [|auto]. intro H.
      apply keys_set_incl in H. destruct H as [H|H]; [|tauto].
      subst. rewrite String.eqb_refl in E. discriminate.
Qed.

Lemma dict_del_length key d :
  (List.length d <= S (List.length (dict_del key d)))%nat.
Proof.
  induction d as [|[k0 e0] d IH]; simpl; [lia|].
  destruct (String.eqb key k0); simpl; lia.
Qed.

End Dict.

Section Sweep.

Variable V : Type.
Variable clock : nat -> Q.

Implicit Types (d : PyDict V) (self : InMemoryCache V) (key k : string).

Lemma expired_keys_ticks d t :
  snd (expired_keys clock d t) = (t + List.length d)%nat.
Proof.
  revert t. induction d as [|[k0 e0] d IH]; intro t; simpl.
  - lia.
  - specialize (IH (S t)).
    destruct (expired_keys clock d (S t)) as [ks t2]. simpl in *. lia.
Qed.

Lemma expired_keys_incl d t k :
  In k (fst (expired_keys clock d t)) -> In k (keys d).
Proof.
  revert t. induction d as [|[k0 e0] d IH]; intros t; simpl; [tauto|].
  specialize (IH (S t)).
  destruct (expired_keys clock d (S t)) as [ks t2]. simpl in *.
  destruct (Py.gt (clock t) (expires_at e0)); simpl; intuition.
Qed.

(** A key whose only entry is still within its expiry at every reading of
    the sweep is not collected. *)
Lemma expired_keys_fresh key ent d t :
  dict_wf d ->
  dict_get key d = Some ent ->
  (forall i, (t <= i < t + List.length d)%nat ->
             (clock i <= expires_at ent)%Q) ->
  ~ In key (fst (expired_keys clock d t)).
Proof.
  unfold dict_wf. revert t.
  induction d as [|[k0 e0] d IH]; intros t W G Hc; simpl; [tauto|].
  inversion W as [|? ? Hn Hd]; subst.
  simpl in G. specialize (IH (S t) Hd).
  pose proof (@expired_keys_incl d (S t) key) as Hincl.
  destruct (expired_keys clock d (S t)) as [ks t2] eqn:Ek. simpl in *.
  destruct (String.eqb key k0) eqn:E.
  - apply String.eqb_eq in E. subst k0. injection G as ->.
    assert (Hf : Py.gt (clock t) (expires_at ent) = false).
    { apply PyFacts.gt_false. apply Hc. lia. }
    rewrite Hf. tauto.
  - assert (Hin : ~ In key ks).
    { apply IH; [exact G|]. intros i Hi. apply Hc. lia. }
    destruct (Py.gt (clock t) (expires_at e0)); simpl; [|exact Hin].
    intros [H|H]; [|tauto]. subst. rewrite String.eqb_refl in E. discriminate.
Qed.

Lemma evict_default_ttl ks self :
  default_ttl_seconds (evict ks self) = default_ttl_seconds self.
Proof. revert self. induction ks; intro self; simpl; [|rewrite IHks]; auto. Qed.

Lemma evict_wf ks self :
  dict_wf (_cache self) -> dict_wf (_cache (evict ks self)).
Proof.
  revert self. induction ks as [|k ks IH]; intros self W; simpl; [exact W|].
  apply IH. simpl. now apply dict_wf_del.
Qed.

Lemma evict_keeps key ks self :
  ~ In key ks ->
  dict_get key (_cache (evict ks self)) = dict_get key (_cache self).
Proof.
  revert self. induction ks as [|k ks IH]; intros self N; simpl; [reflexivity|].
  rewrite IH; simpl; [|intro; apply N; now right].
  apply dict_get_del_other. intro; subst. apply N. now left.
Qed.

(** Eviction never changes the entry bound to a key: it stays or it goes. *)
Lemma evict_get key ks self :
  dict_wf (_cache self) ->
  dict_get key (_cache (evict ks self)) = None \/
  dict_get key (_cache (evict ks self)) = dict_get key (_cache self).
Proof.
  revert self. induction ks as [|k ks IH]; intros self W; simpl; [now right|].
  set (self' := mkCache _ _ _ _ _ _).
  assert (W' : dict_wf (_cache self')) by (simpl; now apply dict_wf_del).
  destruct (IH self' W') as [H|H]; [now left|].
  rewrite H. simpl.
  destruct (String.eqb key k) eqn:E.
  - apply String.eqb_eq in E. subst k. left. now apply dict_get_del_same.
  - right. apply dict_get_del_other. intro; subst.
    rewrite String.eqb_refl in E. discriminate.
Qed.

Lemma cleanup_ticks self t :
  snd (_cleanup_expired clock self t) = (t + List.length (_cache self))%nat.
Proof.
  unfold _cleanup_expired. pose proof (expired_keys_ticks (_cache self) t) as H.
  destruct (expired_keys clock (_cache self) t). exact H.
Qed.

Lemma cleanup_wf self t :
  dict_wf (_cache self) ->
  dict_wf (_cache (fst (_cleanup_expired clock self t))).
Proof.
  unfold _cleanup_expired. destruct (expired_keys clock (_cache self) t).
  simpl. apply evict_wf.
Qed.

Lemma cleanup_get key self t :
  dict_wf (_cache self) ->
  dict_get key (_cache (fst (_cleanup_expired clock self t))) = None \/
  dict_get key (_cache (fst (_cleanup_expired clock self t)))
    = dict_get key (_cache self).
Proof.
  unfold _cleanup_expired. destruct (expired_keys clock (_cache self) t).
  simpl. apply evict_get.
Qed.

Lemma cleanup_keeps key ent self t :
  dict_wf (_cache self) ->
  dict_get key (_cache self) = Some ent ->
  (forall i, (t <= i < snd (_cleanup_expired clock self t))%nat ->
             (clock i <= expires_at ent)%Q) ->
  dict_get key (_cache (fst (_cleanup_expired clock self t))) = Some ent.
Proof.
  intros W G Hc. rewrite cleanup_ticks in Hc.
  pose proof (@expired_keys_fresh key ent (_cache self) t W G Hc) as N.
  unfold _cleanup_expired. destruct (expired_keys clock (_cache self) t).
  simpl in *. rewrite evict_keeps; assumption.
Qed.

Lemma sweeps_ticks n self t : (t <= snd (sweeps clock n self t))%nat.
Proof.
  revert self t. induction n as [|n IH]; intros self t; simpl; [lia|].
  pose proof (cleanup_ticks self t) as H.
  destruct (_cleanup_expired clock self t) as [self1 t1]. simpl in H.
  specialize (IH self1 t1). lia.
Qed.

Lemma sweeps_wf n self t :
  dict_wf (_cache self) -> dict_wf (_cache (fst (sweeps clock n self t))).
Proof.
  revert self t. induction n as [|n IH]; intros self t W; simpl; [exact W|].
  pose proof (cleanup_wf self t W) as H.
  destruct (_cleanup_expired clock self t) as [self1 t1]. now apply IH.
Qed.

Lemma sweeps_get key n self t :
  dict_wf (_cache self) ->
  dict_get key (_cache (fst (sweeps clock n self t))) = None \/
  dict_get key (_cache (fst (sweeps clock n self t)))
    = dict_get key (_cache self).
Proof.
  revert self t. induction n as [|n IH]; intros self t W; simpl; [now right|].
  pose proof (cleanup_wf self t W) as W1.
  pose proof (cleanup_get key self t W) as G1.
  destruct (_cleanup_expired clock self t) as [self1 t1]. simpl in *.
  destruct (IH self1 t1 W1) as [H|H]; [now left|].
  rewrite H. exact G1.
Qed.

Lemma sweeps_keeps key ent n self t :
  dict_wf (_cache self) ->
  dict_get key (_cache self) = Some ent ->
  (forall i, (t <= i < snd (sweeps clock n self t))%nat ->
             (clock i <= expires_at ent)%Q) ->
  dict_get key (_cache (fst (sweeps clock n self t))) = Some ent.
Proof.
  revert self t. induction n as [|n IH]; intros self t W G Hc; simpl in *;
    [exact G|].
  pose proof (cleanup_wf self t W) as W1.
  pose proof (@cleanup_keeps key ent self t W G) as K1.
  destruct (_cleanup_expired clock self t) as [self1 t1] eqn:E1. simpl in *.
  apply IH; [exact W1| |].
  - apply K1. intros i Hi. apply Hc.
    pose proof (sweeps_ticks n self1 t1). lia.
  - intros i Hi. apply Hc.
    pose proof (@cleanup_ticks self t) as T1. rewrite E1 in T1. simpl in T1.
    lia.
Qed.

End Sweep.

End CacheFacts.

(* ===================================================================== *)
(** * The TTL cache: the claims                                            *)
(* ===================================================================== *)

Module CacheClaims.

Import Cache CacheFacts.

Section InMemoryCache.

Variable V : Type.
Variable clock : nat -> Q.

(** C3 (TTL correctness).  A key is stored by [set]; any number [n] of
    explicit sweeps may run before the [get].  With [now] the latest reading
    of a monotone wall clock when [get] finishes and [expires] the
    [expires_at] that [set] stored, [get] returns the stored value when
    [now <= expires] and nothing when [now > expires]. *)
Theorem ttl_correctness (self : InMemoryCache V) (key : string) (v : V)
    (ttl : option Z) (t n : nat) :
  dict_wf (_cache self) ->
  (forall i j, (i <= j)%nat -> (clock i <= clock j)%Q) ->
  let expires :=
    (clock t + inject_Z (Py.or_int ttl (default_ttl_seconds self)))%Q in
  let '(self1, t1) := set clock self key v ttl t in
  let '(self2, t2) := sweeps clock n self1 t1 in
  let '(result, _, t3) := get clock self2 key t2 in
  let now := clock (pred t3) in
  (exists created,
     dict_get key (_cache self1) = Some (mkEntry v expires created)) /\
  result = (if Qle_bool now expires then Some v else None).
Proof.
  intros W mono expires. unfold set. simpl.
  set (ent := mkEntry v _ _).
  set (self1 := mkCache _ _ _ _ _ _).
  assert (W1 : dict_wf (_cache self1)) by (simpl; now apply dict_wf_set).
  assert (G1 : dict_get key (_cache self1) = Some ent)
    by (simpl; apply dict_get_set_same).
  pose proof (@sweeps_wf V clock n self1 (S (S t)) W1) as W2.
  pose proof (@sweeps_get V clock key n self1 (S (S t)) W1) as G2.
  pose proof (@sweeps_keeps V clock key ent n self1 (S (S t)) W1 G1) as K2.
  destruct (sweeps clock n self1 (S (S t))) as [self2 t2] eqn:Es.
  simpl in W2, G2, K2. unfold get.
  pose proof (@cleanup_wf V clock self2 t2 W2) as W3.
  pose proof (@cleanup_get V clock key self2 t2 W2) as G3.
  pose proof (@cleanup_ticks V clock self2 t2) as T3.
  destruct (_cleanup_expired clock self2 t2) as [self3 t3] eqn:Ec.
  simpl in W3, G3, T3.
  assert (G : dict_get key (_cache self3) = None \/
              dict_get key (_cache self3) = Some ent).
  { destruct G3 as [H|H]; [now left|]. rewrite H.
    destruct G2 as [H2|H2]; [now left|]. right. now rewrite H2. }
  destruct (dict_get key (_cache self3)) as [entry|] eqn:Eg.
  - destruct G as [G|G]; [discriminate|]. injection G as ->.
    unfold _is_expired, time_time. simpl. fold expires.
    unfold Py.gt.
    destruct (Qle_bool (clock t3) expires) eqn:Q; simpl; rewrite Q;
      (split; [exists (clock (S t)); exact G1|reflexivity]).
  - split; [exists (clock (S t)); exact G1|].
    destruct (Qle_bool (clock (pred t3)) expires) eqn:Q; [|reflexivity].
    exfalso. apply Qle_bool_iff in Q.
    assert (Hall : forall i, (i < t3)%nat -> (clock i <= expires)%Q).
    { intros i Hi. eapply Qle_trans; [|exact Q]. apply mono. lia. }
    assert (H2 : dict_get key (_cache self2) = Some ent).
    { apply K2. intros i Hi. apply Hall. lia. }
    pose proof (@cleanup_keeps V clock key ent self2 t2 W2 H2) as K3.
    rewrite Ec in K3. simpl in K3. rewrite K3 in Eg; [discriminate|].
    intros i Hi. apply Hall. lia.
Qed.

(** C9.  [set(key, value, ttl_seconds=0)]: the zero is falsy, so the entry
    is stored with the namespace's default TTL, not with an expiry of
    [clock t].  With [now] the latest reading of a monotone wall clock when
    the [get] that follows finishes and [expires] the stored [expires_at],
    that [get] returns the value when [now <= expires]. *)
Theorem zero_ttl_uses_default (self : InMemoryCache V) (key : string) (v : V)
    (t : nat) :
  dict_wf (_cache self) ->
  (forall i j, (i <= j)%nat -> (clock i <= clock j)%Q) ->
  let expires := (clock t + inject_Z (default_ttl_seconds self))%Q in
  let '(self1, t1) := set clock self key v (Some 0) t in
  let '(result, _, t2) := get clock self1 key t1 in
  let now := clock (pred t2) in
  (exists created,
     dict_get key (_cache self1) = Some (mkEntry v expires created)) /\
  result = (if Qle_bool now expires then Some v else None).
Proof.
  intros W mono expires. unfold set. simpl.
  set (ent := mkEntry v _ _).
  set (self1 := mkCache _ _ _ _ _ _).
  assert (W1 : dict_wf (_cache self1)) by (simpl; now apply dict_wf_set).
  assert (G1 : dict_get key (_cache self1) = Some ent)
    by (simpl; apply dict_get_set_same).
  unfold get.
  pose proof (@cleanup_get V clock key self1 (S (S t)) W1) as G3.
  pose proof (@cleanup_ticks V clock self1 (S (S t))) as T3.
  destruct (_cleanup_expired clock self1 (S (S t))) as [self3 t3] eqn:Ec.
  cbn [fst snd] in G3, T3.
  destruct (dict_get key (_cache self3)) as [entry|] eqn:Eg.
  - destruct G3 as [G|G]; [discriminate|].
    rewrite G1 in G. injection G as ->.
    unfold _is_expired, time_time. simpl. fold expires.
    unfold Py.gt.
    destruct (Qle_bool (clock t3) expires) eqn:Q; simpl; rewrite Q;
      (split; [exists (clock (S t)); exact G1|reflexivity]).
  - split; [exists (clock (S t)); exact G1|].
    destruct (Qle_bool (clock (pred t3)) expires) eqn:Q; [|reflexivity].
    exfalso. apply Qle_bool_iff in Q.
    pose proof (@cleanup_keeps V clock key ent self1 (S (S t)) W1 G1) as K3.
    rewrite Ec in K3. cbn [fst snd] in K3.
    rewrite K3 in Eg; [discriminate|].
    intros i Hi. eapply Qle_trans; [|exact Q]. apply mono. lia.
Qed.

End InMemoryCache.

Section SmartCache.

Variable V : Type.
Variable md5_hexdigest : string -> string.

(** C8.  [invalidate_player] leaves the stats, market, league and search
    caches untouched (entries and counters), touches no counter of the
    player cache, and in the player cache removes at most the one entry
    stored under the key derived from the id: every other key keeps its
    entry. *)
Theorem invalidate_player_frame (self : SmartCache V) (player_id : Z) :
  let self' := invalidate_player md5_hexdigest self player_id in
  let key := _make_key md5_hexdigest "player" [ArgInt player_id] in
  stats_cache self' = stats_cache self /\
  market_cache self' = market_cache self /\
  league_cache self' = league_cache self /\
  search_cache self' = search_cache self /\
  _cache (player_cache self') = dict_del key (_cache (player_cache self)) /\
  (forall k, k <> key ->
     dict_get k (_cache (player_cache self'))
     = dict_get k (_cache (player_cache self))) /\
  (List.length (_cache (player_cache self))
   <= S (List.length (_cache (player_cache self'))))%nat /\
  (hits (player_cache self'), misses (player_cache self'),
   sets (player_cache self'), evictions (player_cache self'))
  = (hits (player_cache self), misses (player_cache self),
     sets (player_cache self), evictions (player_cache self)).
Proof.
  intros self' key. subst self'. unfold invalidate_player, delete.
  fold key. unfold dict_mem.
  destruct (dict_get key (_cache (player_cache self))) as [e|] eqn:G; simpl.
  - repeat split; auto.
    + intros k N. now apply dict_get_del_other.
    + apply dict_del_length.
  - assert (D : dict_del key (_cache (player_cache self))
                = _cache (player_cache self)).
    { clear - G. induction (_cache (player_cache self)) as [|[k0 e0] d IH];
        simpl in *; [reflexivity|].
      destruct (String.eqb key k0); [discriminate|]. now rewrite IH. }
    rewrite D. repeat split; auto.
Qed.

End SmartCache.

(** ** Concrete runs *)

Import Sample.

Lemma tick_clock_mono i j : (i <= j)%nat -> (tick_clock i <= tick_clock j)%Q.
Proof. intro H. unfold tick_clock. rewrite <- Zle_Qle. lia. Qed.

(** [set] at reading 0 with a TTL of 5 seconds, one sweep, then [get]
    finishing at reading 4: the value is returned.  With a TTL of 1 second
    the same [get] finds the entry expired. *)
Lemma ttl_correctness_witness :
  fst (fst (get tick_clock
              (fst (sweeps tick_clock 1
                      (fst (set tick_clock (init nat 1800) "k" 7%nat (Some 5)
                              0))
                      2))
              "k" 3))
  = Some 7%nat /\
  fst (fst (get tick_clock
              (fst (sweeps tick_clock 1
                      (fst (set tick_clock (init nat 1800) "k" 7%nat (Some 1)
                              0))
                      2))
              "k" 3))
  = None.
Proof.
  split.
  - pose proof (@ttl_correctness nat tick_clock (init nat 1800) "k" 7%nat
                  (Some 5) 0 1 (NoDup_nil _) tick_clock_mono) as H.
    vm_compute in H. vm_compute. exact (proj2 H).
  - pose proof (@ttl_correctness nat tick_clock (init nat 1800) "k" 7%nat
                  (Some 1) 0 1 (NoDup_nil _) tick_clock_mono) as H.
    vm_compute in H. vm_compute. exact (proj2 H).
Defined.

(** [set] with a TTL of 0 at reading 0 of a clock that moves by one second
    per reading, on a cache whose default TTL is 1800 seconds: the [get]
    that follows finishes at reading 3 and returns the value; the entry
    expires at 1800. *)
Lemma zero_ttl_uses_default_witness :
  dict_get "k"
    (_cache (fst (set tick_clock (init nat 1800) "k" 7%nat (Some 0) 0)))
  = Some (mkEntry 7%nat 1800%Q 1%Q) /\
  fst (fst (get tick_clock
              (fst (set tick_clock (init nat 1800) "k" 7%nat (Some 0) 0))
              "k" 2))
  = Some 7%nat.
Proof.
  pose proof (@zero_ttl_uses_default nat tick_clock (init nat 1800) "k"
                7%nat 0%nat (NoDup_nil _) tick_clock_mono) as H.
  vm_compute in H. vm_compute. split; [reflexivity|exact (proj2 H)].
Defined.

End CacheClaims.

(* ===================================================================== *)
(** * The resilient client: effect of each operation                       *)
(* ===================================================================== *)

Module HttpFacts.

Import Http.

Local Open Scope py_scope.

#[local] Arguments on_exception : simpl never.
#[local] Arguments _sleep_with_backoff : simpl never.
#[local] Arguments _record_failure : simpl never.
#[local] Arguments _record_success : simpl never.
#[local] Arguments exponential_backoff : simpl never.
#[local] Arguments failed : simpl never.

(** Unfolding of the monadic plumbing. *)
Ltac plumb :=
  cbv [bind ret raise return_ continue_ when attr update assign_last_exc
       read_last_exc].

Section Effects.

Variable clock : nat -> Q.
Variable upstream : nat -> NetResult.
Variable random : nat -> Q.
Variable parse_float : string -> option PyFloat.

Lemma record_failure_eq s :
  _record_failure clock s
  = (Normal tt,
     mkSt (failed (clock (ticks (world s))) (self s)) (ticked (world s))
          (last_exc s)).
Proof.
  unfold _record_failure, time_time, failed. plumb. simpl.
  destruct (circuit_breaker_threshold (self s)
            <=? consecutive_failures (self s) + 1); reflexivity.
Qed.

Lemma record_success_eq s :
  _record_success s
  = (Normal tt,
     mkSt (set_circuit_open false (set_consecutive_failures 0 (self s)))
          (world s) (last_exc s)).
Proof.
  unfold _record_success. plumb. simpl.
  destruct s as [[? ? ? ? ? ? [] ? ? ? ? ?] w le]; reflexivity.
Qed.

Lemma exponential_backoff_eq attempt_index s :
  exponential_backoff random attempt_index s
  = if 1024 <=? attempt_index then (Raise OverflowError, s)
    else
      let d := exponential_delay (self s) attempt_index
                 (random (draws (world s))) in
      let w := world s in
      let drawn :=
        mkSt (self s) (mkWorld (ticks w) (requests w) (S (draws w)) (sleeps w))
             (last_exc s) in
      if negb (fits_pytime d) then (Raise OverflowError, drawn)
      else if Py.lt d 0%Q then (Raise ValueError, drawn)
      else (Normal tt, mkSt (self s) (drawn_slept d w) (last_exc s)).
Proof.
  unfold exponential_backoff, float_times_pow2, random_uniform, time_sleep,
    exponential_delay.
  unfold bind at 1. unfold attr at 1. unfold bind at 1.
  destruct (1024 <=? attempt_index); [reflexivity|].
  plumb. simpl.
  match goal with
  | |- context [fits_pytime ?d] => destruct (fits_pytime d)
  end; simpl; [|reflexivity].
  match goal with |- context [Py.lt ?d 0%Q] => destruct (Py.lt d 0%Q) end;
    reflexivity.
Qed.

Lemma exponential_delay_nonneg c a u :
  sane c -> (0 <= u)%Q -> (0 <= exponential_delay c a u)%Q.
Proof.
  intros (Hb & Hc & _) Hu. unfold exponential_delay.
  assert (H2 : (0 <= Qpower 2 a)%Q) by (apply Qpower_0_le; discriminate).
  assert (Hm : (0 <= Py.min (backoff_base_seconds c * Qpower 2 a)
                       (backoff_cap_seconds c))%Q).
  { apply PyFacts.min_glb; [|exact Hc]. now apply Qmult_le_0_compat. }
  assert (Hj : (0 <= 0 + (backoff_base_seconds c - 0) * u)%Q).
  { setoid_replace (0 + (backoff_base_seconds c - 0) * u)%Q
      with (backoff_base_seconds c * u)%Q by ring.
    now apply Qmult_le_0_compat. }
  replace 0%Q with (0 + 0)%Q by reflexivity.
  now apply Qplus_le_compat.
Qed.

Lemma exponential_delay_bound c a u :
  (0 <= backoff_base_seconds c)%Q -> (u <= 1)%Q ->
  (exponential_delay c a u
   <= backoff_cap_seconds c + backoff_base_seconds c)%Q.
Proof.
  intros Hb Hu. unfold exponential_delay.
  apply Qplus_le_compat; [apply PyFacts.min_le_r|].
  setoid_replace (0 + (backoff_base_seconds c - 0) * u)%Q
    with (backoff_base_seconds c * u)%Q by ring.
  setoid_replace (backoff_base_seconds c)
    with (backoff_base_seconds c * 1)%Q at 2 by ring.
  rewrite (Qmult_comm _ u), (Qmult_comm _ 1).
  now apply Qmult_le_compat_r.
Qed.

(** The durations [time.sleep] converts form an interval. *)
Lemma fits_pytime_iff d :
  fits_pytime d = true <->
  (inject_Z (- 2 ^ 63) <= d * inject_Z (10 ^ 9))%Q /\
  (d * inject_Z (10 ^ 9) < inject_Z (2 ^ 63))%Q.
Proof.
  unfold fits_pytime. rewrite andb_true_iff, Qle_bool_iff, PyFacts.lt_true.
  reflexivity.
Qed.

Lemma fits_between d D :
  (0 <= d)%Q -> (d <= D)%Q -> fits_pytime D = true -> fits_pytime d = true.
Proof.
  intros H0 Hd HD. apply fits_pytime_iff in HD. destruct HD as (_ & HD).
  apply fits_pytime_iff.
  assert (P : (0 <= inject_Z (10 ^ 9))%Q) by (vm_compute; discriminate).
  split.
  - apply Qle_trans with (y := 0%Q); [vm_compute; discriminate|].
    now apply Qmult_le_0_compat.
  - eapply Qle_lt_trans; [|exact HD].
    now apply Qmult_le_compat_r.
Qed.

(** Under a sane configuration and draws from the unit interval the
    exponential delay is one [time.sleep] accepts. *)
Lemma exponential_delay_fits c a u :
  sane c -> (0 <= u)%Q -> (u <= 1)%Q ->
  fits_pytime (exponential_delay c a u) = true /\
  Py.lt (exponential_delay c a u) 0%Q = false.
Proof.
  intros Hs H0 H1.
  pose proof (exponential_delay_nonneg a Hs H0) as Hn.
  destruct Hs as (Hb & Hc & Hf).
  split; [|now apply PyFacts.lt_false].
  apply (@fits_between _ (backoff_cap_seconds c + backoff_base_seconds c)%Q);
    [exact Hn| |exact Hf].
  now apply exponential_delay_bound.
Qed.

(** [_sleep_with_backoff] in closed form: the hinted delay when there is
    one, [OverflowError] when [time.sleep] refuses the hint, the
    exponential policy otherwise. *)
Lemma sleep_with_backoff_eq attempt_index hdr s :
  _sleep_with_backoff random parse_float attempt_index hdr s
  = match hint_outcome parse_float (backoff_cap_seconds (self s)) hdr with
    | HintSleep d =>
        (Normal tt, mkSt (self s) (slept d (world s)) (last_exc s))
    | HintOverflow => (Raise OverflowError, s)
    | HintFallback => exponential_backoff random attempt_index s
    end.
Proof.
  unfold _sleep_with_backoff, hint_outcome.
  destruct hdr as [text|]; [|reflexivity].
  destruct (Py.truthy_str (Some text)); [|reflexivity].
  unfold bind at 1. unfold try_except, float.
  destruct (parse_float text) as [x|]; [|reflexivity].
  plumb. simpl.
  destruct x as [q| | |]; simpl; try reflexivity.
  - unfold time_sleep.
    destruct (fits_pytime (Py.min q (backoff_cap_seconds (self s))));
      simpl; [|reflexivity].
    destruct (Py.lt (Py.min q (backoff_cap_seconds (self s))) 0%Q);
      reflexivity.
  - unfold time_sleep.
    destruct (fits_pytime (backoff_cap_seconds (self s)));
      simpl; [|reflexivity].
    destruct (Py.lt (backoff_cap_seconds (self s)) 0%Q); reflexivity.
Qed.

(** Under a sane configuration, draws from the unit interval, an attempt
    index below 1024 and a header that does not overflow, the routine
    sleeps exactly once and returns normally, leaving the client alone. *)
Lemma sleep_with_backoff_total attempt_index hdr s :
  attempt_index < 1024 ->
  sane (self s) -> unit_draws random ->
  hint_outcome parse_float (backoff_cap_seconds (self s)) hdr
  <> HintOverflow ->
  exists w',
    _sleep_with_backoff random parse_float attempt_index hdr s
    = (Normal tt, mkSt (self s) w' (last_exc s)) /\
    ticks w' = ticks (world s) /\
    requests w' = requests (world s) /\
    List.length (sleeps w') = S (List.length (sleeps (world s))).
Proof.
  intros Ha Hs Hr Hh. rewrite sleep_with_backoff_eq.
  destruct (hint_outcome _ _ _) as [d| |]; [| |congruence].
  - eexists. split; [reflexivity|]. simpl. auto.
  - rewrite exponential_backoff_eq.
    apply Z.leb_gt in Ha. rewrite Ha. cbv zeta.
    destruct (Hr (draws (world s))) as (H0 & H1).
    destruct (@exponential_delay_fits (self s) attempt_index _ Hs H0 H1)
      as (Hf & Hl).
    rewrite Hf, Hl. simpl.
    eexists. split; [reflexivity|]. simpl. auto.
Qed.

Lemma config_failed now c : config (failed now c) = config c.
Proof.
  unfold failed.
  destruct (circuit_breaker_threshold c <=? consecutive_failures c + 1);
    reflexivity.
Qed.

Lemma sane_config c c' : config c' = config c -> sane c -> sane c'.
Proof.
  unfold config, sane. intros E H.
  injection E as _ _ -> -> _ _. exact H.
Qed.

Lemma failed_counts now c :
  error_count (failed now c) = error_count c + 1 /\
  consecutive_failures (failed now c) = consecutive_failures c + 1 /\
  request_count (failed now c) = request_count c /\
  last_failure_time (failed now c) = now.
Proof.
  unfold failed.
  destruct (circuit_breaker_threshold c <=? consecutive_failures c + 1);
    simpl; auto.
Qed.

(** The handler of either [except] clause, for an attempt that is not the
    last one: remember the exception, sleep, [continue]. *)
Lemma on_exception_retry attempt exc s :
  attempt < max_retries (self s) -> attempt < 1024 ->
  sane (self s) -> unit_draws random ->
  exists w',
    on_exception clock random parse_float attempt exc s
    = (Continue, mkSt (self s) w' (Some exc)) /\
    ticks w' = ticks (world s) /\
    requests w' = requests (world s) /\
    List.length (sleeps w') = S (List.length (sleeps (world s))).
Proof.
  intros Ha Hk Hs Hr. unfold on_exception. plumb. simpl.
  apply Z.ltb_lt in Ha. rewrite Ha.
  destruct (@sleep_with_backoff_total attempt None
              (mkSt (self s) (world s) (Some exc)) Hk Hs Hr
              ltac:(discriminate))
    as (w' & E & Ht & Hq & Hl).
  rewrite E. exists w'. auto.
Qed.

(** The handler of either [except] clause on the last attempt: remember the
    exception, record one failure, re-raise. *)
Lemma on_exception_last attempt exc s :
  max_retries (self s) <= attempt ->
  on_exception clock random parse_float attempt exc s
  = (Raise exc,
     mkSt (failed (clock (ticks (world s))) (self s)) (ticked (world s))
          (Some exc)).
Proof.
  intros Ha. unfold on_exception. plumb. simpl.
  apply Z.ltb_ge in Ha. rewrite Ha.
  rewrite record_failure_eq. reflexivity.
Qed.

(** Case analysis on the integer comparisons of the goal. *)
Ltac zcases :=
  repeat match goal with
    | |- context [Z.leb ?a ?b] => destruct (Z.leb_spec a b); try lia
    | |- context [Z.ltb ?a ?b] => destruct (Z.ltb_spec a b); try lia
    | |- context [Z.eqb ?a ?b] => destruct (Z.eqb_spec a b); try lia
    end.

Lemma sane_failed now c : sane c -> sane (failed now c).
Proof. apply sane_config, config_failed. Qed.

Lemma max_retries_failed now c : max_retries (failed now c) = max_retries c.
Proof.
  pose proof (config_failed now c) as E. unfold config in E. congruence.
Qed.

(** Replace the next [_sleep_with_backoff] or handler call of the goal by
    its result; [Hh] tells that the header of a 429 does not overflow. *)
Ltac run_sleep Hk Hs Hr Hh :=
  match goal with
  | |- context [_sleep_with_backoff _ _ ?a ?h ?st] =>
      let w := fresh "w" in
      let E := fresh "E" in
      destruct (@sleep_with_backoff_total a h st) as (w & E & ? & ? & ?);
      [ exact Hk
      | simpl; auto using sane_failed
      | exact Hr
      | simpl; first [discriminate | apply Hh; assumption]
      | rewrite E; clear E ]
  | |- context [on_exception _ _ _ ?a ?e ?st] =>
      let w := fresh "w" in
      let E := fresh "E" in
      destruct (@on_exception_retry a e st) as (w & E & ? & ? & ?);
      [ simpl; rewrite ?max_retries_failed; assumption
      | exact Hk
      | simpl; auto using sane_failed | exact Hr | rewrite E; clear E ]
  end.

Ltac advance :=
  unfold Advance; simpl in *;
  rewrite ?config_failed;
  repeat match goal with
    | |- context [failed ?now ?c] =>
        let H := fresh in
        pose proof (failed_counts now c) as H; destruct H as (? & ? & ? & ?);
        generalize dependent (failed now c); intros
    end;
  repeat split; simpl; try congruence; try lia.

(** An attempt that is not the last one and is answered by an error status
    or a network exception ends in [continue] after one request and one
    sleep; a 4xx other than 429 has recorded one failure on the way. *)
Lemma attempt_once_retried attempt s :
  attempt < max_retries (self s) -> attempt < 1024 ->
  sane (self s) -> unit_draws random ->
  retried parse_float (backoff_cap_seconds (self s))
    (upstream (requests (world s))) = true ->
  exists s',
    attempt_once clock upstream random parse_float attempt s = (Continue, s') /\
    Advance 1 (failures_recorded (upstream (requests (world s)))) s s'.
Proof.
  intros Ha Hk Hs Hr Hu.
  pose proof (proj2 (Z.ltb_lt _ _) Ha) as Hlt.
  unfold attempt_once, try_except, try_body, session_get.
  unfold bind at 1.
  destruct (upstream (requests (world s))) as [r| | |] eqn:Eu;
    cbn [retried] in Hu; simpl.
  - apply andb_prop in Hu. destruct Hu as [Hu Hn].
    assert (Hh : status_code r = 429 ->
                 hint_outcome parse_float (backoff_cap_seconds (self s))
                   (retry_after r) <> HintOverflow).
    { intros E429 Ho. rewrite E429, Ho in Hn. discriminate. }
    clear Hn.
    unfold is_error_status in Hu. unfold is_client_error.
    apply andb_prop in Hu. destruct Hu as [H4 H6].
    apply Z.leb_le in H4. apply Z.ltb_lt in H6.
    unfold raise_for_status.
    set (code := status_code r) in *.
    zcases; plumb; simpl; rewrite ?Hlt; rewrite ?record_failure_eq; simpl;
      repeat (run_sleep Hk Hs Hr Hh; simpl);
      (eexists; split; [reflexivity|advance]).
  - run_sleep Hk Hs Hr I. eexists; split; [reflexivity|advance].
  - run_sleep Hk Hs Hr I. eexists; split; [reflexivity|advance].
  - run_sleep Hk Hs Hr I. eexists; split; [reflexivity|advance].
Qed.

Lemma advance_trans k1 k2 f1 f2 s s1 s2 :
  Advance k1 f1 s s1 -> Advance k2 f2 s1 s2 ->
  Advance (k1 + k2) (f1 + f2) s s2.
Proof.
  unfold Advance.
  intros (C1 & R1 & L1 & E1 & F1 & Q1) (C2 & R2 & L2 & E2 & F2 & Q2).
  repeat split; try congruence; try lia.
Qed.

Lemma advance_max_retries k f s s' :
  Advance k f s s' -> max_retries (self s') = max_retries (self s).
Proof. intros (C & _). unfold config in C. congruence. Qed.

Lemma advance_sane k f s s' :
  Advance k f s s' -> sane (self s) -> sane (self s').
Proof. intros (C & _). now apply sane_config. Qed.

Lemma advance_cap k f s s' :
  Advance k f s s' ->
  backoff_cap_seconds (self s') = backoff_cap_seconds (self s).
Proof. intros (C & _). unfold config in C. congruence. Qed.

(** The loop of [get] over [n] attempts that are all retried: it reaches
    the rest of the loop after [n] requests and [n] sleeps. *)
Lemma attempts_retried n :
  forall (first : nat) (rest : list Z) (s : St),
    Z.of_nat first + Z.of_nat n <= max_retries (self s) ->
    Z.of_nat first + Z.of_nat n <= 1024 ->
    sane (self s) -> unit_draws random ->
    (forall i, (i < n)%nat ->
       retried parse_float (backoff_cap_seconds (self s))
         (upstream (requests (world s) + i)) = true) ->
    exists s',
      for_each (map Z.of_nat (seq first n) ++ rest)%list
        (attempt_once clock upstream random parse_float) s
      = for_each rest (attempt_once clock upstream random parse_float) s' /\
      Advance n (failures_before upstream (requests (world s)) n) s s'.
Proof.
  induction n as [|n IH]; intros first rest s Hm Hk Hs Hr Hu.
  - exists s. split; [reflexivity|]. unfold Advance. simpl.
    repeat split; lia.
  - simpl seq. simpl map. simpl app. cbn [for_each].
    destruct (@attempt_once_retried (Z.of_nat first) s) as (s1 & E1 & A1);
      [lia|lia|exact Hs|exact Hr| |].
    { specialize (Hu O). rewrite Nat.add_0_r in Hu. apply Hu. lia. }
    rewrite E1.
    assert (Rq : requests (world s1) = S (requests (world s)))
      by (destruct A1 as (_ & R & _); lia).
    destruct (IH (S first) rest s1) as (s2 & E2 & A2).
    + rewrite (advance_max_retries A1). lia.
    + lia.
    + exact (advance_sane A1 Hs).
    + exact Hr.
    + intros i Hi. rewrite Rq, (advance_cap A1).
      replace (S (requests (world s)) + i)%nat
        with (requests (world s) + S i)%nat by lia.
      apply Hu. lia.
    + exists s2. split; [exact E2|].
      rewrite Rq in A2. simpl failures_before.
      change (S n) with (1 + n)%nat. exact (advance_trans A1 A2).
Qed.

Lemma range_succ m :
  0 <= m ->
  Py.range (m + 1) = (map Z.of_nat (seq 0 (Z.to_nat m)) ++ [m])%list.
Proof.
  intro H. unfold Py.range.
  replace (Z.to_nat (m + 1)) with (Z.to_nat m + 1)%nat by lia.
  rewrite seq_app, map_app. simpl. f_equal. f_equal. lia.
Qed.

(** The last attempt answered by a 4xx (429 included): [_record_failure]
    runs before [raise_for_status] and again in the handler. *)
Lemma attempt_once_last_client_error attempt s r :
  max_retries (self s) <= attempt ->
  upstream (requests (world s)) = NetResponse r ->
  is_client_error (status_code r) = true ->
  let t := ticks (world s) in
  let c := if status_code r =? 429
           then set_rate_limit_count (rate_limit_count (self s) + 1) (self s)
           else self s in
  attempt_once clock upstream random parse_float attempt s
  = (Raise (HTTPError (status_code r)),
     mkSt (failed (clock (S t)) (failed (clock t) c))
          (ticked (ticked (requested (world s))))
          (Some (HTTPError (status_code r)))).
Proof.
  intros Ha Eu Hc t c. subst t c.
  pose proof (proj2 (Z.ltb_ge _ _) Ha) as Hge.
  unfold attempt_once, try_except, try_body, session_get.
  unfold bind at 1. rewrite Eu.
  unfold is_client_error in Hc.
  apply andb_prop in Hc. destruct Hc as [H4 H5].
  apply Z.leb_le in H4. apply Z.ltb_lt in H5.
  unfold raise_for_status.
  set (code := status_code r) in *.
  zcases; plumb; simpl; rewrite ?Hge; rewrite ?record_failure_eq; simpl;
    (rewrite on_exception_last;
     [reflexivity | simpl; rewrite ?max_retries_failed; simpl; exact Ha]).
Qed.

(** The last attempt answered by a 5xx: one failure is recorded, by the
    handler. *)
Lemma attempt_once_last_server_error attempt s r :
  max_retries (self s) <= attempt ->
  upstream (requests (world s)) = NetResponse r ->
  500 <= status_code r < 600 ->
  attempt_once clock upstream random parse_float attempt s
  = (Raise (HTTPError (status_code r)),
     mkSt (failed (clock (ticks (world s))) (self s))
          (ticked (requested (world s)))
          (Some (HTTPError (status_code r)))).
Proof.
  intros Ha Eu [H5 H6].
  pose proof (proj2 (Z.ltb_ge _ _) Ha) as Hge.
  unfold attempt_once, try_except, try_body, session_get.
  unfold bind at 1. rewrite Eu.
  unfold raise_for_status.
  set (code := status_code r) in *.
  zcases; plumb; simpl; rewrite ?Hge; simpl;
    (rewrite on_exception_last; [reflexivity | simpl; exact Ha]).
Qed.

(** With the breaker closed, [get] is its attempts phase. *)
Lemma get_closed s :
  circuit_open (self s) = false ->
  get clock upstream random parse_float s
  = get_attempts clock upstream random parse_float s.
Proof.
  intro H. unfold get, _is_circuit_open. plumb. rewrite H. simpl.
  destruct s; reflexivity.
Qed.

(** The three cases of [_is_circuit_open]. *)
Lemma is_circuit_open_closed s :
  circuit_open (self s) = false ->
  _is_circuit_open clock s = (Normal false, s).
Proof.
  intro H. unfold _is_circuit_open. plumb. rewrite H. simpl.
  destruct s; reflexivity.
Qed.

Lemma is_circuit_open_blocked s :
  circuit_open (self s) = true ->
  (clock (ticks (world s)) - last_failure_time (self s)
   <= circuit_reset_timeout (self s))%Q ->
  _is_circuit_open clock s
  = (Normal true, mkSt (self s) (ticked (world s)) (last_exc s)).
Proof.
  intros H Hw. unfold _is_circuit_open, time_time. plumb. rewrite H. simpl.
  apply PyFacts.gt_false in Hw. rewrite Hw. reflexivity.
Qed.

Lemma is_circuit_open_reset s :
  circuit_open (self s) = true ->
  (circuit_reset_timeout (self s)
   < clock (ticks (world s)) - last_failure_time (self s))%Q ->
  _is_circuit_open clock s
  = (Normal false, mkSt (reset (self s)) (ticked (world s)) (last_exc s)).
Proof.
  intros H Hw. unfold _is_circuit_open, time_time. plumb. rewrite H. simpl.
  apply PyFacts.gt_true in Hw. rewrite Hw. reflexivity.
Qed.

(** A call blocked by the breaker: one clock reading, nothing else. *)
Lemma get_blocked s :
  circuit_open (self s) = true ->
  (clock (ticks (world s)) - last_failure_time (self s)
   <= circuit_reset_timeout (self s))%Q ->
  get clock upstream random parse_float s
  = (Raise CircuitOpenError, mkSt (self s) (ticked (world s)) (last_exc s)).
Proof.
  intros H Hw. unfold get. unfold bind.
  rewrite is_circuit_open_blocked by assumption. reflexivity.
Qed.

(** [n] recorded failures in a row. *)
Lemma record_failures_spec n :
  forall s,
  exists s',
    record_failures clock n s = (Normal tt, s') /\
    config (self s') = config (self s) /\
    consecutive_failures (self s')
    = consecutive_failures (self s) + Z.of_nat n /\
    error_count (self s') = error_count (self s) + Z.of_nat n /\
    requests (world s') = requests (world s) /\
    ((0 < n)%nat ->
     circuit_breaker_threshold (self s)
     <= consecutive_failures (self s) + Z.of_nat n ->
     circuit_open (self s') = true).
Proof.
  induction n as [|n IH]; intro s.
  - exists s. simpl. unfold ret. repeat split; try lia.
  - cbn [record_failures]. unfold bind. rewrite record_failure_eq.
    set (s1 := mkSt _ _ _).
    destruct (IH s1) as (s' & E & C & F & Ec & R & O).
    exists s'. split; [exact E|].
    destruct (failed_counts (clock (ticks (world s))) (self s))
      as (Fe & Ff & _ & _).
    subst s1. simpl in *. rewrite config_failed in C.
    repeat split; try congruence; try lia.
    intros _ Ht.
    destruct n as [|n'].
    + simpl in E. unfold ret in E. injection E as <-. simpl.
      unfold failed. simpl in Ht.
      destruct (Z.leb_spec (circuit_breaker_threshold (self s))
                  (consecutive_failures (self s) + 1)); [reflexivity|lia].
    + apply O; [lia|].
      assert (Ct : circuit_breaker_threshold
                     (failed (clock (ticks (world s))) (self s))
                   = circuit_breaker_threshold (self s)).
      { pose proof (config_failed (clock (ticks (world s))) (self s)) as Cf.
        unfold config in Cf. congruence. }
      rewrite Ct, Ff. lia.
Qed.

(** ** What every path of [get] preserves

    [passes m]: [m] never ends in the circuit-open error and never takes
    back a network call.  The rules follow the constructs of the monad. *)

Lemma passes_ret A (a : A) : passes (ret a).
Proof. intros s H. simpl. split; [exact H|split; [discriminate|lia]]. Qed.

Lemma passes_raise A (e : Exn) : e <> CircuitOpenError -> passes (@raise A e).
Proof.
  intros N s H. simpl. split; [exact H|split; [congruence|lia]].
Qed.

Lemma passes_return A r : passes (@return_ A r).
Proof. intros s H. simpl. split; [exact H|split; [discriminate|lia]]. Qed.

Lemma passes_continue A : passes (@continue_ A).
Proof. intros s H. simpl. split; [exact H|split; [discriminate|lia]]. Qed.

Lemma passes_bind A B (m : M A) (k : A -> M B) :
  passes m -> (forall a, passes (k a)) -> passes (bind m k).
Proof.
  intros Hm Hk s H. unfold bind.
  specialize (Hm s H). destruct (m s) as [[a|e|r|] s1]; simpl in *;
    destruct Hm as (H1 & N1 & R1).
  - destruct (Hk a s1 H1) as (H2 & N2 & R2).
    split; [exact H2|split; [exact N2|lia]].
  - split; [exact H1|split; [|exact R1]].
    intro Hc. apply N1. congruence.
  - split; [exact H1|split; [discriminate|exact R1]].
  - split; [exact H1|split; [discriminate|exact R1]].
Qed.

Lemma passes_when b (body : M unit) : passes body -> passes (when b body).
Proof. destruct b; simpl; auto using passes_ret. Qed.

Lemma passes_attr A (f : Client -> A) : passes (attr f).
Proof. intros s H. simpl. split; [exact H|split; [discriminate|lia]]. Qed.

Lemma passes_update f : passes (update f).
Proof. intros s H. simpl. split; [exact H|split; [discriminate|lia]]. Qed.

Lemma passes_assign_last_exc v :
  v <> Some CircuitOpenError -> passes (assign_last_exc v).
Proof. intros N s H. simpl. split; [exact N|split; [discriminate|lia]]. Qed.

Lemma passes_time_time : passes (time_time clock).
Proof. intros s H. simpl. split; [exact H|split; [discriminate|lia]]. Qed.

Lemma passes_time_sleep d : passes (time_sleep d).
Proof.
  intros s H. unfold time_sleep.
  destruct (negb (fits_pytime d)); [|destruct (Py.lt d 0%Q)]; simpl;
    (split; [exact H|split; [discriminate|lia]]).
Qed.

Lemma passes_time_sleep_float x : passes (time_sleep_float x).
Proof.
  destruct x; simpl; auto using passes_time_sleep;
    apply passes_raise; discriminate.
Qed.

Lemma passes_random_uniform a b : passes (random_uniform random a b).
Proof. intros s H. simpl. split; [exact H|split; [discriminate|lia]]. Qed.

Lemma passes_float text : passes (float parse_float text).
Proof.
  unfold float. destruct (parse_float text); [apply passes_ret|].
  apply passes_raise. discriminate.
Qed.

Lemma passes_session_get : passes (session_get upstream).
Proof.
  intros s H. unfold session_get.
  destruct (upstream (requests (world s))); simpl;
    (split; [exact H|split; [discriminate|lia]]).
Qed.

Lemma passes_raise_for_status r : passes (raise_for_status r).
Proof.
  unfold raise_for_status.
  destruct ((400 <=? status_code r) && (status_code r <? 600));
    [apply passes_raise; discriminate|apply passes_ret].
Qed.

Lemma passes_float_times_pow2 x n : passes (float_times_pow2 x n).
Proof.
  unfold float_times_pow2.
  destruct (1024 <=? n); [apply passes_raise; discriminate|apply passes_ret].
Qed.

Lemma passes_try_except A (body : M A) (clauses : list (Clause A)) :
  passes body ->
  Forall (fun cl => forall e, e <> CircuitOpenError -> passes (snd cl e))
         clauses ->
  passes (try_except body clauses).
Proof.
  intros Hb Hc s H. unfold try_except.
  specialize (Hb s H). destruct (body s) as [[a|e|r|] s1]; simpl in *;
    destruct Hb as (H1 & N1 & R1);
    try (split; [exact H1|split; [exact N1|exact R1]]).
  assert (Ne : e <> CircuitOpenError) by congruence.
  induction Hc as [|[handles handler] rest Hh Hrest IH]; simpl.
  - split; [exact H1|split; [exact N1|exact R1]].
  - destruct (handles e); [|exact IH].
    destruct (Hh e Ne s1 H1) as (H2 & N2 & R2). simpl in H2, N2, R2.
    split; [exact H2|split; [exact N2|lia]].
Qed.

Lemma passes_for_each X (xs : list X) (body : X -> M unit) :
  (forall x, passes (body x)) -> passes (for_each xs body).
Proof.
  intros Hb. induction xs as [|x xs IH]; [apply passes_ret|].
  intros s H. cbn [for_each].
  specialize (Hb x s H). destruct (body x s) as [[a|e|r|] s1]; simpl in *;
    destruct Hb as (H1 & N1 & R1);
    try (split; [exact H1|split; [exact N1|exact R1]]).
  - destruct (IH s1 H1) as (H2 & N2 & R2).
    split; [exact H2|split; [exact N2|lia]].
  - destruct (IH s1 H1) as (H2 & N2 & R2).
    split; [exact H2|split; [exact N2|lia]].
Qed.

Create HintDb passes.

#[local] Hint Resolve passes_ret passes_return passes_continue passes_attr
  passes_update passes_time_time passes_time_sleep passes_time_sleep_float
  passes_random_uniform passes_float passes_session_get
  passes_raise_for_status passes_float_times_pow2 passes_when : passes.

(** Break a computation along its binds and close the leaves. *)
Ltac passing :=
  repeat first
    [ solve [auto with passes]
    | apply passes_when
    | apply passes_bind; [|intro] ].

Lemma passes_record_failure : passes (_record_failure clock).
Proof. unfold _record_failure. passing. Qed.

Lemma passes_record_success : passes _record_success.
Proof. unfold _record_success. passing. Qed.

Lemma passes_exponential_backoff a : passes (exponential_backoff random a).
Proof. unfold exponential_backoff. passing. Qed.

Lemma passes_sleep_with_backoff a hdr :
  passes (_sleep_with_backoff random parse_float a hdr).
Proof.
  unfold _sleep_with_backoff. apply passes_bind.
  - destruct hdr as [text|]; [|apply passes_ret].
    destruct (Py.truthy_str (Some text)); [|apply passes_ret].
    apply passes_try_except; [passing|].
    constructor; [|constructor]. intros e _. apply passes_ret.
  - intros [|]; [apply passes_ret|apply passes_exponential_backoff].
Qed.

#[local] Hint Resolve passes_record_failure passes_record_success
  passes_sleep_with_backoff : passes.

Lemma passes_try_body attempt :
  passes (try_body clock upstream random parse_float attempt).
Proof. unfold try_body. passing. Qed.

Lemma passes_on_exception attempt exc :
  exc <> CircuitOpenError ->
  passes (on_exception clock random parse_float attempt exc).
Proof.
  intro N. unfold on_exception. passing.
  - apply passes_assign_last_exc. congruence.
  - apply passes_raise. exact N.
Qed.

Lemma passes_attempt_once attempt :
  passes (attempt_once clock upstream random parse_float attempt).
Proof.
  unfold attempt_once. apply passes_try_except; [apply passes_try_body|].
  constructor; [|constructor; [|constructor]]; simpl; intros e N;
    now apply passes_on_exception.
Qed.

(** Every attempt starts with a network call. *)
Lemma attempt_once_requests attempt s :
  last_exc_ok s ->
  let r := attempt_once clock upstream random parse_float attempt s in
  (requests (world s) < requests (world (snd r)))%nat /\
  last_exc_ok (snd r) /\ fst r <> Raise CircuitOpenError.
Proof.
  intros H r.
  destruct (passes_attempt_once attempt H) as (H1 & N1 & _).
  fold r in H1, N1. split; [|split; assumption].
  subst r. unfold attempt_once, try_except, try_body.
  match goal with
  | |- context [bind (session_get upstream) ?k'] => set (k := k')
  end.
  assert (Hk : forall resp, passes (k resp)) by (intro; subst k; passing).
  unfold bind.
  pose proof (passes_session_get H) as Hg.
  assert (Rq : requests (world (snd (session_get upstream s)))
               = S (requests (world s))).
  { unfold session_get. destruct (upstream (requests (world s))); reflexivity. }
  assert (Hh : forall e s2,
             e <> CircuitOpenError -> last_exc_ok s2 ->
             (requests (world s) < requests (world s2))%nat ->
             (requests (world s)
              < requests (world (snd
                  match
                    (if is_network_error e
                     then Some (on_exception clock random parse_float attempt)
                     else if is_request_exception e
                          then Some (on_exception clock random parse_float
                                       attempt)
                          else None)
                  with
                  | Some handler => handler e s2
                  | None => (Raise e, s2)
                  end)))%nat).
  { intros e s2 Ne H2 R2.
    destruct (passes_on_exception attempt Ne H2) as (_ & _ & R3).
    destruct (is_network_error e); [lia|].
    destruct (is_request_exception e); simpl; lia. }
  destruct (session_get upstream s) as [[resp|e|r0|] s1] eqn:Es;
    simpl in Hg, Rq; destruct Hg as (Hok & Hne & _).
  - destruct (Hk resp s1 Hok) as (H2 & N2 & R2).
    destruct (k resp s1) as [[a|e|r0|] s2]; simpl in *; try lia.
    apply Hh; [congruence|exact H2|lia].
  - simpl. apply Hh; [congruence|exact Hok|lia].
  - simpl. lia.
  - simpl. lia.
Qed.

(** The attempts phase never ends in the circuit-open error, whatever the
    local [last_exc] held before, and with [0 <= max_retries] it makes at
    least one network call. *)
Lemma get_attempts_passes s :
  let r := get_attempts clock upstream random parse_float s in
  fst r <> Raise CircuitOpenError /\
  (0 <= max_retries (self s) ->
   (requests (world s) < requests (world (snd r)))%nat).
Proof.
  set (s0 := mkSt (set_request_count (request_count (self s) + 1) (self s))
                  (world s) None).
  set (m := max_retries (self s)).
  set (tail := (_record_failure clock ;;
                exc <- read_last_exc ;;
                match exc with
                | Some e => raise e
                | None => raise RuntimeError
                end) : M unit).
  set (body := attempt_once clock upstream random parse_float).
  assert (E : get_attempts clock upstream random parse_float s
              = (for_each (Py.range (m + 1)) body ;; tail) s0)
    by reflexivity.
  rewrite E. clear E. cbv zeta.
  assert (H0 : last_exc_ok s0) by (unfold last_exc_ok; simpl; discriminate).
  assert (Htail : passes tail).
  { apply passes_bind; [apply passes_record_failure|]. intros _.
    intros s1 H1. unfold bind, read_last_exc.
    destruct (last_exc s1) as [e|] eqn:El; simpl;
      (split; [exact H1|split; [|lia]]); [|discriminate].
    intro Hc. injection Hc as ->. apply H1. exact El. }
  assert (Hbody : forall x, passes (body x))
    by (intro; apply passes_attempt_once).
  assert (Hloop : forall xs, passes (for_each xs body ;; tail)).
  { intro xs. apply passes_bind; [now apply passes_for_each|].
    intros _. exact Htail. }
  split; [exact (proj1 (proj2 (Hloop _ s0 H0)))|].
  intro Hpos.
  assert (Er : exists rest, Py.range (m + 1) = 0 :: rest).
  { unfold Py.range. replace (Z.to_nat (m + 1)) with (S (Z.to_nat m)) by lia.
    simpl. eauto. }
  destruct Er as (rest & ->).
  unfold bind. cbn [for_each].
  destruct (@attempt_once_requests 0 s0 H0) as (R1 & O1 & N1).
  change (requests (world s0)) with (requests (world s)) in R1.
  fold body in R1, O1, N1.
  pose proof (Hloop rest) as Hrest. unfold bind in Hrest.
  destruct (body 0 s0) as [[a|e|r0|] s1]; simpl in *; try lia.
  - destruct (Hrest s1 O1) as (_ & _ & R2).
    destruct (for_each rest body s1) as [[a'|e|r0|] s2]; simpl in *; lia.
  - destruct (Hrest s1 O1) as (_ & _ & R2).
    destruct (for_each rest body s1) as [[a'|e|r0|] s2]; simpl in *; lia.
Qed.

(** When every attempt before the last one is retried, the call reaches
    its last attempt after [max_retries] requests and sleeps, and an
    exception that leaves the last attempt leaves [get_attempts]. *)
Lemma get_attempts_last s :
  0 <= max_retries (self s) <= 1024 ->
  sane (self s) -> unit_draws random ->
  let n := Z.to_nat (max_retries (self s)) in
  (forall i, (i < n)%nat ->
     retried parse_float (backoff_cap_seconds (self s))
       (upstream (requests (world s) + i)) = true) ->
  exists s1,
    Advance n (failures_before upstream (requests (world s)) n)
            (entered s) s1 /\
    forall e s2,
      attempt_once clock upstream random parse_float (max_retries (self s)) s1
      = (Raise e, s2) ->
      get_attempts clock upstream random parse_float s = (Raise e, s2).
Proof.
  intros Hm Hs Hr n Hu.
  set (body := attempt_once clock upstream random parse_float).
  set (m := max_retries (self s)) in *.
  set (tail := (_record_failure clock ;;
                exc <- read_last_exc ;;
                match exc with
                | Some e => raise e
                | None => raise RuntimeError
                end) : M unit).
  assert (E : get_attempts clock upstream random parse_float s
              = (for_each (Py.range (m + 1)) body ;; tail) (entered s))
    by reflexivity.
  rewrite E. rewrite (@range_succ m (proj1 Hm)).
  destruct (@attempts_retried n 0%nat [m] (entered s)) as (s1 & E1 & A1);
    [simpl; subst n m; lia | simpl; subst n; lia | exact Hs | exact Hr
    | exact Hu |].
  exists s1. split; [exact A1|].
  intros e s2 Ea. unfold bind. fold body in E1. fold n. rewrite E1.
  cbn [for_each]. rewrite Ea. reflexivity.
Qed.

(** An upstream that answers every attempt with the same 4xx other than
    429: every attempt is made, each one before the last records a failure
    and is retried, and the last one records two. *)
Lemma client_error_every_attempt s code :
  0 <= max_retries (self s) <= 1024 ->
  sane (self s) -> unit_draws random ->
  is_client_error code = true -> code <> 429 ->
  (forall i, exists hdr, upstream i = NetResponse (mkResponse code hdr)) ->
  exists s',
    get_attempts clock upstream random parse_float s
    = (Raise (HTTPError code), s') /\
    Z.of_nat (requests (world s'))
    = Z.of_nat (requests (world s)) + (max_retries (self s) + 1) /\
    Z.of_nat (List.length (sleeps (world s')))
    = Z.of_nat (List.length (sleeps (world s))) + max_retries (self s) /\
    error_count (self s') = error_count (self s) + (max_retries (self s) + 2).
Proof.
  intros Hm Hs Hr Hc Hn Hu.
  assert (He : is_error_status code = true).
  { unfold is_client_error in Hc. unfold is_error_status.
    apply andb_prop in Hc. destruct Hc as [H4 H5].
    apply Z.leb_le in H4. apply Z.ltb_lt in H5.
    apply andb_true_intro. split; [apply Z.leb_le|apply Z.ltb_lt]; lia. }
  assert (Fz : forall n a, failures_before upstream a n = Z.of_nat n).
  { induction n as [|n IH]; intro a; [reflexivity|].
    cbn [failures_before]. rewrite IH. destruct (Hu a) as (hdr & ->).
    cbn [failures_recorded status_code]. rewrite Hc.
    apply Z.eqb_neq in Hn. rewrite Hn. cbn [negb andb]. lia. }
  destruct (@get_attempts_last s Hm Hs Hr) as (s1 & A1 & Hlast).
  { intros i _. destruct (Hu (requests (world s) + i)%nat) as (hdr & ->).
    cbn [retried status_code]. rewrite He.
    apply Z.eqb_neq in Hn. rewrite Hn. reflexivity. }
  rewrite Fz in A1.
  destruct A1 as (C1 & R1 & L1 & E1 & F1 & Q1). simpl in R1, L1, E1, F1.
  assert (M1 : max_retries (self s1) = max_retries (self s))
    by (unfold config in C1; simpl in C1; congruence).
  destruct (Hu (requests (world s1))) as (hdr & Eu).
  pose proof (@attempt_once_last_client_error (max_retries (self s)) s1 _
                ltac:(rewrite M1; lia) Eu Hc) as Ea.
  cbv zeta in Ea. simpl status_code in Ea.
  apply Z.eqb_neq in Hn. rewrite Hn in Ea.
  eexists. split; [exact (Hlast _ _ Ea)|].
  destruct (failed_counts (clock (ticks (world s1))) (self s1))
    as (Fe & Ff & _ & _).
  destruct (failed_counts (clock (S (ticks (world s1))))
              (failed (clock (ticks (world s1))) (self s1)))
    as (Fe2 & Ff2 & _ & _).
  simpl. repeat split; lia.
Qed.

(** A hinted delay is one [time.sleep] accepts, at most the cap. *)
Lemma hint_outcome_sleep cap hdr d :
  hint_outcome parse_float cap hdr = HintSleep d ->
  (0 <= d)%Q /\ (d <= cap)%Q /\ fits_pytime d = true.
Proof.
  unfold hint_outcome. destruct hdr as [text|]; [|discriminate].
  destruct (Py.truthy_str (Some text)); [|discriminate].
  destruct (parse_float text) as [[q| | |]|]; simpl; try discriminate.
  - destruct (fits_pytime (Py.min q cap)) eqn:F; simpl; [|discriminate].
    destruct (Py.lt (Py.min q cap) 0%Q) eqn:E; [discriminate|].
    intros [= <-]. split; [now apply PyFacts.lt_false|].
    split; [apply PyFacts.min_le_r|exact F].
  - destruct (fits_pytime cap) eqn:F; simpl; [|discriminate].
    destruct (Py.lt cap 0%Q) eqn:E; [discriminate|].
    intros [= <-]. split; [now apply PyFacts.lt_false|].
    split; [apply Qle_refl|exact F].
Qed.



(** A 429 on an attempt that is not the last one: count it, then sleep
    with the response's [Retry-After] header, then [continue]. *)
Lemma attempt_once_rate_limited attempt s r :
  upstream (requests (world s)) = NetResponse r ->
  status_code r = 429 ->
  attempt < max_retries (self s) ->
  attempt_once clock upstream random parse_float attempt s
  = match
      _sleep_with_backoff random parse_float attempt (retry_after r)
        (mkSt (set_rate_limit_count (rate_limit_count (self s) + 1) (self s))
              (requested (world s)) (last_exc s))
    with
    | (Normal _, s1) => (Continue, s1)
    | (Raise e, s1) =>
        if is_request_exception e
        then on_exception clock random parse_float attempt e s1
        else (Raise e, s1)
    | other => other
    end.
Proof.
  intros Eu Ec Ha.
  pose proof (proj2 (Z.ltb_lt _ _) Ha) as Hlt.
  unfold attempt_once, try_except, try_body, session_get.
  unfold bind at 1. rewrite Eu. rewrite Ec. plumb. simpl. rewrite Hlt.
  unfold requested.
  destruct (_sleep_with_backoff random parse_float attempt (retry_after r) _)
    as [[[]|e|r0|] s1]; try reflexivity.
  simpl. destruct (is_network_error e) eqn:En.
  - destruct e; try discriminate; reflexivity.
  - destruct (is_request_exception e); reflexivity.
Qed.

(** Calls while the breaker is open and the reset window has not passed:
    each one is refused after a single clock reading. *)
Lemma calls_blocked n :
  forall s,
    circuit_open (self s) = true ->
    (forall i, (i < n)%nat ->
       (clock (ticks (world s) + i) - last_failure_time (self s)
        <= circuit_reset_timeout (self s))%Q) ->
    calls clock upstream random parse_float n s
    = (repeat (Raise CircuitOpenError) n,
       mkSt (self s)
            (mkWorld (ticks (world s) + n) (requests (world s))
                     (draws (world s)) (sleeps (world s)))
            (last_exc s)).
Proof.
  induction n as [|n IH]; intros s Ho Hw.
  - simpl. rewrite Nat.add_0_r. destruct s as [c [] le]; reflexivity.
  - cbn [calls]. rewrite get_blocked; [|exact Ho|].
    + rewrite IH; simpl.
      * repeat f_equal. lia.
      * exact Ho.
      * intros i Hi.
        replace (S (ticks (world s) + i)) with (ticks (world s) + S i)%nat
          by lia.
        apply Hw. lia.
    + specialize (Hw O). rewrite Nat.add_0_r in Hw. apply Hw. lia.
Qed.

End Effects.

End HttpFacts.

(* ===================================================================== *)
(** * The resilient client: the claims                                     *)
(* ===================================================================== *)

Module HttpClaims.

Import Http HttpFacts.

Local Open Scope py_scope.

#[local] Arguments on_exception : simpl never.
#[local] Arguments _sleep_with_backoff : simpl never.
#[local] Arguments _record_failure : simpl never.
#[local] Arguments exponential_backoff : simpl never.
#[local] Arguments failed : simpl never.

Section Claims.

Variable clock : nat -> Q.
Variable upstream : nat -> NetResult.
Variable random : nat -> Q.
Variable parse_float : string -> option PyFloat.


(** C6 (lazy reset).  With the breaker open and more than
    [circuit_reset_timeout] elapsed since [last_failure_time], the breaker
    check of the next call closes the breaker and zeroes
    [consecutive_failures]; the call goes on to its attempts from that
    state, does not end in the circuit-open error whatever the upstream
    answers, and with [0 <= max_retries] performs at least one call of
    [session.get].  The reset is the work of that call alone: the client
    is a value that only calls transform, and a call made before the
    timeout has elapsed leaves an open breaker as it is. *)
Theorem breaker_lazy_reset (s : St) :
  circuit_open (self s) = true ->
  (circuit_reset_timeout (self s)
   < clock (ticks (world s)) - last_failure_time (self s))%Q ->
  let s0 := mkSt (reset (self s)) (ticked (world s)) (last_exc s) in
  _is_circuit_open clock s = (Normal false, s0) /\
  circuit_open (self s0) = false /\
  consecutive_failures (self s0) = 0 /\
  get clock upstream random parse_float s
  = get_attempts clock upstream random parse_float s0 /\
  fst (get clock upstream random parse_float s) <> Raise CircuitOpenError /\
  (0 <= max_retries (self s) ->
   (requests (world s)
    < requests (world (snd (get clock upstream random parse_float s))))%nat)
  /\
  (forall early,
     circuit_open (self early) = true ->
     (clock (ticks (world early)) - last_failure_time (self early)
      <= circuit_reset_timeout (self early))%Q ->
     self (snd (get clock upstream random parse_float early)) = self early).
Proof.
  intros Ho Hw s0.
  pose proof (is_circuit_open_reset clock s Ho Hw) as E. fold s0 in E.
  assert (Eg : get clock upstream random parse_float s
               = get_attempts clock upstream random parse_float s0).
  { unfold get. unfold bind. rewrite E. reflexivity. }
  destruct (get_attempts_passes clock upstream random parse_float s0)
    as (N & R).
  split; [exact E|]. split; [reflexivity|]. split; [reflexivity|].
  split; [exact Eg|]. split; [rewrite Eg; exact N|].
  split.
  - intro Hm. rewrite Eg. apply R. exact Hm.
  - intros early Ho' Hw'.
    rewrite (get_blocked clock upstream random parse_float early Ho' Hw').
    reflexivity.
Qed.

(** C7 (backoff bound).  With a non-negative base delay and
    [random.random()] at most 1, whatever the attempt index and the
    [Retry-After] header, [_sleep_with_backoff] passes to [time.sleep] at
    most one duration, and that duration is at most
    [backoff_cap_seconds + backoff_base_seconds]. *)
Theorem backoff_bound (attempt : Z) (hdr : option string) (s : St) :
  (0 <= backoff_base_seconds (self s))%Q ->
  (forall i, random i <= 1)%Q ->
  let s' := snd (_sleep_with_backoff random parse_float attempt hdr s) in
  sleeps (world s') = sleeps (world s) \/
  exists d,
    sleeps (world s') = d :: sleeps (world s) /\
    (d <= backoff_cap_seconds (self s) + backoff_base_seconds (self s))%Q.
Proof.
  intros Hb Hr s'. subst s'. rewrite sleep_with_backoff_eq.
  destruct (hint_outcome parse_float (backoff_cap_seconds (self s)) hdr)
    as [d| |] eqn:Eh.
  - right. exists d. split; [reflexivity|].
    apply hint_outcome_sleep in Eh. destruct Eh as (_ & Eh & _).
    eapply Qle_trans; [exact Eh|].
    rewrite <- (Qplus_0_r (backoff_cap_seconds (self s))) at 1.
    apply Qplus_le_compat; [apply Qle_refl|exact Hb].
  - rewrite exponential_backoff_eq.
    destruct (1024 <=? attempt); [now left|]. cbv zeta.
    destruct (negb (fits_pytime _)); [now left|].
    destruct (Py.lt _ 0%Q); simpl; [now left|].
    right. eexists. split; [reflexivity|].
    now apply exponential_delay_bound.
  - now left.
Qed.

End Claims.

(** ** Concrete runs *)

Import Sample.

(** C1 at its failing input: the constructor's default client
    ([max_retries = 5], [circuit_breaker_threshold = 5]), breaker closed,
    and an upstream that answers 404 to every attempt.  [get] makes six
    calls of [session.get] with five backoff sleeps in between, calls
    [_record_failure] seven times and leaves the breaker open, before the
    [HTTPError] of the 404 reaches the caller. *)
Theorem not_found_is_retried :
  let s := mkSt default_client fresh_world None in
  let r := get tick_clock (always 404) (constant_draw 0) float_of_text s in
  circuit_open (self s) = false /\
  fst r = Raise (HTTPError 404) /\
  requests (world (snd r)) = 6%nat /\
  List.length (sleeps (world (snd r))) = 5%nat /\
  error_count (self (snd r)) = 7 /\
  consecutive_failures (self (snd r)) = 7 /\
  circuit_open (self (snd r)) = true.
Proof. vm_compute. repeat split. Qed.

(** C2 at its failing input: the constructor's default client
    ([max_retries = 5]), breaker closed, and a network that answers 503 to
    every request.  Each call of [session.get] goes through the adapter
    mounted by [__init__], which sends up to [max_retries + 1] requests
    before it hands the last 503 back; [get] calls [session.get] six times,
    so 36 requests reach the network, not 6, before the [HTTPError] of the
    last 503 is raised. *)
Theorem retry_ceiling_exceeded :
  let c := default_client in
  let s := mkSt c fresh_world None in
  let upstream := Transport.session_outcome c (answering 503) in
  let r := get tick_clock upstream (constant_draw 0) float_of_text s in
  circuit_open (self s) = false /\
  max_retries c = 5 /\
  fst r = Raise (HTTPError 503) /\
  requests (world (snd r)) = 6%nat /\
  Transport.sent_before c (answering 503) (requests (world (snd r)))
  = 36%nat.
Proof. vm_compute. repeat split. Qed.


(** C5 at its failing input: the constructor's default client
    ([max_retries = 5], [circuit_breaker_threshold = 5],
    [circuit_reset_timeout = 60]), breaker closed, and an upstream that
    answers 404 to every attempt.  After the attempts 0 to 4 of one [get]
    the breaker is open with five consecutive failures, one second after
    the last of them; attempt 5 of the same call still calls
    [session.get]. *)
Theorem open_breaker_still_calls :
  let s := mkSt default_client fresh_world None in
  let attempt :=
    Http.attempt_once tick_clock (always 404) (constant_draw 0)
      float_of_text in
  let mid := for_each (Py.range 5) attempt (entered s) in
  let last := attempt 5 (snd mid) in
  fst mid = Normal tt /\
  consecutive_failures (self (snd mid))
  = circuit_breaker_threshold default_client /\
  circuit_open (self (snd mid)) = true /\
  (tick_clock (ticks (world (snd mid)))
   - last_failure_time (self (snd mid))
   < circuit_reset_timeout (self (snd mid)))%Q /\
  requests (world (snd mid)) = 5%nat /\
  requests (world (snd last)) = 6%nat /\
  get tick_clock (always 404) (constant_draw 0) float_of_text s = last.
Proof. vm_compute. repeat split. Qed.

(** C10 at its failing input: [max_retries = 1] and an upstream that
    answers 404 twice.  The last attempt (index 1) receives a 4xx, and
    [error_count] and [consecutive_failures] increase by 3, not by 2: the
    404 of attempt 0 is recorded once and retried, and the 404 of the last
    attempt is recorded twice. *)
Theorem final_client_error_not_always_two :
  let s := mkSt (client_with_retries 1) fresh_world None in
  let r := get tick_clock (always 404) (constant_draw 0) float_of_text s in
  fst r = Raise (HTTPError 404) /\
  requests (world (snd r)) = 2%nat /\
  error_count (self (snd r)) = error_count (self s) + 3 /\
  consecutive_failures (self (snd r)) = consecutive_failures (self s) + 3 /\
  error_count (self (snd r)) <> error_count (self s) + 2 /\
  consecutive_failures (self (snd r)) <> consecutive_failures (self s) + 2.
Proof. vm_compute. repeat split; discriminate. Qed.




Lemma breaker_lazy_reset_witness :
  let s := mkSt (set_circuit_open true default_client) fresh_world None in
  fst (get (still_clock 100) (always 503) (constant_draw 0) float_of_text s)
  <> Raise CircuitOpenError /\
  (requests (world s)
   < requests (world (snd (get (still_clock 100) (always 503)
                             (constant_draw 0) float_of_text s))))%nat.
Proof.
  destruct (@breaker_lazy_reset (still_clock 100) (always 503)
              (constant_draw 0) float_of_text
              (mkSt (set_circuit_open true default_client) fresh_world None))
    as (_ & _ & _ & _ & N & R & _).
  - reflexivity.
  - vm_compute. reflexivity.
  - split; [exact N|]. apply R. simpl. lia.
Defined.

Lemma backoff_bound_witness :
  let s := mkSt default_client fresh_world None in
  let s' := snd (Http._sleep_with_backoff (constant_draw 1) float_of_text 10
                   (Some "3") s) in
  sleeps (world s') = sleeps (world s) \/
  exists d, sleeps (world s') = d :: sleeps (world s) /\ (d <= 8 + (1 # 2))%Q.
Proof.
  apply (@backoff_bound (constant_draw 1) float_of_text 10 (Some "3")
           (mkSt default_client fresh_world None)).
  - vm_compute. discriminate.
  - intro i. apply Qle_refl.
Defined.

End HttpClaims.

(* ===================================================================== *)
(** * The TTL cache: further properties                                    *)
(* ===================================================================== *)

Module CacheExtras.

Import Cache CacheFacts.

Section Sweep.

Variable V : Type.
Variable clock : nat -> Q.

Implicit Types (d : PyDict V) (self : InMemoryCache V) (key k : string).

(** The dictionary after the second loop of [_cleanup_expired]. *)
Lemma evict_cache ks self :
  _cache (evict ks self)
  = fold_left (fun d k => dict_del k d) ks (_cache self).
Proof.
  revert self. induction ks as [|k ks IH]; intro self; simpl; [reflexivity|].
  now rewrite IH.
Qed.

Lemma evict_counters ks self :
  hits (evict ks self) = hits self /\
  misses (evict ks self) = misses self /\
  sets (evict ks self) = sets self /\
  evictions (evict ks self) = evictions self + Z.of_nat (List.length ks) /\
  default_ttl_seconds (evict ks self) = default_ttl_seconds self.
Proof.
  revert self. induction ks as [|k ks IH]; intro self.
  - simpl. repeat split; lia.
  - cbn [evict]. destruct (IH (mkCache (default_ttl_seconds self)
                                 (dict_del k (_cache self)) (hits self)
                                 (misses self) (sets self)
                                 (evictions self + 1)))
      as (H1 & H2 & H3 & H4 & H5).
    simpl in *. repeat split; try assumption.
    rewrite H4. lia.
Qed.

Lemma fold_del_cons k0 e0 ks :
  forall d,
    ~ In k0 ks ->
    fold_left (fun d k => dict_del k d) ks ((k0, e0) :: d)
    = (k0, e0) :: fold_left (fun d k => dict_del k d) ks d.
Proof.
  induction ks as [|k ks IH]; intros d N; simpl; [reflexivity|].
  destruct (String.eqb k k0) eqn:E.
  - apply String.eqb_eq in E. subst. exfalso. apply N. now left.
  - apply IH. intro H. apply N. now right.
Qed.

(** Collect-then-delete is a single filtering pass. *)
Lemma fold_del_expired d :
  forall t,
    dict_wf d ->
    fold_left (fun d k => dict_del k d) (fst (expired_keys clock d t)) d
    = survivors clock d t.
Proof.
  unfold dict_wf. induction d as [|[k0 e0] d IH]; intros t W; [reflexivity|].
  inversion W as [|? ? Hn Hd]; subst.
  cbn [expired_keys survivors]. unfold _is_expired, time_time.
  pose proof (@expired_keys_incl V clock d (S t) k0) as Hincl.
  specialize (IH (S t) Hd).
  destruct (expired_keys clock d (S t)) as [ks t2]. simpl in IH, Hincl.
  destruct (Py.gt (clock t) (expires_at e0)); simpl.
  - rewrite String.eqb_refl. exact IH.
  - rewrite fold_del_cons by tauto. now rewrite IH.
Qed.

Lemma expired_plus_survivors d :
  forall t,
    (List.length (fst (expired_keys clock d t))
     + List.length (survivors clock d t))%nat
    = List.length d.
Proof.
  induction d as [|[k0 e0] d IH]; intro t; [reflexivity|].
  cbn [expired_keys survivors]. unfold _is_expired, time_time.
  specialize (IH (S t)).
  destruct (expired_keys clock d (S t)) as [ks t2]. simpl in IH.
  destruct (Py.gt (clock t) (expires_at e0)); simpl; lia.
Qed.

(** X1.  The two loops of [_cleanup_expired] (collect the expired keys,
    then delete them one by one) leave exactly the entries that were
    within their expiry at their own clock reading, in their original
    order. *)
Theorem sweep_is_one_pass self t :
  dict_wf (_cache self) ->
  _cache (fst (_cleanup_expired clock self t))
  = survivors clock (_cache self) t.
Proof.
  intro W. unfold _cleanup_expired.
  pose proof (fold_del_expired t W) as H.
  destruct (expired_keys clock (_cache self) t) as [ks t1]. simpl in *.
  now rewrite evict_cache.
Qed.

(** The accounting of one sweep, shared by the statements below. *)
Lemma cleanup_accounting self t :
  dict_wf (_cache self) ->
  let self' := fst (_cleanup_expired clock self t) in
  evictions self' - evictions self
  = Z.of_nat (List.length (_cache self))
    - Z.of_nat (List.length (_cache self')) /\
  hits self' = hits self /\ misses self' = misses self /\
  sets self' = sets self /\
  default_ttl_seconds self' = default_ttl_seconds self /\
  evictions self <= evictions self'.
Proof.
  intros W self'. subst self'.
  pose proof (fold_del_expired t W) as E.
  pose proof (expired_plus_survivors (_cache self) t) as L.
  unfold _cleanup_expired in *.
  destruct (expired_keys clock (_cache self) t) as [ks t1]. simpl in *.
  destruct (evict_counters ks self) as (H1 & H2 & H3 & H4 & H5).
  rewrite evict_cache, E. repeat split; try assumption; lia.
Qed.

(** X2.  [evictions] is exact: a sweep raises it by the number of entries
    it removed, and touches no other counter. *)
Theorem sweep_counts_evictions self t :
  dict_wf (_cache self) ->
  let self' := fst (_cleanup_expired clock self t) in
  evictions self' - evictions self
  = Z.of_nat (List.length (_cache self))
    - Z.of_nat (List.length (_cache self')) /\
  hits self' = hits self /\ misses self' = misses self /\
  sets self' = sets self.
Proof.
  intros W self'.
  destruct (cleanup_accounting self t W) as (H1 & H2 & H3 & H4 & _ & _).
  auto.
Qed.

(** X3.  [get] never makes a value up and never returns an expired one: a
    returned value is the one stored under the key, its entry was within
    its expiry at the last clock reading of the call and is still in the
    cache afterwards; a key with no entry gives nothing. *)
Theorem get_returns_only_live_entries self key t :
  dict_wf (_cache self) ->
  let '(result, self', t') := get clock self key t in
  (forall v,
     result = Some v ->
     exists e,
       dict_get key (_cache self) = Some e /\ value e = v /\
       (clock (pred t') <= expires_at e)%Q /\
       dict_get key (_cache self') = Some e) /\
  (dict_get key (_cache self) = None -> result = None).
Proof.
  intro W. unfold get.
  pose proof (@cleanup_get V clock key self t W) as G.
  destruct (_cleanup_expired clock self t) as [self1 t1]. simpl in G.
  destruct (dict_get key (_cache self1)) as [entry|] eqn:E1.
  - destruct G as [G|G]; [discriminate|].
    unfold _is_expired, time_time. simpl.
    destruct (Py.gt (clock t1) (expires_at entry)) eqn:Ex.
    + split; [intros v Hv; discriminate|]. intro Hn. congruence.
    + split.
      * intros v [= <-]. exists entry. simpl.
        repeat split; try congruence. now apply PyFacts.gt_false.
      * intro Hn. congruence.
  - split; [intros v Hv; discriminate|reflexivity].
Qed.

(** The counters after one [get], by what it returned. *)
Lemma get_counters self key t :
  let '(result, self', _) := get clock self key t in
  hits self' = hits self + match result with Some _ => 1 | None => 0 end /\
  misses self'
  = misses self + match result with Some _ => 0 | None => 1 end /\
  sets self' = sets self /\
  default_ttl_seconds self' = default_ttl_seconds self /\
  evictions self <= evictions self'.
Proof.
  unfold get, _cleanup_expired.
  destruct (expired_keys clock (_cache self) t) as [ks t1].
  destruct (evict_counters ks self) as (H1 & H2 & H3 & H4 & H5).
  destruct (dict_get key (_cache (evict ks self))) as [entry|].
  - unfold _is_expired, time_time. simpl.
    destruct (Py.gt (clock t1) (expires_at entry)); simpl;
      rewrite H1, H2; repeat split; try assumption; lia.
  - simpl. rewrite H1, H2. repeat split; try assumption; lia.
Qed.

(** X4.  Every [get] is counted once: a returned value raises [hits] by
    one, nothing returned raises [misses] by one; [sets] and the default
    TTL are left alone and [evictions] never goes down. *)
Theorem get_counts_hit_or_miss self key t :
  let '(result, self', _) := get clock self key t in
  ((result <> None /\ hits self' = hits self + 1 /\
    misses self' = misses self) \/
   (result = None /\ hits self' = hits self /\
    misses self' = misses self + 1)) /\
  sets self' = sets self /\
  default_ttl_seconds self' = default_ttl_seconds self /\
  evictions self <= evictions self'.
Proof.
  pose proof (get_counters self key t) as H.
  destruct (get clock self key t) as [[result self'] t'].
  destruct H as (Hh & Hm & Hs & Hd & He).
  split; [|split; [exact Hs|split; [exact Hd|exact He]]].
  destruct result as [v|].
  - left. split; [discriminate|]. split; lia.
  - right. split; [reflexivity|]. split; lia.
Qed.

Lemma keys_set_twice key e1 e2 d :
  keys (dict_set key e2 (dict_set key e1 d)) = keys (dict_set key e1 d).
Proof.
  induction d as [|[k0 e0] d IH]; simpl.
  - now rewrite String.eqb_refl.
  - destruct (String.eqb key k0) eqn:E; simpl; rewrite E; simpl;
      [reflexivity|]. now rewrite IH.
Qed.

(** X5.  Overwriting: a second [set] on a key replaces the value and the
    expiry of the first in place.  The dictionary keeps the same keys in
    the same order (no duplicate entry), the key is bound to the second
    value with an expiry computed from the second call, every other key
    keeps its entry, and [sets] has counted both calls. *)
Theorem set_overwrites_in_place self key (v1 v2 : V) ttl1 ttl2 t :
  let '(self1, t1) := set clock self key v1 ttl1 t in
  let '(self2, _) := set clock self1 key v2 ttl2 t1 in
  keys (_cache self2) = keys (_cache self1) /\
  dict_get key (_cache self2)
  = Some (mkEntry v2
            (clock t1 + inject_Z (Py.or_int ttl2 (default_ttl_seconds self)))%Q
            (clock (S t1))) /\
  (forall k, k <> key ->
     dict_get k (_cache self2) = dict_get k (_cache self)) /\
  sets self2 = sets self + 2.
Proof.
  unfold set. simpl. repeat split.
  - apply keys_set_twice.
  - apply dict_get_set_same.
  - intros k N. now rewrite !dict_get_set_other.
  - lia.
Qed.

(** A key with no entry misses. *)
Lemma get_absent self key t :
  dict_wf (_cache self) -> dict_get key (_cache self) = None ->
  fst (fst (get clock self key t)) = None.
Proof.
  intros W G0. unfold get.
  pose proof (@cleanup_get V clock key self t W) as G.
  destruct (_cleanup_expired clock self t) as [self1 t1]. simpl in G.
  destruct G as [G|G]; [rewrite G; reflexivity|].
  rewrite G, G0. reflexivity.
Qed.

Lemma dict_del_absent key d :
  dict_get key d = None -> dict_del key d = d.
Proof.
  induction d as [|[k0 e0] d IH]; simpl; [reflexivity|].
  destruct (String.eqb key k0); [discriminate|]. intro H. now rewrite IH.
Qed.

(** X6.  [delete] reports whether the key had an entry and removes it:
    afterwards the key has no entry and every [get] on it misses, the
    other keys keep their entries, no counter moves, deleting an absent
    key changes nothing, and deleting a key that was just [set] reports
    [True]. *)
Theorem delete_removes_key self key :
  dict_wf (_cache self) ->
  let '(found, self') := delete self key in
  found = dict_mem key (_cache self) /\
  dict_get key (_cache self') = None /\
  (forall k, k <> key ->
     dict_get k (_cache self') = dict_get k (_cache self)) /\
  (hits self', misses self', sets self', evictions self')
  = (hits self, misses self, sets self, evictions self) /\
  (found = false -> self' = self) /\
  (forall t, fst (fst (get clock self' key t)) = None) /\
  (forall (v : V) ttl t,
     fst (delete (fst (set clock self key v ttl t)) key) = true).
Proof.
  intro W. unfold delete, dict_mem.
  assert (Hset : forall (v : V) ttl t,
             fst (let c := fst (set clock self key v ttl t) in
                  if match dict_get key (_cache c) with
                     | Some _ => true
                     | None => false
                     end
                  then (true, with_cache c (dict_del key (_cache c)))
                  else (false, c)) = true).
  { intros v ttl t. unfold set. simpl. now rewrite dict_get_set_same. }
  assert (Hmiss : forall (c : InMemoryCache V) t,
             dict_wf (_cache c) -> dict_get key (_cache c) = None ->
             fst (fst (get clock c key t)) = None).
  { intros c t Wc Gc. now apply get_absent. }
  destruct (dict_get key (_cache self)) as [e|] eqn:G; simpl.
  - split; [reflexivity|]. split; [now apply dict_get_del_same|].
    split; [intros k N; now apply dict_get_del_other|].
    split; [reflexivity|]. split; [discriminate|].
    split; [|exact Hset].
    intro t. apply Hmiss; simpl.
    + now apply dict_wf_del.
    + now apply dict_get_del_same.
  - split; [reflexivity|]. split; [exact G|].
    split; [reflexivity|]. split; [reflexivity|]. split; [reflexivity|].
    split; [|exact Hset].
    intro t. now apply Hmiss.
Qed.

(** X7.  [get_stats] on counters that are not negative: [hit_rate] lies
    between 0 and 1, it is [hits] divided by [total_requests] once there
    has been a request and 0 before the first one, and
    [total_requests] is [hits + misses]. *)
Theorem hit_rate_bounds self :
  0 <= hits self -> 0 <= misses self ->
  let st := get_stats self in
  (0 <= hit_rate st)%Q /\ (hit_rate st <= 1)%Q /\
  total_requests st = hits self + misses self /\
  (0 < total_requests st ->
   (hit_rate st * inject_Z (total_requests st) == inject_Z (hits self))%Q) /\
  (total_requests st = 0 -> (hit_rate st == 0)%Q).
Proof.
  intros Hh Hm st. subst st. unfold get_stats. simpl.
  set (total := hits self + misses self).
  assert (Hpos : (0 < inject_Z (Z.max total 1))%Q).
  { change 0%Q with (inject_Z 0). rewrite <- Zlt_Qlt. lia. }
  repeat split.
  - apply Qle_shift_div_l; [exact Hpos|]. rewrite Qmult_0_l.
    change 0%Q with (inject_Z 0). rewrite <- Zle_Qle. exact Hh.
  - apply Qle_shift_div_r; [exact Hpos|]. rewrite Qmult_1_l.
    rewrite <- Zle_Qle. subst total. lia.
  - intro Ht. replace (Z.max total 1) with total by lia.
    field. intro H0. apply (Qlt_irrefl 0).
    rewrite <- H0 at 2. change 0%Q with (inject_Z 0). rewrite <- Zlt_Qlt.
    exact Ht.
  - intro Ht. assert (hits self = 0) as -> by (subst total; lia).
    unfold Qdiv. apply Qmult_0_l.
Qed.

Lemma dict_set_length key (e : Entry V) d :
  (List.length (dict_set key e d) <= S (List.length d))%nat.
Proof.
  induction d as [|[k0 e0] d IH]; simpl; [lia|].
  destruct (String.eqb key k0); simpl; lia.
Qed.

Lemma dict_del_shorter key d :
  (List.length (dict_del key d) <= List.length d)%nat.
Proof.
  induction d as [|[k0 e0] d IH]; simpl; [lia|].
  destruct (String.eqb key k0); simpl; lia.
Qed.

(** X8.  Whatever sequence of [get], [set], [delete] and [clear] a cache
    has gone through since [__init__], its keys are pairwise distinct, its
    default TTL is the constructor's, its counters are not negative, and
    the live entries plus the evictions never exceed [sets]. *)
Theorem reachable_keeps_invariants ttl self :
  reachable clock ttl self ->
  dict_wf (_cache self) /\
  default_ttl_seconds self = ttl /\
  0 <= hits self /\ 0 <= misses self /\ 0 <= evictions self /\
  Z.of_nat (List.length (_cache self)) + evictions self <= sets self.
Proof.
  induction 1 as [|self key t R IH|self key v ttl' t R IH|self key R IH
                  |self R IH].
  - simpl. repeat split; try lia. constructor.
  - destruct IH as (W & D & Hh & Hm & He & Hs).
    pose proof (@cleanup_wf V clock self t W) as W1.
    destruct (cleanup_accounting self t W) as (A1 & A2 & A3 & A4 & A5 & A6).
    cbv zeta in A1, A2, A3, A4, A5, A6.
    unfold get.
    destruct (_cleanup_expired clock self t) as [self1 t1]. simpl in *.
    destruct (dict_get key (_cache self1)) as [entry|].
    + unfold _is_expired, time_time. simpl.
      destruct (Py.gt (clock t1) (expires_at entry)); simpl;
        repeat split; try assumption; try congruence; try lia.
    + simpl. repeat split; try assumption; try congruence; try lia.
  - destruct IH as (W & D & Hh & Hm & He & Hs).
    unfold set. simpl. repeat split; try assumption.
    + now apply dict_wf_set.
    + pose proof (dict_set_length key
                    (mkEntry v (clock t + inject_Z (Py.or_int ttl'
                                  (default_ttl_seconds self)))%Q
                             (clock (S t)))
                    (_cache self)). lia.
  - destruct IH as (W & D & Hh & Hm & He & Hs).
    unfold delete. destruct (dict_mem key (_cache self)); simpl;
      repeat split; try assumption.
    + now apply dict_wf_del.
    + pose proof (dict_del_shorter key (_cache self)). lia.
  - destruct IH as (W & D & Hh & Hm & He & Hs).
    unfold clear. simpl. repeat split; try assumption; try lia.
    constructor.
Qed.

(** [get] right after [set]: what it returns is decided by the latest
    reading of a monotone clock when it finishes. *)
Lemma get_after_set self key (v : V) ttl t :
  dict_wf (_cache self) ->
  (forall i j, (i <= j)%nat -> (clock i <= clock j)%Q) ->
  let expires :=
    (clock t + inject_Z (Py.or_int ttl (default_ttl_seconds self)))%Q in
  let '(result, _, t2) :=
    get clock (fst (set clock self key v ttl t)) key (S (S t)) in
  result = (if Qle_bool (clock (pred t2)) expires then Some v else None).
Proof.
  intros W mono expires. unfold set. simpl.
  set (ent := mkEntry v _ _).
  set (self1 := mkCache _ _ _ _ _ _).
  assert (W1 : dict_wf (_cache self1)) by (simpl; now apply dict_wf_set).
  assert (G1 : dict_get key (_cache self1) = Some ent)
    by (simpl; apply dict_get_set_same).
  unfold get.
  pose proof (@cleanup_get V clock key self1 (S (S t)) W1) as G3.
  pose proof (@cleanup_ticks V clock self1 (S (S t))) as T3.
  destruct (_cleanup_expired clock self1 (S (S t))) as [self3 t3] eqn:Ec.
  cbn [fst snd] in G3, T3.
  destruct (dict_get key (_cache self3)) as [entry|] eqn:Eg.
  - destruct G3 as [G|G]; [discriminate|].
    rewrite G1 in G. injection G as ->.
    unfold _is_expired, time_time. simpl. fold expires.
    unfold Py.gt.
    destruct (Qle_bool (clock t3) expires) eqn:Q; simpl; rewrite Q;
      reflexivity.
  - destruct (Qle_bool (clock (pred t3)) expires) eqn:Q; [|reflexivity].
    exfalso. apply Qle_bool_iff in Q.
    pose proof (@cleanup_keeps V clock key ent self1 (S (S t)) W1 G1) as K3.
    rewrite Ec in K3. cbn [fst snd] in K3.
    rewrite K3 in Eg; [discriminate|].
    intros i Hi. eapply Qle_trans; [|exact Q]. apply mono. lia.
Qed.

End Sweep.

Section SmartCache.

Variable V : Type.
Variable clock : nat -> Q.
Variable md5_hexdigest : string -> string.

(** X10.  The player accessors give a 30-minute cache.  With the
    constructor's TTL of 1800 seconds and [now] the latest reading of a
    monotone clock when [get_player] finishes, [get_player] after
    [set_player] on the same id returns the data when [now] is at most the
    [set] reading plus 1800, and nothing when it is later; [set_player]
    leaves the other four namespaces as they were. *)
Theorem player_round_trip (self : SmartCache V) (player_id : Z) (data : V)
    (t : nat) :
  dict_wf (_cache (player_cache self)) ->
  default_ttl_seconds (player_cache self) = 1800 ->
  (forall i j, (i <= j)%nat -> (clock i <= clock j)%Q) ->
  let '(self1, t1) := set_player clock md5_hexdigest self player_id data t in
  let '(result, _, t2) :=
    get_player clock md5_hexdigest self1 player_id t1 in
  result
  = (if Qle_bool (clock (pred t2)) (clock t + 1800)%Q then Some data
     else None) /\
  stats_cache self1 = stats_cache self /\
  market_cache self1 = market_cache self /\
  league_cache self1 = league_cache self /\
  search_cache self1 = search_cache self.
Proof.
  intros W D mono.
  set (key := _make_key md5_hexdigest "player" [ArgInt player_id]).
  pose proof (@get_after_set V clock (player_cache self) key data None t W
                mono) as H.
  cbv zeta in H. simpl Py.or_int in H. rewrite D in H.
  change (inject_Z 1800) with 1800%Q in H.
  unfold set_player, get_player. fold key.
  unfold set in *. simpl in *.
  match goal with
  | H : context [get clock ?c key (S (S t))] |- _ =>
      destruct (get clock c key (S (S t))) as [[r c'] t'] eqn:Eg
  end.
  simpl in *. repeat split. exact H.
Qed.

Lemma append_assoc (a b c : string) : ((a ++ b) ++ c = a ++ (b ++ c))%string.
Proof. induction a as [|ch a IH]; simpl; [reflexivity|]. now rewrite IH. Qed.

(** The market key only sees the two arguments joined by a colon. *)
Lemma market_key_join (p q l : string) :
  _make_key md5_hexdigest "market" [ArgStr (p ++ ":" ++ q); ArgStr l]
  = _make_key md5_hexdigest "market" [ArgStr p; ArgStr (q ++ ":" ++ l)].
Proof.
  unfold _make_key. f_equal. f_equal. f_equal. simpl.
  now rewrite !append_assoc.
Qed.

Lemma append_longer (p q : string) : (p ++ ":" ++ q)%string <> p.
Proof.
  induction p as [|ch p IH]; simpl; [discriminate|].
  intros [= E]. exact (IH E).
Qed.

(** X11.  The key scheme joins its arguments with colons without escaping
    them, so the two different (position, league) pairs ([p:q], [l]) and
    ([p], [q:l]) share a key whatever the digest, and market data stored
    for the first is what a lookup of the second returns while the
    market TTL has not passed ([now] being the latest reading of a
    monotone clock when the lookup finishes). *)
Theorem market_keys_collide (self : SmartCache V) (p q l : string) (data : V)
    (t : nat) :
  dict_wf (_cache (market_cache self)) ->
  (forall i j, (i <= j)%nat -> (clock i <= clock j)%Q) ->
  (p ++ ":" ++ q)%string <> p /\
  _make_key md5_hexdigest "market" [ArgStr (p ++ ":" ++ q); ArgStr l]
  = _make_key md5_hexdigest "market" [ArgStr p; ArgStr (q ++ ":" ++ l)] /\
  let expires :=
    (clock t + inject_Z (default_ttl_seconds (market_cache self)))%Q in
  let '(self1, t1) :=
    set_market_data clock md5_hexdigest self (p ++ ":" ++ q) l data t in
  let '(result, _, t2) :=
    get_market_data clock md5_hexdigest self1 p (q ++ ":" ++ l) t1 in
  result = (if Qle_bool (clock (pred t2)) expires then Some data else None).
Proof.
  intros W mono.
  split; [apply append_longer|]. split; [apply market_key_join|].
  unfold set_market_data, get_market_data. rewrite market_key_join.
  set (key := _make_key md5_hexdigest "market"
                [ArgStr p; ArgStr (q ++ ":" ++ l)]).
  pose proof (@get_after_set V clock (market_cache self) key data None t W
                mono) as H.
  cbv zeta in H. simpl Py.or_int in H.
  unfold set in *. simpl in *.
  match goal with
  | H : context [get clock ?c key (S (S t))] |- _ =>
      destruct (get clock c key (S (S t))) as [[r c'] t'] eqn:Eg
  end.
  simpl in *. exact H.
Qed.

Lemma str_int_inj x y : Py.str_int x = Py.str_int y -> x = y.
Proof.
  unfold Py.str_int. intro H.
  assert (Hn : forall z, Z.to_int z <> Decimal.Pos Decimal.Nil /\
                         Z.to_int z <> Decimal.Neg Decimal.Nil).
  { intros [|p|p]; simpl; split; try discriminate;
      intros [= E]; exact (Unsigned.to_uint_nonnil p E). }
  assert (E : Some (Z.to_int x) = Some (Z.to_int y)).
  { rewrite <- (NilZero.isi (Z.to_int x) (proj1 (Hn x)) (proj2 (Hn x))).
    rewrite <- (NilZero.isi (Z.to_int y) (proj1 (Hn y)) (proj2 (Hn y))).
    now rewrite H. }
  injection E as E. rewrite <- (DecimalZ.of_to x), <- (DecimalZ.of_to y).
  now rewrite E.
Qed.

(** X12.  Player keys are as good as the digest: [_make_key] hands the
    digest the text ["player:" ++ str(id)], and two different ids give
    two different texts, so only a collision of the digest itself can make
    two players share a key. *)
Theorem player_key_injective (x y : Z) :
  x <> y ->
  ("player:" ++ Py.str_int x)%string <> ("player:" ++ Py.str_int y)%string /\
  _make_key md5_hexdigest "player" [ArgInt x]
  = md5_hexdigest ("player:" ++ Py.str_int x) /\
  _make_key md5_hexdigest "player" [ArgInt y]
  = md5_hexdigest ("player:" ++ Py.str_int y).
Proof.
  intro N. split; [|split; reflexivity].
  intro E. apply N. apply str_int_inj.
  simpl in E. now injection E.
Qed.

(** X13.  The other four namespaces round-trip like the player one, each
    with the default TTL of its own cache: season statistics, market
    data, the league list (under the fixed key ["leagues_all"]) and
    search results stored by their setter at the reading [clock t] are
    what the matching getter returns when the latest reading of a monotone
    clock at the end of the lookup is at most [clock t] plus that TTL, and
    nothing when it is later. *)
Theorem namespaces_round_trip (self : SmartCache V) (player_id : Z)
    (season position league query_hash : string) (data : V) (t : nat) :
  dict_wf (_cache (stats_cache self)) ->
  dict_wf (_cache (market_cache self)) ->
  dict_wf (_cache (league_cache self)) ->
  dict_wf (_cache (search_cache self)) ->
  (forall i j, (i <= j)%nat -> (clock i <= clock j)%Q) ->
  let answer (ttl : Z) (t2 : nat) :=
    if Qle_bool (clock (pred t2)) (clock t + inject_Z ttl)%Q then Some data
    else None in
  (let '(self1, t1) :=
     set_player_stats clock md5_hexdigest self player_id season data t in
   let '(result, _, t2) :=
     get_player_stats clock md5_hexdigest self1 player_id season t1 in
   result = answer (default_ttl_seconds (stats_cache self)) t2) /\
  (let '(self1, t1) :=
     set_market_data clock md5_hexdigest self position league data t in
   let '(result, _, t2) :=
     get_market_data clock md5_hexdigest self1 position league t1 in
   result = answer (default_ttl_seconds (market_cache self)) t2) /\
  (let '(self1, t1) := set_leagues clock self data t in
   let '(result, _, t2) := get_leagues clock self1 t1 in
   result = answer (default_ttl_seconds (league_cache self)) t2) /\
  (let '(self1, t1) :=
     set_search_results clock md5_hexdigest self query_hash data t in
   let '(result, _, t2) :=
     get_search_results clock md5_hexdigest self1 query_hash t1 in
   result = answer (default_ttl_seconds (search_cache self)) t2).
Proof.
  intros W1 W2 W3 W4 mono answer. subst answer. cbv beta.
  split; [|split; [|split]].
  - pose proof (@get_after_set V clock (stats_cache self)
                  (_make_key md5_hexdigest "stats"
                     [ArgInt player_id; ArgStr season]) data None t W1 mono)
      as H.
    unfold set_player_stats, get_player_stats. unfold set in *. simpl in *.
    destruct (get clock _ _ (S (S t))) as [[r c'] t1]. exact H.
  - pose proof (@get_after_set V clock (market_cache self)
                  (_make_key md5_hexdigest "market"
                     [ArgStr position; ArgStr league]) data None t W2 mono)
      as H.
    unfold set_market_data, get_market_data. unfold set in *. simpl in *.
    destruct (get clock _ _ (S (S t))) as [[r c'] t1]. exact H.
  - pose proof (@get_after_set V clock (league_cache self)
                  "leagues_all" data None t W3 mono) as H.
    unfold set_leagues, get_leagues. unfold set in *. simpl in *.
    destruct (get clock _ _ (S (S t))) as [[r c'] t1]. exact H.
  - pose proof (@get_after_set V clock (search_cache self)
                  (_make_key md5_hexdigest "search" [ArgStr query_hash])
                  data None t W4 mono) as H.
    unfold set_search_results, get_search_results. unfold set in *.
    simpl in *.
    destruct (get clock _ _ (S (S t))) as [[r c'] t1]. exact H.
Qed.

(** X14.  [get_all_stats] keeps the namespaces apart: a [get_player]
    shows up in the player entry only, as one more request there (a hit
    if it returned data, a miss if not), while the entries of the other
    four caches are the same as before. *)
Theorem lookup_counted_in_own_namespace (self : SmartCache V)
    (player_id : Z) (t : nat) :
  let '(r, self1, _) := get_player clock md5_hexdigest self player_id t in
  let '(p, st, m, l, q) := get_all_stats self in
  let '(p1, st1, m1, l1, q1) := get_all_stats self1 in
  total_requests p1 = total_requests p + 1 /\
  stat_hits p1 = stat_hits p + match r with Some _ => 1 | None => 0 end /\
  stat_misses p1 = stat_misses p + match r with Some _ => 0 | None => 1 end
  /\ stat_sets p1 = stat_sets p /\
  (st1, m1, l1, q1) = (st, m, l, q).
Proof.
  unfold get_player, get_all_stats.
  pose proof (@get_counters V clock (player_cache self)
                (_make_key md5_hexdigest "player" [ArgInt player_id]) t) as H.
  destruct (get clock (player_cache self) _ t) as [[r pc] t1].
  destruct H as (Hh & Hm & Hs & _ & _).
  unfold get_stats. simpl.
  rewrite Hh, Hm, Hs. destruct r as [v|]; repeat split; lia.
Qed.

Lemma uint_no_colon (u : Decimal.uint) :
  ~ In ":"%char (list_ascii_of_string (NilEmpty.string_of_uint u)).
Proof.
  induction u; simpl; try tauto; (intros [H|H]; [discriminate|tauto]).
Qed.

(** [str(n)] of an [int] has digits and a sign only. *)
Lemma str_int_no_colon n :
  ~ In ":"%char (list_ascii_of_string (Py.str_int n)).
Proof.
  unfold Py.str_int, NilZero.string_of_int, NilZero.string_of_uint.
  destruct (Z.to_int n) as [u|u].
  - destruct u; try apply uint_no_colon.
    simpl. intros [H|H]; [discriminate|tauto].
  - simpl. intros [H|H]; [discriminate|].
    destruct u; try (revert H; apply uint_no_colon).
    simpl in H. destruct H as [H|H]; [discriminate|tauto].
Qed.

(** Two texts without a colon are cut off at the first colon. *)
Lemma split_at_colon (a : string) :
  forall (b s1 s2 : string),
    ~ In ":"%char (list_ascii_of_string a) ->
    ~ In ":"%char (list_ascii_of_string b) ->
    (a ++ ":" ++ s1 = b ++ ":" ++ s2)%string ->
    a = b /\ s1 = s2.
Proof.
  induction a as [|ch a IH]; intros [|ch' b] s1 s2 Na Nb E; simpl in *.
  - injection E as E. auto.
  - injection E as E1 E2. subst ch'. tauto.
  - injection E as E1 E2. subst ch. tauto.
  - injection E as E1 E2. subst ch'.
    destruct (IH b s1 s2) as (-> & ->); tauto.
Qed.

(** X15.  Statistics keys are as good as the digest, seasons with colons
    included: [_make_key] hands the digest the text
    ["stats:" ++ str(id) ++ ":" ++ season]; the player id is an [int],
    whose text has no colon, so two different (player id, season) pairs
    give two different texts, and only a collision of the digest itself
    can make them share a key. *)
Theorem stats_key_injective (x y : Z) (s1 s2 : string) :
  (x, s1) <> (y, s2) ->
  ("stats:" ++ Py.str_int x ++ ":" ++ s1)%string
  <> ("stats:" ++ Py.str_int y ++ ":" ++ s2)%string /\
  _make_key md5_hexdigest "stats" [ArgInt x; ArgStr s1]
  = md5_hexdigest ("stats:" ++ Py.str_int x ++ ":" ++ s1) /\
  _make_key md5_hexdigest "stats" [ArgInt y; ArgStr s2]
  = md5_hexdigest ("stats:" ++ Py.str_int y ++ ":" ++ s2).
Proof.
  intro N. split; [|split; reflexivity].
  intro E. apply N. simpl in E. injection E as E.
  destruct (@split_at_colon (Py.str_int x) (Py.str_int y) s1 s2
              (str_int_no_colon x) (str_int_no_colon y) E) as (Ex & Es).
  apply str_int_inj in Ex. now subst.
Qed.

End SmartCache.

(** ** Concrete runs *)

Import Sample.

Lemma two_entries_wf : dict_wf (_cache two_entries).
Proof.
  unfold dict_wf. simpl.
  constructor; [intros [H|[]]; discriminate|].
  constructor; [intros []|constructor].
Qed.

Lemma two_entries_reachable : reachable tick_clock 1800 two_entries.
Proof. unfold two_entries. apply reach_set, reach_set, reach_init. Qed.

Lemma stride_clock_mono step i j :
  0 <= step -> (i <= j)%nat -> (stride_clock step i <= stride_clock step j)%Q.
Proof. intros Hs H. unfold stride_clock. rewrite <- Zle_Qle. nia. Qed.

Lemma sweep_is_one_pass_witness :
  keys (_cache (fst (_cleanup_expired tick_clock two_entries 4))) = ["b"].
Proof.
  rewrite (@sweep_is_one_pass nat tick_clock two_entries 4 two_entries_wf).
  reflexivity.
Defined.

Lemma sweep_counts_evictions_witness :
  let self' := fst (_cleanup_expired tick_clock two_entries 4) in
  evictions self' - evictions two_entries
  = Z.of_nat (List.length (_cache two_entries))
    - Z.of_nat (List.length (_cache self')) /\
  hits self' = hits two_entries /\ misses self' = misses two_entries /\
  sets self' = sets two_entries.
Proof.
  exact (@sweep_counts_evictions nat tick_clock two_entries 4 two_entries_wf).
Defined.

Lemma get_returns_only_live_entries_witness :
  let '(result, self', t') := get tick_clock two_entries "b" 4 in
  (forall v,
     result = Some v ->
     exists e,
       dict_get "b" (_cache two_entries) = Some e /\ value e = v /\
       (tick_clock (pred t') <= expires_at e)%Q /\
       dict_get "b" (_cache self') = Some e) /\
  (dict_get "b" (_cache two_entries) = None -> result = None).
Proof.
  exact (@get_returns_only_live_entries nat tick_clock two_entries "b" 4
           two_entries_wf).
Defined.

Lemma delete_removes_key_witness :
  let '(found, self') := delete two_entries "a" in
  found = dict_mem "a" (_cache two_entries) /\
  dict_get "a" (_cache self') = None /\
  (forall k, k <> "a" ->
     dict_get k (_cache self') = dict_get k (_cache two_entries)) /\
  (hits self', misses self', sets self', evictions self')
  = (hits two_entries, misses two_entries, sets two_entries,
     evictions two_entries) /\
  (found = false -> self' = two_entries) /\
  (forall t, fst (fst (get tick_clock self' "a" t)) = None) /\
  (forall (v : nat) ttl t,
     fst (delete (fst (set tick_clock two_entries "a" v ttl t)) "a") = true).
Proof.
  exact (@delete_removes_key nat tick_clock two_entries "a" two_entries_wf).
Defined.

Lemma hit_rate_bounds_witness :
  let st := get_stats (snd (fst (get tick_clock two_entries "b" 4))) in
  (0 <= hit_rate st)%Q /\ (hit_rate st <= 1)%Q /\
  total_requests st = 1.
Proof.
  destruct (@hit_rate_bounds nat (snd (fst (get tick_clock two_entries "b" 4))))
    as (H0 & H1 & H2 & _).
  - vm_compute. discriminate.
  - vm_compute. discriminate.
  - split; [exact H0|]. split; [exact H1|exact H2].
Defined.

Lemma reachable_keeps_invariants_witness :
  dict_wf (_cache two_entries) /\
  default_ttl_seconds two_entries = 1800 /\
  0 <= hits two_entries /\ 0 <= misses two_entries /\
  0 <= evictions two_entries /\
  Z.of_nat (List.length (_cache two_entries)) + evictions two_entries
  <= sets two_entries.
Proof.
  exact (@reachable_keeps_invariants nat tick_clock 1800 two_entries
           two_entries_reachable).
Defined.

(** One second per reading: the lookup finishes at reading 3 and returns
    the data.  A thousand seconds per reading: the sweep of the lookup
    reads 2000, past the expiry of 1800, and the data are gone. *)
Lemma player_round_trip_witness :
  (let '(self1, t1) :=
     set_player tick_clock plain_digest (smart_init nat) 7 1%nat 0 in
   fst (fst (get_player tick_clock plain_digest self1 7 t1)) = Some 1%nat) /\
  (let '(self1, t1) :=
     set_player (stride_clock 1000) plain_digest (smart_init nat) 7 1%nat 0 in
   fst (fst (get_player (stride_clock 1000) plain_digest self1 7 t1))
   = None).
Proof.
  split.
  - pose proof (@player_round_trip nat tick_clock plain_digest
                  (smart_init nat) 7 1%nat 0%nat (NoDup_nil _) eq_refl
                  CacheClaims.tick_clock_mono) as H.
    vm_compute in H. vm_compute. exact (proj1 H).
  - pose proof (@player_round_trip nat (stride_clock 1000) plain_digest
                  (smart_init nat) 7 1%nat 0%nat (NoDup_nil _) eq_refl
                  (fun i j => @stride_clock_mono 1000 i j ltac:(lia))) as H.
    vm_compute in H. vm_compute. exact (proj1 H).
Defined.

Lemma market_keys_collide_witness :
  ("ST" ++ ":" ++ "x", "y") <> ("ST", "x" ++ ":" ++ "y") /\
  (let '(self1, t1) :=
     set_market_data tick_clock plain_digest (smart_init nat)
       ("ST" ++ ":" ++ "x") "y" 1%nat 0 in
   fst (fst (get_market_data tick_clock plain_digest self1 "ST"
               ("x" ++ ":" ++ "y") t1))
   = Some 1%nat).
Proof.
  pose proof (@market_keys_collide nat tick_clock plain_digest
                (smart_init nat) "ST" "x" "y" 1%nat 0%nat (NoDup_nil _)
                CacheClaims.tick_clock_mono) as H.
  split; [intros [= E _]; exact (proj1 H E)|].
  destruct H as (_ & _ & H).
  vm_compute in H. vm_compute. exact H.
Defined.

Lemma player_key_injective_witness :
  "player:7" <> "player:8" /\
  _make_key plain_digest "player" [ArgInt 7] = plain_digest "player:7" /\
  _make_key plain_digest "player" [ArgInt 8] = plain_digest "player:8".
Proof.
  exact (@player_key_injective plain_digest 7 8 ltac:(discriminate)).
Defined.

(** The league list, kept for a day, is still there after two hours; the
    search results, kept for fifteen minutes, are gone. *)
Lemma namespaces_round_trip_witness :
  (let '(self1, t1) :=
     set_leagues (stride_clock 3600) (smart_init nat) 1%nat 0 in
   fst (fst (get_leagues (stride_clock 3600) self1 t1)) = Some 1%nat) /\
  (let '(self1, t1) :=
     set_search_results (stride_clock 3600) plain_digest (smart_init nat)
       "q" 1%nat 0 in
   fst (fst (get_search_results (stride_clock 3600) plain_digest self1 "q"
               t1))
   = None).
Proof.
  pose proof (@namespaces_round_trip nat (stride_clock 3600) plain_digest
                (smart_init nat) 7 "2023" "ST" "x" "q" 1%nat 0%nat
                (NoDup_nil _) (NoDup_nil _) (NoDup_nil _) (NoDup_nil _)
                (fun i j => @stride_clock_mono 3600 i j ltac:(lia)))
    as (_ & _ & Hl & Hs).
  vm_compute in Hl, Hs. vm_compute. split; [exact Hl|exact Hs].
Defined.

Lemma stats_key_injective_witness :
  "stats:7:2023" <> "stats:7:2023:24" /\
  _make_key plain_digest "stats" [ArgInt 7; ArgStr "2023"]
  = plain_digest "stats:7:2023" /\
  _make_key plain_digest "stats" [ArgInt 7; ArgStr "2023:24"]
  = plain_digest "stats:7:2023:24".
Proof.
  exact (@stats_key_injective plain_digest 7 7 "2023" "2023:24"
           ltac:(discriminate)).
Defined.

End CacheExtras.

(* ===================================================================== *)
(** * The resilient client: further properties                             *)
(* ===================================================================== *)

Module HttpExtras.

Import Http HttpFacts.

Local Open Scope py_scope.

#[local] Arguments on_exception : simpl never.
#[local] Arguments _sleep_with_backoff : simpl never.
#[local] Arguments _record_failure : simpl never.
#[local] Arguments _record_success : simpl never.
#[local] Arguments exponential_backoff : simpl never.
#[local] Arguments failed : simpl never.

(** Case analysis on the integer comparisons of the goal. *)
Ltac zsplit :=
  repeat match goal with
    | |- context [Z.leb ?a ?b] => destruct (Z.leb_spec a b); try lia
    | |- context [Z.ltb ?a ?b] => destruct (Z.ltb_spec a b); try lia
    | |- context [Z.eqb ?a ?b] => destruct (Z.eqb_spec a b); try lia
    end.

Section Outcomes.

Variable clock : nat -> Q.
Variable upstream : nat -> NetResult.
Variable random : nat -> Q.
Variable parse_float : string -> option PyFloat.

(** An attempt answered by a 2xx records the success and returns the
    response, whatever its index. *)
Lemma attempt_once_success attempt s r :
  upstream (requests (world s)) = NetResponse r ->
  is_success (status_code r) = true ->
  attempt_once clock upstream random parse_float attempt s
  = (Return r,
     mkSt (set_circuit_open false (set_consecutive_failures 0 (self s)))
          (requested (world s)) (last_exc s)).
Proof.
  intros Eu Hc.
  unfold attempt_once, try_except, try_body, session_get.
  unfold bind at 1. rewrite Eu.
  unfold is_success in Hc. unfold bind at 1. unfold attr at 1.
  cbn [self world last_exc]. unfold bind at 1. rewrite Hc.
  unfold when at 1. unfold bind at 1. rewrite record_success_eq.
  reflexivity.
Qed.

(** An attempt answered by a status outside 200..299 and 400..599 returns
    the response as it is: neither a success nor a failure is recorded. *)
Lemma attempt_once_passthrough attempt s r :
  upstream (requests (world s)) = NetResponse r ->
  is_success (status_code r) = false ->
  is_error_status (status_code r) = false ->
  attempt_once clock upstream random parse_float attempt s
  = (Return r, mkSt (self s) (requested (world s)) (last_exc s)).
Proof.
  intros Eu Hs He.
  unfold attempt_once, try_except, try_body, session_get.
  unfold bind at 1. rewrite Eu.
  unfold is_success in Hs. unfold is_error_status in He.
  unfold raise_for_status. rewrite He.
  apply andb_false_iff in Hs. apply andb_false_iff in He.
  set (code := status_code r) in *.
  assert (Hout : code < 200 \/ (300 <= code < 400) \/ 600 <= code).
  { destruct Hs as [Hs|Hs]; destruct He as [He|He];
      try apply Z.leb_gt in Hs; try apply Z.ltb_ge in Hs;
      try apply Z.leb_gt in He; try apply Z.ltb_ge in He; lia. }
  zsplit; plumb; simpl; reflexivity.
Qed.

(** The last attempt ended by an exception of [session.get]: one failure
    is recorded and the exception is re-raised. *)
Lemma attempt_once_last_network attempt s e :
  max_retries (self s) <= attempt ->
  raised_by (upstream (requests (world s))) = Some e ->
  attempt_once clock upstream random parse_float attempt s
  = (Raise e,
     mkSt (failed (clock (ticks (world s))) (self s))
          (ticked (requested (world s))) (Some e)).
Proof.
  intros Ha Hr.
  unfold attempt_once, try_except, try_body, session_get.
  unfold bind at 1.
  destruct (upstream (requests (world s))) as [r| | |]; simpl in Hr;
    try discriminate; injection Hr as <-; simpl;
    (rewrite on_exception_last; [reflexivity|exact Ha]).
Qed.

Lemma range_split (m : Z) (k : nat) :
  Z.of_nat k <= m ->
  Py.range (m + 1)
  = (map Z.of_nat (seq 0 k)
     ++ Z.of_nat k :: map Z.of_nat (seq (S k) (Z.to_nat m - k)))%list.
Proof.
  intro H. unfold Py.range.
  replace (Z.to_nat (m + 1)) with (k + S (Z.to_nat m - k))%nat by lia.
  rewrite seq_app, map_app. reflexivity.
Qed.

(** When the first [k] attempts are retried, the call reaches attempt
    [k], and a [return] or an exception that leaves that attempt leaves
    [get_attempts]. *)
Lemma get_attempts_reach s (k : nat) :
  Z.of_nat k <= max_retries (self s) -> Z.of_nat k <= 1024 ->
  sane (self s) -> unit_draws random ->
  (forall i, (i < k)%nat ->
     retried parse_float (backoff_cap_seconds (self s))
       (upstream (requests (world s) + i)) = true) ->
  exists s1,
    Advance k (failures_before upstream (requests (world s)) k)
            (entered s) s1 /\
    (forall r s2,
       attempt_once clock upstream random parse_float (Z.of_nat k) s1
       = (Return r, s2) ->
       get_attempts clock upstream random parse_float s = (Return r, s2)) /\
    (forall e s2,
       attempt_once clock upstream random parse_float (Z.of_nat k) s1
       = (Raise e, s2) ->
       get_attempts clock upstream random parse_float s = (Raise e, s2)).
Proof.
  intros Hm Hk Hs Hr Hu.
  set (body := attempt_once clock upstream random parse_float).
  set (tail := (_record_failure clock ;;
                exc <- read_last_exc ;;
                match exc with
                | Some e => raise e
                | None => raise RuntimeError
                end) : M unit).
  assert (E : get_attempts clock upstream random parse_float s
              = (for_each (Py.range (max_retries (self s) + 1)) body ;; tail)
                  (entered s))
    by reflexivity.
  rewrite E. rewrite (@range_split (max_retries (self s)) k Hm).
  destruct (@attempts_retried clock upstream random parse_float k 0%nat
              (Z.of_nat k
               :: map Z.of_nat
                    (seq (S k) (Z.to_nat (max_retries (self s)) - k)))
              (entered s)) as (s1 & E1 & A1);
    [simpl; lia | simpl; lia | exact Hs | exact Hr | exact Hu |].
  exists s1. split; [exact A1|].
  fold body in E1.
  split; intros x s2 Ea; unfold bind; rewrite E1; cbn [for_each];
    rewrite Ea; reflexivity.
Qed.


(** ** What every call does, whatever the upstream answers *)

Lemma touches_refl c : Touches c c.
Proof. unfold Touches. repeat split; auto; lia. Qed.

Lemma touches_trans c1 c2 c3 :
  Touches c1 c2 -> Touches c2 c3 -> Touches c1 c3.
Proof.
  intros (C1 & Q1 & E1 & R1 & B1) (C2 & Q2 & E2 & R2 & B2).
  unfold Touches.
  split; [congruence|]. split; [congruence|].
  split; [lia|]. split; [lia|]. auto.
Qed.

Lemma rate_limit_count_failed now c :
  rate_limit_count (failed now c) = rate_limit_count c.
Proof.
  unfold failed.
  destruct (circuit_breaker_threshold c <=? consecutive_failures c + 1);
    reflexivity.
Qed.

Lemma breaker_consistent_failed now c :
  breaker_consistent c -> breaker_consistent (failed now c).
Proof.
  unfold breaker_consistent, failed. intro H.
  destruct (Z.leb_spec (circuit_breaker_threshold c)
              (consecutive_failures c + 1)); simpl; intro Ho; [lia|].
  specialize (H Ho). lia.
Qed.

Lemma touches_failed now c : Touches c (failed now c).
Proof.
  destruct (failed_counts now c) as (Fe & _ & Fq & _).
  unfold Touches. rewrite config_failed, rate_limit_count_failed.
  split; [reflexivity|]. split; [exact Fq|].
  split; [lia|]. split; [lia|]. apply breaker_consistent_failed.
Qed.

Lemma touches_rate_limited c :
  Touches c (set_rate_limit_count (rate_limit_count c + 1) c).
Proof.
  unfold Touches, breaker_consistent. simpl.
  split; [reflexivity|]. split; [reflexivity|].
  split; [lia|]. split; [lia|]. auto.
Qed.

Lemma touches_succeeded c :
  Touches c (set_circuit_open false (set_consecutive_failures 0 c)).
Proof.
  unfold Touches, breaker_consistent. simpl.
  split; [reflexivity|]. split; [reflexivity|].
  split; [lia|]. split; [lia|]. discriminate.
Qed.

Lemma touches_reset c : Touches c (reset c).
Proof.
  unfold Touches, breaker_consistent, reset. simpl.
  split; [reflexivity|]. split; [reflexivity|].
  split; [lia|]. split; [lia|]. discriminate.
Qed.

Lemma sleep_ok_config c c' d :
  config c' = config c -> sleep_ok random c d -> sleep_ok random c' d.
Proof.
  unfold config, sleep_ok. intros E H.
  injection E as _ _ -> -> _ _. exact H.
Qed.

Lemma effect_refl s : Effect random 0 0 s s.
Proof.
  split; [apply touches_refl|]. split; [lia|].
  exists []. split; [reflexivity|]. split; [simpl; lia|constructor].
Qed.

Lemma effect_trans a1 r1 a2 r2 s s1 s2 :
  Effect random a1 r1 s s1 -> Effect random a2 r2 s1 s2 ->
  Effect random (a1 + a2) (r1 + r2) s s2.
Proof.
  intros (T1 & Q1 & n1 & S1 & L1 & F1) (T2 & Q2 & n2 & S2 & L2 & F2).
  split; [exact (touches_trans T1 T2)|]. split; [lia|].
  exists (n2 ++ n1)%list.
  split; [rewrite S2, S1; apply app_assoc|].
  split; [rewrite length_app; lia|].
  apply Forall_app. split; [|exact F1].
  eapply Forall_impl; [|exact F2].
  intros d Hd. apply (@sleep_ok_config (self s1) (self s) d); [|exact Hd].
  destruct T1 as (C1 & _). congruence.
Qed.

Lemma effect_weaken a r a' r' s s' :
  (a <= a')%nat -> (r <= r')%nat ->
  Effect random a r s s' -> Effect random a' r' s s'.
Proof.
  intros Ha Hr (T & Q & n & S & L & F).
  split; [exact T|]. split; [lia|].
  exists n. split; [exact S|]. split; [lia|exact F].
Qed.

(** An [Effect] from its parts: the client, the network calls, and at most
    one new sleep. *)
Lemma effect_intro a r s c' w' le :
  Touches (self s) c' ->
  (requests (world s) <= requests w' <= requests (world s) + a)%nat ->
  (sleeps w' = sleeps (world s) \/
   exists d, sleeps w' = d :: sleeps (world s) /\
             sleep_ok random (self s) d /\ (1 <= r)%nat) ->
  Effect random a r s (mkSt c' w' le).
Proof.
  intros T Q S. split; [exact T|]. split; [exact Q|]. simpl.
  destruct S as [S|(d & S & Ok & Hr)].
  - exists []. split; [exact S|]. split; [simpl; lia|constructor].
  - exists [d]. split; [exact S|]. split; [simpl; lia|].
    constructor; [exact Ok|constructor].
Qed.

(** [_sleep_with_backoff] on any input: it ends normally, in the
    [ValueError] of a negative [time.sleep] or in an [OverflowError],
    leaves the client alone, and sleeps at most once, for a duration within
    the bounds. *)
Lemma sleep_with_backoff_effect attempt_index hdr s :
  exists o w',
    _sleep_with_backoff random parse_float attempt_index hdr s
    = (o, mkSt (self s) w' (last_exc s)) /\
    (o = Normal tt \/ o = Raise ValueError \/ o = Raise OverflowError) /\
    requests w' = requests (world s) /\
    (sleeps w' = sleeps (world s) \/
     exists d, sleeps w' = d :: sleeps (world s) /\
               sleep_ok random (self s) d).
Proof.
  rewrite sleep_with_backoff_eq.
  destruct (hint_outcome parse_float (backoff_cap_seconds (self s)) hdr)
    as [d| |] eqn:Eh.
  - exists (Normal tt), (slept d (world s)).
    split; [reflexivity|]. split; [now left|]. split; [reflexivity|].
    right. exists d. split; [reflexivity|].
    destruct (@hint_outcome_sleep parse_float _ _ _ Eh) as (H0 & Hc & _).
    split; [exact H0|].
    intros Hb _. eapply Qle_trans; [exact Hc|].
    rewrite <- (Qplus_0_r (backoff_cap_seconds (self s))) at 1.
    apply Qplus_le_compat; [apply Qle_refl|exact Hb].
  - rewrite exponential_backoff_eq.
    destruct (1024 <=? attempt_index).
    { exists (Raise OverflowError), (world s). destruct s as [c w le].
      split; [reflexivity|]. split; [now right; right|].
      split; [reflexivity|now left]. }
    cbv zeta.
    set (d := exponential_delay (self s) attempt_index
                (random (draws (world s)))).
    destruct (fits_pytime d); cbn [negb].
    2:{ eexists (Raise OverflowError), _.
        split; [reflexivity|]. split; [now right; right|].
        split; [reflexivity|now left]. }
    destruct (Py.lt d 0%Q) eqn:El.
    + eexists (Raise ValueError), _.
      split; [reflexivity|]. split; [now right; left|].
      split; [reflexivity|now left].
    + exists (Normal tt), (drawn_slept d (world s)).
      split; [reflexivity|]. split; [now left|]. split; [reflexivity|].
      right. exists d. split; [reflexivity|].
      split; [now apply PyFacts.lt_false|].
      intros Hb Hr. subst d. now apply exponential_delay_bound.
  - exists (Raise OverflowError), (world s). destruct s as [c w le].
    split; [reflexivity|]. split; [now right; right|].
    split; [reflexivity|now left].
Qed.

(** Either handler of [get] after the attempt made one network call:
    before the last attempt it sleeps once and continues, on the last one
    it records a failure and re-raises. *)
Lemma handler_after attempt exc s st :
  exc <> RuntimeError -> exc <> CircuitOpenError ->
  Effect random 1 0 s st ->
  let r := on_exception clock random parse_float attempt exc st in
  Effect random 1 (if attempt <? max_retries (self s) then 1 else 0) s (snd r)
  /\ attempt_ends upstream attempt s (fst r).
Proof.
  intros N1 N2 E r. subst r.
  assert (M : max_retries (self st) = max_retries (self s)).
  { destruct E as ((C & _) & _). unfold config in C. congruence. }
  destruct (Z.ltb_spec attempt (max_retries (self s))) as [Hlt|Hge].
  - unfold on_exception. plumb. cbn [self world last_exc].
    rewrite M. rewrite (proj2 (Z.ltb_lt _ _) Hlt).
    destruct (@sleep_with_backoff_effect attempt None
                (mkSt (self st) (world st) (Some exc)))
      as (o & w' & Es & Ho & Rq & Sl).
    rewrite Es. cbn [self world last_exc] in *.
    assert (E2 : Effect random 0 1 st (mkSt (self st) w' (Some exc))).
    { apply effect_intro; [apply touches_refl|lia|].
      destruct Sl as [Sl|(d & Sl & Ok)]; [now left|].
      right. exists d. split; [exact Sl|]. split; [exact Ok|lia]. }
    pose proof (effect_trans E E2) as E3.
    destruct Ho as [-> | [-> | ->]]; simpl; (split; [exact E3|]).
    + exact Hlt.
    + split; discriminate.
    + split; discriminate.
  - rewrite on_exception_last by lia. simpl.
    split; [|split; assumption].
    change 1%nat with (1 + 0)%nat at 1. change 0%nat with (0 + 0)%nat at 2.
    apply (effect_trans E).
    apply effect_intro; [apply touches_failed|simpl; lia|now left].
Qed.


Lemma not_error_status code :
  code < 400 \/ 600 <= code -> is_error_status code = false.
Proof.
  intro H. unfold is_error_status.
  destruct (Z.leb_spec 400 code); destruct (Z.ltb_spec code 600);
    try reflexivity; lia.
Qed.

(** Close a goal on one computed end of an attempt. *)
Ltac attempt_end Eu :=
  intros [= <- <-]; split;
  [ apply effect_intro;
    [ first [ apply touches_refl | apply touches_failed
            | apply touches_rate_limited | apply touches_succeeded ]
    | simpl; lia
    | match goal with
      | H : _ \/ _ |- _ =>
          let d := fresh "d" in
          let Ok := fresh "Ok" in
          destruct H as [H|(d & H & Ok)];
          [ now left
          | right; exists d; split; [exact H|]; split; [|lia];
            eapply sleep_ok_config; [|exact Ok]; reflexivity ]
      | _ => now left
      end ]
  | simpl;
    first [ assumption
          | split; discriminate
          | split; [exact Eu|apply not_error_status; lia] ] ].

(** One attempt on any input: one network call, at most one sleep and none
    on the last attempt, and an end allowed by [attempt_ends]. *)
Lemma attempt_once_effect attempt s :
  let r := attempt_once clock upstream random parse_float attempt s in
  Effect random 1 (if attempt <? max_retries (self s) then 1 else 0) s (snd r)
  /\ attempt_ends upstream attempt s (fst r).
Proof.
  cbv zeta.
  assert (Hh : forall exc c' w' le o s',
             exc <> RuntimeError -> exc <> CircuitOpenError ->
             Touches (self s) c' ->
             requests w' = S (requests (world s)) ->
             sleeps w' = sleeps (world s) ->
             on_exception clock random parse_float attempt exc
               (mkSt c' w' le) = (o, s') ->
             Effect random 1
               (if attempt <? max_retries (self s) then 1 else 0) s s'
             /\ attempt_ends upstream attempt s o).
  { intros exc c' w' le o s' N1 N2 T Rq Sl E.
    pose proof (@handler_after attempt exc s (mkSt c' w' le) N1 N2) as H.
    cbv zeta in H. rewrite E in H. apply H.
    apply effect_intro; [exact T|simpl; lia|now left]. }
  destruct (attempt_once clock upstream random parse_float attempt s)
    as [o s'] eqn:E.
  cbn [fst snd]. revert E.
  unfold attempt_once, try_except, try_body, session_get.
  unfold bind at 1.
  destruct (upstream (requests (world s))) as [r| | |] eqn:Eu; simpl.
  2-4: apply Hh; try discriminate; try reflexivity; apply touches_refl.
  unfold raise_for_status.
  destruct (Z.ltb_spec attempt (max_retries (self s))) as [Hlt|Hge].
  - pose proof (proj2 (Z.ltb_lt _ _) Hlt) as El.
    zsplit; plumb; simpl; rewrite ?El; rewrite ?record_failure_eq;
      rewrite ?record_success_eq; simpl;
      try match goal with
        | |- context [_sleep_with_backoff _ _ ?a ?h ?st] =>
            let o := fresh "o" in
            let w := fresh "w" in
            let E := fresh "E" in
            destruct (@sleep_with_backoff_effect a h st)
              as (o & w & E & [-> | [-> | ->]] & ? & ?);
            rewrite E; clear E; simpl in *
        end;
      first [ apply Hh; try discriminate; try reflexivity;
              first [apply touches_refl|apply touches_failed]
            | attempt_end Eu ].
  - pose proof (proj2 (Z.ltb_ge _ _) Hge) as El.
    zsplit; plumb; simpl; rewrite ?El; rewrite ?record_failure_eq;
      rewrite ?record_success_eq; simpl;
      first [ apply Hh; try discriminate; try reflexivity;
              first [ apply touches_refl | apply touches_failed
                    | apply touches_rate_limited
                    | eapply touches_trans;
                      [apply touches_rate_limited|apply touches_failed] ]
            | attempt_end Eu ].
Qed.

(** The loop of [get] over the attempts [first], ..., [first + n - 1]:
    at most [n] network calls, a sleep only after an attempt below
    [max_retries], and a normal end only if every attempt continued. *)
Lemma attempts_effect n :
  forall (first : nat) (s : St),
    let r := for_each (map Z.of_nat (seq first n))
               (attempt_once clock upstream random parse_float) s in
    Effect random n
      (Nat.min n (Z.to_nat (max_retries (self s) - Z.of_nat first))) s (snd r)
    /\ match fst r with
       | Normal _ =>
           n = 0%nat \/ Z.of_nat first + Z.of_nat n <= max_retries (self s)
       | Continue => False
       | Raise e => e <> RuntimeError /\ e <> CircuitOpenError
       | Return r => is_error_status (status_code r) = false
       end.
Proof.
  induction n as [|n IH]; intros first s; cbv zeta.
  - simpl. split; [apply effect_refl|now left].
  - simpl seq. simpl map. cbn [for_each].
    destruct (@attempt_once_effect (Z.of_nat first) s) as (E1 & O1).
    destruct (attempt_once clock upstream random parse_float
                (Z.of_nat first) s) as [o s1].
    cbn [fst snd] in E1, O1.
    assert (M : max_retries (self s1) = max_retries (self s)).
    { destruct E1 as ((C & _) & _). unfold config in C. congruence. }
    assert (W : forall r',
               Effect random 1
                 (if Z.of_nat first <? max_retries (self s) then 1 else 0)
                 s r' ->
               Effect random (S n)
                 (Nat.min (S n)
                    (Z.to_nat (max_retries (self s) - Z.of_nat first))) s r').
    { intros r' H. eapply effect_weaken; [| |exact H]; [lia|].
      destruct (Z.ltb_spec (Z.of_nat first) (max_retries (self s))); lia. }
    destruct o as [[]|e|r|]; cbn [attempt_ends] in O1.
    + destruct O1.
    + cbn [fst snd]. split; [now apply W|exact O1].
    + cbn [fst snd]. split; [now apply W|exact (proj2 O1)].
    + destruct (IH (S first) s1) as (E2 & O2). cbv zeta in E2, O2.
      rewrite M in E2, O2.
      split.
      * eapply effect_weaken; [| |exact (effect_trans E1 E2)]; [lia|].
        apply Z.ltb_lt in O1. rewrite O1. lia.
      * destruct (fst (for_each _ _ s1)) as [[]|e|r|]; try exact O2.
        right. destruct O2 as [->|O2]; lia.
Qed.

(** The attempts phase on any input. *)
Lemma get_attempts_effect s :
  let m := max_retries (self s) in
  let r := get_attempts clock upstream random parse_float s in
  Effect random (Z.to_nat (m + 1)) (Z.to_nat m) (entered s) (snd r) /\
  match fst r with
  | Return resp => is_error_status (status_code resp) = false
  | Raise e =>
      e <> CircuitOpenError /\
      (e = RuntimeError ->
       m < 0 /\
       snd r = mkSt (failed (clock (ticks (world s))) (self (entered s)))
                    (ticked (world s)) None)
  | _ => False
  end.
Proof.
  cbv zeta.
  set (body := attempt_once clock upstream random parse_float).
  set (m := max_retries (self s)).
  set (tail := (_record_failure clock ;;
                exc <- read_last_exc ;;
                match exc with
                | Some e => raise e
                | None => raise RuntimeError
                end) : M unit).
  assert (E : get_attempts clock upstream random parse_float s
              = (for_each (Py.range (m + 1)) body ;; tail) (entered s))
    by reflexivity.
  rewrite E. clear E. unfold Py.range.
  destruct (Z.ltb_spec m 0) as [Hneg|Hpos].
  - replace (Z.to_nat (m + 1)) with 0%nat by lia.
    replace (Z.to_nat m) with 0%nat by lia.
    unfold bind. cbn [seq map for_each]. unfold ret. subst tail.
    unfold bind. rewrite record_failure_eq. unfold read_last_exc.
    cbn [last_exc entered raise fst snd].
    split.
    + apply effect_intro; [apply touches_failed|simpl; lia|now left].
    + split; [discriminate|]. intros _. split; [exact Hneg|reflexivity].
  - destruct (@attempts_effect (Z.to_nat (m + 1)) 0%nat (entered s))
      as (E1 & O1).
    cbv zeta in E1, O1. fold body in E1, O1.
    change (max_retries (self (entered s))) with m in E1, O1.
    unfold bind.
    destruct (for_each (map Z.of_nat (seq 0 (Z.to_nat (m + 1)))) body
                (entered s)) as [[[]|e|r|] s1]; cbn [fst snd] in *.
    + exfalso. destruct O1 as [O1|O1]; lia.
    + split.
      * eapply effect_weaken; [| |exact E1]; lia.
      * split; [exact (proj2 O1)|]. intro He. destruct (proj1 O1 He).
    + split; [|exact O1].
      eapply effect_weaken; [| |exact E1]; lia.
    + destruct O1.
Qed.

(** The breaker check on any input: it answers, touching only the breaker
    and the clock. *)
Lemma is_circuit_open_effect s :
  exists b s0,
    _is_circuit_open clock s = (Normal b, s0) /\
    Effect random 0 0 s s0 /\ last_exc s0 = last_exc s /\
    (b = true -> self s0 = self s).
Proof.
  unfold _is_circuit_open, time_time. plumb.
  destruct (circuit_open (self s)) eqn:Ho; simpl.
  - destruct (Py.gt _ _); eexists _, _; (split; [reflexivity|]).
    + split; [|split; [reflexivity|discriminate]].
      apply effect_intro; [|simpl; lia|now left].
      apply (touches_reset (self s)).
    + split; [|split; reflexivity].
      apply effect_intro; [apply touches_refl|simpl; lia|now left].
  - exists false, s. split; [reflexivity|].
    split; [apply effect_refl|]. split; [reflexivity|discriminate].
Qed.

(** [get] on any input: how it ends, and what it changes. *)
Lemma get_effect s :
  let r := get clock upstream random parse_float s in
  let m := max_retries (self s) in
  (fst r = Raise CircuitOpenError /\ self (snd r) = self s /\
   requests (world (snd r)) = requests (world s) /\
   sleeps (world (snd r)) = sleeps (world s))
  \/
  (exists s0,
     Effect random 0 0 s s0 /\
     Effect random (Z.to_nat (m + 1)) (Z.to_nat m) (entered s0) (snd r) /\
     match fst r with
     | Return resp => is_error_status (status_code resp) = false
     | Raise e => e <> CircuitOpenError /\ (e = RuntimeError -> m < 0)
     | _ => False
     end).
Proof.
  cbv zeta. unfold get. unfold bind.
  destruct (is_circuit_open_effect s) as (b & s0 & E & E0 & L & B).
  rewrite E. destruct b.
  - left. simpl. destruct E0 as (_ & Q & n & S & Ln & _).
    destruct n; [|simpl in Ln; lia].
    split; [reflexivity|]. split; [now apply B|]. split; [lia|exact S].
  - right. exists s0. split; [exact E0|].
    assert (M : max_retries (self s0) = max_retries (self s)).
    { destruct E0 as ((C & _) & _). unfold config in C. congruence. }
    destruct (get_attempts_effect s0) as (E1 & O1). cbv zeta in E1, O1.
    rewrite M in E1, O1. split; [exact E1|].
    destruct (fst (get_attempts clock upstream random parse_float s0))
      as [[]|e|r|]; try exact O1.
    split; [exact (proj1 O1)|]. intro He. exact (proj1 (proj2 O1 He)).
Qed.

(** A call that passed the breaker check is its attempts phase. *)
Lemma get_passed s s0 :
  _is_circuit_open clock s = (Normal false, s0) ->
  get clock upstream random parse_float s
  = get_attempts clock upstream random parse_float s0.
Proof. intro Ec. unfold get. unfold bind. rewrite Ec. reflexivity. Qed.

(** With a negative [max_retries] the loop has no iteration. *)
Lemma get_attempts_empty s :
  max_retries (self s) < 0 ->
  get_attempts clock upstream random parse_float s
  = (Raise RuntimeError,
     mkSt (failed (clock (ticks (world s))) (self (entered s)))
          (ticked (world s)) None).
Proof.
  intro Hneg.
  set (tail := (_record_failure clock ;;
                exc <- read_last_exc ;;
                match exc with
                | Some e => raise e
                | None => raise RuntimeError
                end) : M unit).
  assert (E : get_attempts clock upstream random parse_float s
              = (for_each (Py.range (max_retries (self s) + 1))
                   (attempt_once clock upstream random parse_float) ;; tail)
                  (entered s))
    by reflexivity.
  rewrite E. unfold Py.range.
  replace (Z.to_nat (max_retries (self s) + 1)) with 0%nat by lia.
  unfold bind. cbn [seq map for_each]. unfold ret. subst tail.
  unfold bind. rewrite record_failure_eq. reflexivity.
Qed.

(** X16.  Call an attempt retried when [session.get] raises, or answers
    with a status in 400..599 that is not a 429 whose [Retry-After] hint
    is beyond what [time.sleep] accepts.  The breaker check lets the call
    pass, leaving the state [s0]; the backoff configuration is sane and
    [random.random()] stays in the unit interval; the first [k] attempts
    ([k <= max_retries], [k <= 1024]) are retried and attempt [k] is
    answered by a 2xx.  Then [get] returns that response after
    [k + 1] network calls and [k] sleeps, [consecutive_failures] is back
    at 0 and the breaker is closed, while [error_count] keeps the
    failures the earlier attempts recorded and the call counts as one
    request. *)
Theorem success_after_retries (s s0 : St) (k : nat) (r : Response) :
  _is_circuit_open clock s = (Normal false, s0) ->
  Z.of_nat k <= max_retries (self s0) -> Z.of_nat k <= 1024 ->
  sane (self s0) -> unit_draws random ->
  (forall i, (i < k)%nat ->
     retried parse_float (backoff_cap_seconds (self s0))
       (upstream (requests (world s0) + i)) = true) ->
  upstream (requests (world s0) + k) = NetResponse r ->
  is_success (status_code r) = true ->
  exists s',
    get clock upstream random parse_float s = (Return r, s') /\
    requests (world s') = (requests (world s0) + k + 1)%nat /\
    List.length (sleeps (world s'))
    = (List.length (sleeps (world s0)) + k)%nat /\
    consecutive_failures (self s') = 0 /\
    circuit_open (self s') = false /\
    error_count (self s')
    = error_count (self s0) + failures_before upstream (requests (world s0)) k
    /\ request_count (self s') = request_count (self s0) + 1.
Proof.
  intros Ec Hk Hb Hs Hr Hu Eu Hc.
  rewrite (@get_passed s s0 Ec).
  destruct (@get_attempts_reach s0 k Hk Hb Hs Hr Hu)
    as (s1 & A1 & Hret & _).
  destruct A1 as (C1 & R1 & L1 & E1 & F1 & Q1). simpl in R1, L1, E1, F1, Q1.
  rewrite <- R1 in Eu.
  pose proof (@attempt_once_success (Z.of_nat k) s1 r Eu Hc) as Ea.
  eexists. split; [exact (Hret _ _ Ea)|].
  simpl. repeat split; try lia.
Qed.

(** X17.  The breaker check lets the call pass, with a sane backoff
    configuration, [random.random()] in the unit interval and
    [0 <= max_retries <= 1024]; every attempt before the last one is
    retried (an exception of [session.get], or a status in 400..599 that
    is not a 429 whose hint is beyond what [time.sleep] accepts) and
    [session.get] raises on the last one (a timeout, a connection error
    or another request exception).  Then
    [get] raises that exception after [max_retries + 1] network calls,
    and the last attempt has recorded exactly one failure. *)
Theorem network_error_on_last_attempt (s s0 : St) (e : Exn) :
  _is_circuit_open clock s = (Normal false, s0) ->
  0 <= max_retries (self s0) <= 1024 ->
  sane (self s0) -> unit_draws random ->
  let n := Z.to_nat (max_retries (self s0)) in
  (forall i, (i < n)%nat ->
     retried parse_float (backoff_cap_seconds (self s0))
       (upstream (requests (world s0) + i)) = true) ->
  raised_by (upstream (requests (world s0) + n)) = Some e ->
  let earlier := failures_before upstream (requests (world s0)) n in
  exists s',
    get clock upstream random parse_float s = (Raise e, s') /\
    last_exc s' = Some e /\
    requests (world s') = (requests (world s0) + n + 1)%nat /\
    error_count (self s') = error_count (self s0) + 1 + earlier /\
    consecutive_failures (self s')
    = consecutive_failures (self s0) + 1 + earlier.
Proof.
  intros Ec Hm Hs Hr n Hu Eu earlier.
  rewrite (@get_passed s s0 Ec).
  destruct (@get_attempts_reach s0 n ltac:(subst n; lia)
              ltac:(subst n; lia) Hs Hr Hu)
    as (s1 & A1 & _ & Hraise).
  fold earlier in A1.
  destruct A1 as (C1 & R1 & L1 & E1 & F1 & Q1). simpl in R1, L1, E1, F1, Q1.
  assert (M1 : max_retries (self s1) = max_retries (self s0))
    by (unfold config in C1; simpl in C1; congruence).
  rewrite <- R1 in Eu.
  pose proof (@attempt_once_last_network (Z.of_nat n) s1 e
                ltac:(rewrite M1; subst n; lia) Eu) as Ea.
  eexists. split; [exact (Hraise _ _ Ea)|].
  destruct (failed_counts (clock (ticks (world s1))) (self s1))
    as (Fe & Ff & _ & _).
  simpl. repeat split; try lia.
Qed.

(** X18.  The breaker check lets the call pass, with a sane backoff
    configuration and [random.random()] in the unit interval; the first
    [k] attempts ([k <= max_retries], [k <= 1024]) are retried (an
    exception of [session.get], or a status in 400..599 that is not a 429
    whose hint is beyond what [time.sleep] accepts) and attempt [k] is
    answered by a status outside 200..299
    and 400..599 (a redirect, say).  Then [get] returns that response at
    once, and neither a success nor a failure is recorded for it: the
    client is the one the earlier attempts left, with
    [consecutive_failures] not reset. *)
Theorem other_status_returned_unrecorded (s s0 : St) (k : nat)
    (r : Response) :
  _is_circuit_open clock s = (Normal false, s0) ->
  Z.of_nat k <= max_retries (self s0) -> Z.of_nat k <= 1024 ->
  sane (self s0) -> unit_draws random ->
  (forall i, (i < k)%nat ->
     retried parse_float (backoff_cap_seconds (self s0))
       (upstream (requests (world s0) + i)) = true) ->
  upstream (requests (world s0) + k) = NetResponse r ->
  is_success (status_code r) = false ->
  is_error_status (status_code r) = false ->
  let earlier := failures_before upstream (requests (world s0)) k in
  exists s',
    get clock upstream random parse_float s = (Return r, s') /\
    requests (world s') = (requests (world s0) + k + 1)%nat /\
    consecutive_failures (self s')
    = consecutive_failures (self s0) + earlier /\
    error_count (self s') = error_count (self s0) + earlier.
Proof.
  intros Ec Hk Hb Hs Hr Hu Eu Hc He earlier.
  rewrite (@get_passed s s0 Ec).
  destruct (@get_attempts_reach s0 k Hk Hb Hs Hr Hu)
    as (s1 & A1 & Hret & _).
  fold earlier in A1.
  destruct A1 as (C1 & R1 & L1 & E1 & F1 & Q1). simpl in R1, L1, E1, F1, Q1.
  rewrite <- R1 in Eu.
  pose proof (@attempt_once_passthrough (Z.of_nat k) s1 r Eu Hc He) as Ea.
  eexists. split; [exact (Hret _ _ Ea)|].
  simpl. repeat split; try lia.
Qed.



(** X21.  Every call either returns a response whose status is outside
    400..599 or raises: a response with an error status is never
    returned (the [return response] after [raise_for_status()] in the
    client-error branch is dead), and the call never falls through
    without a result. *)
Theorem returns_no_error_status (s : St) :
  let o := fst (get clock upstream random parse_float s) in
  (exists r, o = Return r /\ (status_code r < 400 \/ 600 <= status_code r))
  \/ exists e, o = Raise e.
Proof.
  cbv zeta.
  destruct (get_effect s) as [(E & _)|(s0 & _ & _ & O)]; cbv zeta in *.
  - right. eauto.
  - destruct (fst (get clock upstream random parse_float s))
      as [[]|e|r|]; try (destruct O; fail).
    + right. eauto.
    + left. exists r. split; [reflexivity|].
      unfold is_error_status in O. apply andb_false_iff in O.
      destruct O as [O|O]; [apply Z.leb_gt in O|apply Z.ltb_ge in O]; lia.
Qed.

(** X22.  One call of [get] never assigns the configuration, counts
    exactly one request unless the breaker refuses it (then none),
    whatever the number of attempts, and never lowers [error_count] or
    [rate_limit_count]. *)
Theorem request_counted_once (s : St) :
  let r := get clock upstream random parse_float s in
  config (self (snd r)) = config (self s) /\
  request_count (self (snd r))
  = request_count (self s)
    + match fst r with Raise CircuitOpenError => 0 | _ => 1 end /\
  error_count (self s) <= error_count (self (snd r)) /\
  rate_limit_count (self s) <= rate_limit_count (self (snd r)).
Proof.
  cbv zeta.
  destruct (get_effect s) as [(E & C & _)|(s0 & E0 & E1 & O)];
    cbv zeta in *.
  - rewrite E, C. repeat split; lia.
  - destruct E0 as ((C0 & Q0 & Er0 & Rl0 & _) & _).
    destruct E1 as ((C1 & Q1 & Er1 & Rl1 & _) & _).
    simpl in C1, Q1, Er1, Rl1.
    assert (N : match fst (get clock upstream random parse_float s) with
                | Raise CircuitOpenError => 0
                | _ => 1
                end = 1).
    { destruct (fst (get clock upstream random parse_float s))
        as [[]|[]|r|]; try reflexivity.
      destruct O as (O & _). congruence. }
    rewrite N.
    split; [unfold config in *; simpl in C1; congruence|].
    split; [lia|]. split; lia.
Qed.

(** X23.  Across any number of calls of [get], an open breaker has at
    least [circuit_breaker_threshold] consecutive failures on record:
    the property holds of a new client and every call keeps it, whatever
    the upstream answers. *)
Theorem open_breaker_has_failures_on_record (n : nat) :
  forall s : St,
    breaker_consistent (self s) ->
    breaker_consistent
      (self (snd (calls clock upstream random parse_float n s))).
Proof.
  induction n as [|n IH]; intros s H; [exact H|].
  cbn [calls].
  assert (H1 : breaker_consistent
                 (self (snd (get clock upstream random parse_float s)))).
  { destruct (get_effect s) as [(_ & C & _)|(s0 & E0 & E1 & _)];
      cbv zeta in *.
    - rewrite C. exact H.
    - destruct E0 as ((_ & _ & _ & _ & B0) & _).
      destruct E1 as ((_ & _ & _ & _ & B1) & _).
      apply B1. simpl. exact (B0 H). }
  destruct (get clock upstream random parse_float s) as [o s1].
  specialize (IH s1 H1).
  destruct (calls clock upstream random parse_float n s1) as [os s2].
  exact IH.
Qed.

(** X24.  A call that passed the breaker check ends in the
    [RuntimeError] of the last line of [get] exactly when [max_retries]
    is negative; it has then made no network call, counted the request
    and recorded one failure.  With [0 <= max_retries] the code after the
    loop is never reached. *)
Theorem runtime_error_iff_no_attempts (s s0 : St) :
  _is_circuit_open clock s = (Normal false, s0) ->
  let r := get clock upstream random parse_float s in
  (fst r = Raise RuntimeError <-> max_retries (self s0) < 0) /\
  (max_retries (self s0) < 0 ->
   requests (world (snd r)) = requests (world s0) /\
   request_count (self (snd r)) = request_count (self s0) + 1 /\
   error_count (self (snd r)) = error_count (self s0) + 1 /\
   consecutive_failures (self (snd r)) = consecutive_failures (self s0) + 1).
Proof.
  intros Ec. cbv zeta. rewrite (@get_passed s s0 Ec).
  split; [split|].
  - intro E. destruct (get_attempts_effect s0) as (_ & O). cbv zeta in O.
    rewrite E in O. exact (proj1 (proj2 O eq_refl)).
  - intro Hneg. rewrite (@get_attempts_empty s0 Hneg). reflexivity.
  - intro Hneg. rewrite (@get_attempts_empty s0 Hneg).
    destruct (failed_counts (clock (ticks (world s0))) (self (entered s0)))
      as (Fe & Ff & Fq & _).
    cbn [fst snd self world]. rewrite Fe, Ff, Fq. simpl.
    repeat split; lia.
Qed.

(** A call the breaker did not refuse counts one request. *)
Lemma get_counts_request s :
  fst (get clock upstream random parse_float s) <> Raise CircuitOpenError ->
  request_count (self (snd (get clock upstream random parse_float s)))
  = request_count (self s) + 1.
Proof.
  intro N.
  destruct (get_effect s) as [(E & _)|(s0 & E0 & E1 & _)]; cbv zeta in *.
  - congruence.
  - destruct E0 as ((_ & Q0 & _) & _). destruct E1 as ((_ & Q1 & _) & _).
    simpl in Q1. lia.
Qed.

(** X25.  With the breaker closed, a sane backoff configuration,
    [random.random()] in the unit interval and [0 <= max_retries <= 1024],
    [session.get] answering every attempt with the same 4xx other than
    429 is called [max_retries + 1] times, with [max_retries] sleeps in
    between, before the [HTTPError] reaches the caller; the single call
    raises [error_count] by [max_retries + 2], one for each attempt and
    one more for the last. *)
Theorem client_error_uses_every_attempt (s : St) (code : Z) :
  circuit_open (self s) = false ->
  0 <= max_retries (self s) <= 1024 ->
  sane (self s) -> unit_draws random ->
  is_client_error code = true -> code <> 429 ->
  (forall i, exists hdr, upstream i = NetResponse (mkResponse code hdr)) ->
  exists s',
    get clock upstream random parse_float s = (Raise (HTTPError code), s') /\
    Z.of_nat (requests (world s'))
    = Z.of_nat (requests (world s)) + (max_retries (self s) + 1) /\
    Z.of_nat (List.length (sleeps (world s')))
    = Z.of_nat (List.length (sleeps (world s))) + max_retries (self s) /\
    error_count (self s') = error_count (self s) + (max_retries (self s) + 2).
Proof.
  intros Hclosed Hm Hs Hr Hc Hn Hu.
  rewrite (@get_closed clock upstream random parse_float s Hclosed).
  exact (@client_error_every_attempt clock upstream random parse_float s code
           Hm Hs Hr Hc Hn Hu).
Qed.

(** X26.  The [error_rate] of [get_telemetry] is recorded failures per
    call of [get], not a fraction of failed calls: on a client with no
    request and no error counted so far (breaker closed, sane backoff
    configuration, [random.random()] in the unit interval,
    [0 <= max_retries <= 1024]), one call answered only by a 4xx other
    than 429 leaves an error rate of [max_retries + 2], above 1. *)
Theorem error_rate_exceeds_one (s : St) (code : Z) :
  circuit_open (self s) = false ->
  0 <= max_retries (self s) <= 1024 ->
  sane (self s) -> unit_draws random ->
  is_client_error code = true -> code <> 429 ->
  (forall i, exists hdr, upstream i = NetResponse (mkResponse code hdr)) ->
  request_count (self s) = 0 -> error_count (self s) = 0 ->
  let t := get_telemetry
             (self (snd (get clock upstream random parse_float s))) in
  total_requests t = 1 /\
  total_errors t = max_retries (self s) + 2 /\
  (error_rate t == inject_Z (max_retries (self s) + 2))%Q /\
  (1 < error_rate t)%Q.
Proof.
  intros Hclosed Hm Hs Hr Hc Hn Hu Hq He. cbv zeta.
  pose proof (@get_counts_request s) as Q.
  rewrite (@get_closed clock upstream random parse_float s Hclosed) in *.
  destruct (@client_error_every_attempt clock upstream random parse_float
              s code Hm Hs Hr Hc Hn Hu) as (s' & E & _ & _ & Ee).
  rewrite E in *. cbn [fst snd] in *.
  specialize (Q ltac:(discriminate)).
  unfold get_telemetry. cbn [total_requests total_errors error_rate].
  rewrite Q, Ee, Hq, He. cbn [Z.add Z.max Z.compare Pos.compare].
  assert (R : (inject_Z (max_retries (self s) + 2) / inject_Z 1
               == inject_Z (max_retries (self s) + 2))%Q).
  { unfold Qdiv. change (/ inject_Z 1)%Q with 1%Q. apply Qmult_1_r. }
  split; [reflexivity|]. split; [reflexivity|]. split; [exact R|].
  rewrite R. unfold Qlt, inject_Z. simpl. lia.
Qed.

Lemma circuit_open_failed now c :
  circuit_open (failed now c)
  = (circuit_breaker_threshold c <=? consecutive_failures c + 1)
    || circuit_open c.
Proof.
  unfold failed.
  destruct (circuit_breaker_threshold c <=? consecutive_failures c + 1);
    reflexivity.
Qed.

(** A 503 on an attempt that is not the last one: sleep, [continue]; the
    client is not touched. *)
Lemma attempt_once_unavailable attempt s hdr :
  attempt < max_retries (self s) -> attempt < 1024 ->
  sane (self s) -> unit_draws random ->
  upstream (requests (world s)) = NetResponse (mkResponse 503 hdr) ->
  exists w',
    attempt_once clock upstream random parse_float attempt s
    = (Continue, mkSt (self s) w' (last_exc s)) /\
    ticks w' = ticks (world s) /\
    requests w' = S (requests (world s)).
Proof.
  intros Ha Hk Hs Hr Eu.
  pose proof (proj2 (Z.ltb_lt _ _) Ha) as Hlt.
  unfold attempt_once, try_except, try_body, session_get.
  unfold bind at 1. rewrite Eu. plumb. simpl. rewrite Hlt.
  match goal with
  | |- context [_sleep_with_backoff _ _ ?a ?h ?st] =>
      destruct (@sleep_with_backoff_total random parse_float a h st Hk Hs Hr
                  ltac:(discriminate))
        as (w' & E & Ht & Hq & _)
  end.
  rewrite E. exists w'. simpl in Ht, Hq. auto.
Qed.

Lemma attempts_unavailable n :
  forall (first : nat) (rest : list Z) (s : St),
    Z.of_nat first + Z.of_nat n <= max_retries (self s) ->
    Z.of_nat first + Z.of_nat n <= 1024 ->
    sane (self s) -> unit_draws random ->
    (forall i, exists hdr, upstream i = NetResponse (mkResponse 503 hdr)) ->
    exists w',
      for_each (map Z.of_nat (seq first n) ++ rest)%list
        (attempt_once clock upstream random parse_float) s
      = for_each rest (attempt_once clock upstream random parse_float)
          (mkSt (self s) w' (last_exc s)) /\
      ticks w' = ticks (world s) /\
      requests w' = (requests (world s) + n)%nat.
Proof.
  induction n as [|n IH]; intros first rest s Hm Hk Hs Hr Hu.
  - exists (world s). destruct s as [c w le]. simpl.
    split; [reflexivity|]. split; [reflexivity|lia].
  - simpl seq. simpl map. simpl app. cbn [for_each].
    destruct (Hu (requests (world s))) as (hdr & Eu).
    destruct (@attempt_once_unavailable (Z.of_nat first) s hdr
                ltac:(lia) ltac:(lia) Hs Hr Eu) as (w1 & E1 & T1 & R1).
    rewrite E1.
    destruct (IH (S first) rest (mkSt (self s) w1 (last_exc s))
                ltac:(cbn [self]; lia) ltac:(lia) Hs Hr Hu)
      as (w2 & E2 & T2 & R2).
    exists w2. split; [exact E2|]. simpl in T2, R2. split; lia.
Qed.

(** One call against an upstream that only answers 503, the breaker
    closed: the client ends with the request counted and one failure
    recorded at the clock reading the call started with. *)
Lemma get_unavailable s :
  circuit_open (self s) = false ->
  0 <= max_retries (self s) <= 1024 ->
  sane (self s) -> unit_draws random ->
  (forall i, exists hdr, upstream i = NetResponse (mkResponse 503 hdr)) ->
  exists w',
    get clock upstream random parse_float s
    = (Raise (HTTPError 503),
       mkSt (failed (clock (ticks (world s))) (self (entered s))) w'
            (Some (HTTPError 503))) /\
    ticks w' = S (ticks (world s)) /\
    requests w'
    = (requests (world s) + Z.to_nat (max_retries (self s) + 1))%nat.
Proof.
  intros Hclosed Hm Hs Hr Hu.
  rewrite (@get_closed clock upstream random parse_float s Hclosed).
  set (body := attempt_once clock upstream random parse_float).
  set (m := max_retries (self s)) in *.
  set (tail := (_record_failure clock ;;
                exc <- read_last_exc ;;
                match exc with
                | Some e => raise e
                | None => raise RuntimeError
                end) : M unit).
  assert (E : get_attempts clock upstream random parse_float s
              = (for_each (Py.range (m + 1)) body ;; tail) (entered s))
    by reflexivity.
  rewrite E. rewrite (@range_succ m (proj1 Hm)).
  destruct (@attempts_unavailable (Z.to_nat m) 0%nat [m] (entered s))
    as (w1 & E1 & T1 & R1);
    [simpl; subst m; lia | simpl; lia | exact Hs | exact Hr | exact Hu |].
  fold body in E1. unfold bind. rewrite E1. cbn [for_each].
  destruct (Hu (requests w1)) as (hdr & Eu).
  pose proof (@attempt_once_last_server_error clock upstream random
                parse_float m (mkSt (self (entered s)) w1 None)
                (mkResponse 503 hdr)
                ltac:(simpl; subst m; lia) Eu ltac:(simpl; lia)) as Ea.
  fold body in Ea. cbn [last_exc entered self world] in *.
  rewrite Ea. cbn [status_code world self].
  eexists. split; [rewrite T1; reflexivity|].
  simpl in T1, R1 |- *. split; lia.
Qed.

(** Calls against an upstream that only answers 503, as long as the
    breaker is closed before each of them. *)
Lemma calls_unavailable n :
  forall s : St,
    circuit_open (self s) = false ->
    0 <= max_retries (self s) <= 1024 ->
    sane (self s) -> unit_draws random ->
    (forall i, exists hdr, upstream i = NetResponse (mkResponse 503 hdr)) ->
    consecutive_failures (self s) + Z.of_nat n
    <= circuit_breaker_threshold (self s) ->
    exists s',
      calls clock upstream random parse_float n s
      = (repeat (Raise (HTTPError 503)) n, s') /\
      config (self s') = config (self s) /\
      consecutive_failures (self s')
      = consecutive_failures (self s) + Z.of_nat n /\
      circuit_open (self s')
      = (0 <? Z.of_nat n)
        && (circuit_breaker_threshold (self s)
            <=? consecutive_failures (self s) + Z.of_nat n) /\
      requests (world s')
      = (requests (world s) + n * Z.to_nat (max_retries (self s) + 1))%nat /\
      ticks (world s') = (ticks (world s) + n)%nat /\
      ((0 < n)%nat ->
       last_failure_time (self s') = clock (Nat.pred (ticks (world s')))).
Proof.
  induction n as [|n IH]; intros s Hclosed Hm Hs Hr Hu Ht.
  - exists s. simpl. rewrite Hclosed.
    split; [reflexivity|]. split; [reflexivity|]. split; [lia|].
    split; [reflexivity|]. split; [lia|]. split; lia.
  - cbn [calls].
    destruct (@get_unavailable s Hclosed Hm Hs Hr Hu) as (w1 & E1 & T1 & R1).
    rewrite E1.
    set (c1 := failed (clock (ticks (world s))) (self (entered s))) in *.
    set (s1 := mkSt c1 w1 (Some (HTTPError 503))) in *.
    destruct (failed_counts (clock (ticks (world s))) (self (entered s)))
      as (_ & Ff & _ & Fl).
    pose proof (config_failed (clock (ticks (world s))) (self (entered s)))
      as Fc.
    pose proof (circuit_open_failed (clock (ticks (world s)))
                  (self (entered s))) as Fo.
    fold c1 in Ff, Fl, Fc, Fo. simpl in Ff, Fc, Fo.
    rewrite Hclosed, orb_false_r in Fo.
    assert (C1 : config (self s1) = config (self s)) by exact Fc.
    assert (M1 : max_retries (self s1) = max_retries (self s))
      by (unfold config in C1; congruence).
    assert (Th1 : circuit_breaker_threshold (self s1)
                  = circuit_breaker_threshold (self s))
      by (unfold config in C1; congruence).
    destruct n as [|n'].
    + exists s1. cbn [calls repeat].
      split; [reflexivity|]. split; [exact C1|].
      split; [simpl; lia|]. split; [simpl; rewrite Fo; reflexivity|].
      split; [simpl; lia|]. split; [simpl; lia|].
      intros _. simpl. rewrite Fl, T1. reflexivity.
    + destruct (IH s1) as (s' & E & C & F & O & R & T & L).
      * simpl. rewrite Fo. apply Z.leb_gt. lia.
      * rewrite M1. exact Hm.
      * apply (@sane_config (self s)); [exact C1|exact Hs].
      * exact Hr.
      * exact Hu.
      * rewrite Th1. simpl. lia.
      * rewrite E. exists s'. cbn [repeat].
        split; [reflexivity|]. split; [congruence|].
        split; [rewrite F; change (self s1) with c1; rewrite Ff; lia|].
        split.
        { rewrite O, Th1. change (self s1) with c1. rewrite Ff.
          replace (0 <? Z.of_nat (S n')) with true
            by (symmetry; apply Z.ltb_lt; lia).
          replace (0 <? Z.of_nat (S (S n'))) with true
            by (symmetry; apply Z.ltb_lt; lia).
          cbn [andb]. f_equal. lia. }
        split; [rewrite R, M1; change (world s1) with w1; rewrite R1; lia|].
        split; [rewrite T; change (world s1) with w1; rewrite T1; lia|].
        intros _. apply L. lia.
Qed.

(** X27.  On a client with the breaker closed, a sane backoff
    configuration, [random.random()] in the unit interval and
    [0 <= max_retries <= 1024], [n] calls in a row whose every
    [session.get] answers 503 bring [consecutive_failures] to
    [circuit_breaker_threshold]: each of them raises the [HTTPError]
    after [max_retries + 1] calls of [session.get], the breaker is still
    closed after fewer than [n] of them and open after the [n]-th, and a
    further call made before the reset window has passed is refused
    without a call of [session.get]. *)
Theorem failing_calls_open_breaker (s : St) (n : nat) :
  circuit_open (self s) = false ->
  0 <= max_retries (self s) <= 1024 ->
  sane (self s) -> unit_draws random ->
  (forall i, exists hdr, upstream i = NetResponse (mkResponse 503 hdr)) ->
  (0 < n)%nat ->
  consecutive_failures (self s) + Z.of_nat n
  = circuit_breaker_threshold (self s) ->
  let r := calls clock upstream random parse_float n s in
  fst r = repeat (Raise (HTTPError 503)) n /\
  requests (world (snd r))
  = (requests (world s) + n * Z.to_nat (max_retries (self s) + 1))%nat /\
  (forall k, (k < n)%nat ->
     circuit_open
       (self (snd (calls clock upstream random parse_float k s))) = false) /\
  circuit_open (self (snd r)) = true /\
  ((clock (ticks (world (snd r))) - clock (Nat.pred (ticks (world (snd r))))
    <= circuit_reset_timeout (self s))%Q ->
   let r' := get clock upstream random parse_float (snd r) in
   fst r' = Raise CircuitOpenError /\
   requests (world (snd r')) = requests (world (snd r))).
Proof.
  intros Hclosed Hm Hs Hr Hu Hn Ht. cbv zeta.
  destruct (@calls_unavailable n s Hclosed Hm Hs Hr Hu ltac:(lia))
    as (s' & E & C & F & O & R & T & L).
  rewrite E. cbn [fst snd].
  assert (Ho : circuit_open (self s') = true).
  { rewrite O. apply andb_true_intro.
    split; [apply Z.ltb_lt|apply Z.leb_le]; lia. }
  split; [reflexivity|]. split; [exact R|].
  split; [|split; [exact Ho|]].
  - intros k Hk.
    destruct (@calls_unavailable k s Hclosed Hm Hs Hr Hu ltac:(lia))
      as (sk & Ek & _ & _ & Ok & _).
    rewrite Ek. cbn [snd]. rewrite Ok.
    apply andb_false_iff. right. apply Z.leb_gt. lia.
  - intro Hw.
    assert (Rt : circuit_reset_timeout (self s')
                 = circuit_reset_timeout (self s))
      by (unfold config in C; congruence).
    rewrite (@get_blocked clock upstream random parse_float s' Ho).
    + split; reflexivity.
    + rewrite (L Hn), Rt. exact Hw.
Qed.

(** X28.  A [Retry-After] hint at or above the cap, [float("inf")]
    included, is cut to the cap: with a cap that [time.sleep] accepts,
    the routine sleeps [backoff_cap_seconds], draws no jitter and
    returns, so a server asking for a longer pause is asked again after
    the cap. *)
Theorem long_hint_is_cut_to_cap (attempt : Z) (s : St) (text : string)
    (x : PyFloat) :
  text <> "" -> parse_float text = Some x ->
  (0 <= backoff_cap_seconds (self s))%Q ->
  fits_pytime (backoff_cap_seconds (self s)) = true ->
  (x = PosInf \/
   exists N, x = Finite N /\ (backoff_cap_seconds (self s) <= N)%Q) ->
  exists d,
    _sleep_with_backoff random parse_float attempt (Some text) s
    = (Normal tt, mkSt (self s) (slept d (world s)) (last_exc s)) /\
    (d == backoff_cap_seconds (self s))%Q.
Proof.
  intros Ht Hp Hc Hf Hx. rewrite sleep_with_backoff_eq.
  set (cap := backoff_cap_seconds (self s)) in *.
  assert (E : exists d, hint_outcome parse_float cap (Some text)
                        = HintSleep d /\ (d == cap)%Q).
  { unfold hint_outcome. destruct text as [|ch text]; [congruence|].
    simpl. rewrite Hp.
    destruct Hx as [->|(N & -> & Hn)]; simpl.
    - rewrite Hf. apply PyFacts.lt_false in Hc. rewrite Hc.
      exists cap. split; [reflexivity|apply Qeq_refl].
    - assert (Hd : (Py.min N cap == cap)%Q).
      { unfold Py.min. destruct (Py.lt cap N) eqn:El; [apply Qeq_refl|].
        apply PyFacts.lt_false in El. now apply Qle_antisym. }
      assert (H0 : (0 <= Py.min N cap)%Q) by (rewrite Hd; exact Hc).
      rewrite (@fits_between (Py.min N cap) cap H0
                 (PyFacts.min_le_r N cap) Hf).
      apply PyFacts.lt_false in H0. rewrite H0.
      exists (Py.min N cap). split; [reflexivity|exact Hd]. }
  destruct E as (d & -> & Hd). exists d. split; [reflexivity|exact Hd].
Qed.

(** The rate-limit counter moved by [n]. *)
Lemma rate_limited_more c (n : Z) :
  set_rate_limit_count (rate_limit_count c + 1 + n)
    (set_rate_limit_count (rate_limit_count c + 1) c)
  = set_rate_limit_count (rate_limit_count c + (1 + n)) c.
Proof.
  unfold set_rate_limit_count. cbn [Http.rate_limit_count]. f_equal. lia.
Qed.

(** The loop of [get] over [n] attempts answered by 429, none of them the
    last: each is counted, slept on and continued. *)
Lemma attempts_rate_limited n :
  forall (first : nat) (rest : list Z) (s : St),
    Z.of_nat first + Z.of_nat n <= max_retries (self s) ->
    Z.of_nat first + Z.of_nat n <= 1024 ->
    sane (self s) -> unit_draws random ->
    (forall i, exists hdr,
       upstream i = NetResponse (mkResponse 429 hdr) /\
       hint_outcome parse_float (backoff_cap_seconds (self s)) hdr
       <> HintOverflow) ->
    exists w',
      for_each (map Z.of_nat (seq first n) ++ rest)%list
        (attempt_once clock upstream random parse_float) s
      = for_each rest (attempt_once clock upstream random parse_float)
          (mkSt (set_rate_limit_count
                   (rate_limit_count (self s) + Z.of_nat n) (self s))
                w' (last_exc s)) /\
      ticks w' = ticks (world s) /\
      requests w' = (requests (world s) + n)%nat /\
      List.length (sleeps w') = (List.length (sleeps (world s)) + n)%nat.
Proof.
  induction n as [|n IH]; intros first rest s Hm Hk Hs Hr Hu.
  - exists (world s). destruct s as [c w le]. simpl.
    replace (set_rate_limit_count (rate_limit_count c + 0) c) with c
      by (destruct c; unfold set_rate_limit_count; simpl; f_equal; lia).
    split; [reflexivity|]. split; [reflexivity|]. split; lia.
  - simpl seq. simpl map. simpl app. cbn [for_each].
    destruct (Hu (requests (world s))) as (hdr & Eu & Hh).
    rewrite (@attempt_once_rate_limited clock upstream random parse_float
               (Z.of_nat first) s (mkResponse 429 hdr) Eu eq_refl
               ltac:(lia)).
    set (s1 := mkSt (set_rate_limit_count (rate_limit_count (self s) + 1)
                       (self s))
                    (requested (world s)) (last_exc s)).
    destruct (@sleep_with_backoff_total random parse_float (Z.of_nat first)
                (retry_after (mkResponse 429 hdr)) s1 ltac:(lia) Hs Hr Hh)
      as (w1 & E1 & T1 & R1 & L1).
    rewrite E1.
    destruct (IH (S first) rest (mkSt (self s1) w1 (last_exc s1))
                ltac:(cbn [self s1]; simpl max_retries; lia) ltac:(lia)
                Hs Hr Hu)
      as (w2 & E2 & T2 & R2 & L2).
    exists w2. split.
    + rewrite E2. cbn [self last_exc s1].
      change (rate_limit_count
                (set_rate_limit_count (rate_limit_count (self s) + 1)
                   (self s)))
        with (rate_limit_count (self s) + 1).
      rewrite rate_limited_more.
      replace (1 + Z.of_nat n) with (Z.of_nat (S n)) by lia. reflexivity.
    + simpl in T1, R1, L1, T2, R2, L2. split; [lia|]. split; lia.
Qed.

(** X29.  With the breaker closed, a sane backoff configuration,
    [random.random()] in the unit interval and [0 <= max_retries <= 1024],
    [session.get] answering every attempt with a 429 whose [Retry-After]
    hint, if any, is not beyond what [time.sleep] accepts is called
    [max_retries + 1] times with [max_retries] sleeps in between;
    [rate_limit_count] rises by one for every response, the last
    included; only the last attempt records failures, and it records
    two, before the [HTTPError] reaches the caller. *)
Theorem rate_limits_counted (s : St) :
  circuit_open (self s) = false ->
  0 <= max_retries (self s) <= 1024 ->
  sane (self s) -> unit_draws random ->
  (forall i, exists hdr,
     upstream i = NetResponse (mkResponse 429 hdr) /\
     hint_outcome parse_float (backoff_cap_seconds (self s)) hdr
     <> HintOverflow) ->
  exists s',
    get clock upstream random parse_float s = (Raise (HTTPError 429), s') /\
    Z.of_nat (requests (world s'))
    = Z.of_nat (requests (world s)) + (max_retries (self s) + 1) /\
    Z.of_nat (List.length (sleeps (world s')))
    = Z.of_nat (List.length (sleeps (world s))) + max_retries (self s) /\
    rate_limit_count (self s')
    = rate_limit_count (self s) + (max_retries (self s) + 1) /\
    error_count (self s') = error_count (self s) + 2 /\
    consecutive_failures (self s') = consecutive_failures (self s) + 2.
Proof.
  intros Hclosed Hm Hs Hr Hu.
  rewrite (@get_closed clock upstream random parse_float s Hclosed).
  set (body := attempt_once clock upstream random parse_float).
  set (m := max_retries (self s)) in *.
  set (tail := (_record_failure clock ;;
                exc <- read_last_exc ;;
                match exc with
                | Some e => raise e
                | None => raise RuntimeError
                end) : M unit).
  assert (E : get_attempts clock upstream random parse_float s
              = (for_each (Py.range (m + 1)) body ;; tail) (entered s))
    by reflexivity.
  rewrite E. rewrite (@range_succ m (proj1 Hm)).
  destruct (@attempts_rate_limited (Z.to_nat m) 0%nat [m] (entered s))
    as (w1 & E1 & T1 & R1 & L1);
    [simpl; subst m; lia | simpl; lia | exact Hs | exact Hr | exact Hu |].
  fold body in E1. unfold bind. rewrite E1. cbn [for_each].
  destruct (Hu (requests w1)) as (hdr & Eu & _).
  set (c1 := set_rate_limit_count
               (rate_limit_count (self (entered s)) + Z.of_nat (Z.to_nat m))
               (self (entered s))) in *.
  pose proof (@attempt_once_last_client_error clock upstream random
                parse_float m (mkSt c1 w1 (last_exc (entered s)))
                (mkResponse 429 hdr)
                ltac:(simpl; subst m; lia) Eu eq_refl) as Ea.
  cbv zeta in Ea. fold body in Ea. rewrite Ea.
  cbn [status_code Z.eqb Pos.eqb self world].
  eexists. split; [reflexivity|].
  match goal with
  | |- context [failed ?n2 (failed ?n1 ?c)] =>
      destruct (failed_counts n1 c) as (Fe & Ff & _ & _);
      destruct (failed_counts n2 (failed n1 c)) as (Fe2 & Ff2 & _ & _);
      pose proof (rate_limit_count_failed n1 c) as Fr;
      pose proof (rate_limit_count_failed n2 (failed n1 c)) as Fr2
  end.
  cbn [self world]. rewrite Fe2, Ff2, Fr2, Fe, Ff, Fr.
  simpl in T1, R1, L1 |- *. repeat split; lia.
Qed.

(** X30.  Whatever the count of failures so far, after
    [circuit_breaker_threshold] recorded failures in a row every one of
    the next [n] calls of [get] whose clock reading is within
    [circuit_reset_timeout] of [last_failure_time] is refused with the
    circuit-open error: no call of [session.get], no sleep, and the client
    is left as it was. *)
Theorem breaker_blocks (s0 : St) (n : nat) :
  1 <= circuit_breaker_threshold (self s0) ->
  0 <= consecutive_failures (self s0) ->
  let s1 :=
    snd (record_failures clock
           (Z.to_nat (circuit_breaker_threshold (self s0))) s0) in
  (forall i, (i < n)%nat ->
     (clock (ticks (world s1) + i) - last_failure_time (self s1)
      <= circuit_reset_timeout (self s1))%Q) ->
  let r := calls clock upstream random parse_float n s1 in
  circuit_open (self s1) = true /\
  fst r = repeat (Raise CircuitOpenError) n /\
  requests (world (snd r)) = requests (world s1) /\
  sleeps (world (snd r)) = sleeps (world s1) /\
  self (snd r) = self s1.
Proof.
  intros Ht Hz s1 Hw r.
  destruct (record_failures_spec clock
              (Z.to_nat (circuit_breaker_threshold (self s0))) s0)
    as (s' & E & _ & _ & _ & _ & O).
  assert (Es : s1 = s') by (subst s1; now rewrite E).
  assert (Ho : circuit_open (self s1) = true).
  { rewrite Es. apply O; lia. }
  split; [exact Ho|].
  subst r.
  rewrite (@calls_blocked clock upstream random parse_float n s1 Ho Hw).
  simpl. auto.
Qed.

(** X31.  The breaker check lets the call pass, leaving the state [s0],
    with a sane backoff configuration, [random.random()] in the unit
    interval and [0 <= max_retries <= 1024]; every attempt before the last
    one is retried (an exception of [session.get], or a status in 400..599
    that is not a 429 whose hint is beyond what [time.sleep] accepts); the
    last one (index [max_retries]) is answered by a 4xx, 429 included.
    Then [get] raises the [HTTPError] of that response, and [error_count]
    and [consecutive_failures] end 2 above their values in [s0], plus one
    for each earlier attempt answered by a 4xx other than 429. *)
Theorem final_client_error_recorded_twice (s s0 : St) (r : Response) :
  _is_circuit_open clock s = (Normal false, s0) ->
  0 <= max_retries (self s0) <= 1024 ->
  sane (self s0) -> unit_draws random ->
  let n := Z.to_nat (max_retries (self s0)) in
  (forall i, (i < n)%nat ->
     retried parse_float (backoff_cap_seconds (self s0))
       (upstream (requests (world s0) + i)) = true) ->
  upstream (requests (world s0) + n) = NetResponse r ->
  is_client_error (status_code r) = true ->
  let earlier := failures_before upstream (requests (world s0)) n in
  exists s',
    get clock upstream random parse_float s
    = (Raise (HTTPError (status_code r)), s') /\
    error_count (self s') = error_count (self s0) + 2 + earlier /\
    consecutive_failures (self s')
    = consecutive_failures (self s0) + 2 + earlier /\
    requests (world s') = (requests (world s0) + n + 1)%nat.
Proof.
  intros Ec Hm Hs Hr n Hu Eu Hc earlier.
  assert (Eg : get clock upstream random parse_float s
               = get_attempts clock upstream random parse_float s0).
  { unfold get. unfold bind. rewrite Ec. reflexivity. }
  rewrite Eg.
  destruct (@get_attempts_last clock upstream random parse_float s0 Hm Hs Hr
              Hu)
    as (s1 & A1 & Hlast).
  fold n in A1. fold earlier in A1.
  destruct A1 as (C1 & R1 & L1 & E1 & F1 & Q1). simpl in R1, L1, E1, F1.
  assert (M1 : max_retries (self s1) = max_retries (self s0))
    by (unfold config in C1; simpl in C1; congruence).
  rewrite <- R1 in Eu.
  pose proof (@attempt_once_last_client_error clock upstream random
                parse_float (max_retries (self s0)) s1 r
                ltac:(rewrite M1; lia) Eu Hc) as Ea.
  cbv zeta in Ea.
  eexists. split; [exact (Hlast _ _ Ea)|].
  set (c := if status_code r =? 429 then _ else self s1).
  assert (Cc : error_count c = error_count (self s1) /\
               consecutive_failures c = consecutive_failures (self s1)).
  { subst c. destruct (status_code r =? 429); simpl; auto. }
  destruct Cc as (Ce & Cf).
  destruct (failed_counts (clock (ticks (world s1))) c) as (Fe & Ff & _ & _).
  destruct (failed_counts (clock (S (ticks (world s1))))
              (failed (clock (ticks (world s1))) c)) as (Fe2 & Ff2 & _ & _).
  simpl. repeat split; try lia.
Qed.

End Outcomes.

(** ** Concrete runs *)

Import Sample.


Lemma draws_unit u :
  (0 <= u)%Q -> (u <= 1)%Q -> unit_draws (constant_draw u).
Proof. intros H0 H1 i. split; assumption. Qed.

Lemma sample_client_sane n : sane (client_with_retries n).
Proof.
  split; [|split];
    [vm_compute; discriminate|vm_compute; discriminate|reflexivity].
Qed.

Lemma always_answers code :
  forall i : nat, exists hdr, always code i = NetResponse (mkResponse code hdr).
Proof. intro i. exists None. reflexivity. Qed.

Lemma first_two (P : nat -> Prop) :
  P 0%nat -> P 1%nat -> forall i, (i < 2)%nat -> P i.
Proof. intros H0 H1 [|[|i]] Hi; [exact H0|exact H1|lia]. Qed.

Lemma success_after_retries_witness :
  exists s',
    get tick_clock (unavailable_then 2 200) (constant_draw 0) float_of_text
        (mkSt (client_with_retries 2) fresh_world None)
    = (Return (mkResponse 200 None), s') /\
    requests (world s') = 3%nat /\
    List.length (sleeps (world s')) = 2%nat /\
    consecutive_failures (self s') = 0 /\
    circuit_open (self s') = false /\
    error_count (self s') = 0 /\
    request_count (self s') = 1.
Proof.
  apply (@success_after_retries tick_clock (unavailable_then 2 200)
           (constant_draw 0) float_of_text
           (mkSt (client_with_retries 2) fresh_world None)
           (mkSt (client_with_retries 2) fresh_world None) 2
           (mkResponse 200 None)).
  - reflexivity.
  - simpl. lia.
  - lia.
  - exact (sample_client_sane 2).
  - apply draws_unit; vm_compute; discriminate.
  - apply first_two; reflexivity.
  - reflexivity.
  - reflexivity.
Defined.

Lemma network_error_on_last_attempt_witness :
  exists s',
    get tick_clock timing_out (constant_draw 0) float_of_text
        (mkSt (client_with_retries 2) fresh_world None)
    = (Raise Timeout, s') /\
    last_exc s' = Some Timeout /\
    requests (world s') = 3%nat /\
    error_count (self s') = 1 /\
    consecutive_failures (self s') = 1.
Proof.
  apply (@network_error_on_last_attempt tick_clock timing_out
           (constant_draw 0) float_of_text
           (mkSt (client_with_retries 2) fresh_world None)
           (mkSt (client_with_retries 2) fresh_world None) Timeout).
  - reflexivity.
  - simpl. lia.
  - exact (sample_client_sane 2).
  - apply draws_unit; vm_compute; discriminate.
  - intros i _. reflexivity.
  - reflexivity.
Defined.

Lemma other_status_returned_unrecorded_witness :
  exists s',
    get tick_clock (unavailable_then 2 302) (constant_draw 0) float_of_text
        (mkSt (set_consecutive_failures 3 (client_with_retries 2)) fresh_world
              None)
    = (Return (mkResponse 302 None), s') /\
    requests (world s') = 3%nat /\
    consecutive_failures (self s') = 3 /\
    error_count (self s') = 0.
Proof.
  apply (@other_status_returned_unrecorded tick_clock (unavailable_then 2 302)
           (constant_draw 0) float_of_text
           (mkSt (set_consecutive_failures 3 (client_with_retries 2))
                 fresh_world None)
           (mkSt (set_consecutive_failures 3 (client_with_retries 2))
                 fresh_world None)
           2 (mkResponse 302 None)).
  - reflexivity.
  - simpl. lia.
  - lia.
  - exact (sample_client_sane 2).
  - apply draws_unit; vm_compute; discriminate.
  - apply first_two; reflexivity.
  - reflexivity.
  - reflexivity.
  - reflexivity.
Defined.


Lemma open_breaker_has_failures_on_record_witness :
  breaker_consistent
    (self (snd (calls tick_clock (always 404) (constant_draw 0) float_of_text
                  3 (mkSt default_client fresh_world None)))).
Proof.
  apply (@open_breaker_has_failures_on_record tick_clock (always 404)
           (constant_draw 0) float_of_text 3
           (mkSt default_client fresh_world None)).
  unfold breaker_consistent. simpl. discriminate.
Defined.

Lemma runtime_error_iff_no_attempts_witness :
  let s := mkSt (client_with_retries (-1)) fresh_world None in
  let r := get tick_clock (always 200) (constant_draw 0) float_of_text s in
  fst r = Raise RuntimeError /\
  requests (world (snd r)) = 0%nat /\
  error_count (self (snd r)) = 1.
Proof.
  destruct (@runtime_error_iff_no_attempts tick_clock (always 200)
              (constant_draw 0) float_of_text
              (mkSt (client_with_retries (-1)) fresh_world None)
              (mkSt (client_with_retries (-1)) fresh_world None) eq_refl)
    as ((_ & H1) & H2).
  assert (Hneg : max_retries
                   (self (mkSt (client_with_retries (-1)) fresh_world None))
                 < 0) by (simpl; lia).
  destruct (H2 Hneg) as (Rq & _ & Ec & _).
  split; [exact (H1 Hneg)|]. split; [exact Rq|exact Ec].
Defined.

Lemma client_error_uses_every_attempt_witness :
  exists s',
    get tick_clock (always 404) (constant_draw 0) float_of_text
        (mkSt default_client fresh_world None)
    = (Raise (HTTPError 404), s') /\
    Z.of_nat (requests (world s')) = 6 /\
    Z.of_nat (List.length (sleeps (world s'))) = 5 /\
    error_count (self s') = 7.
Proof.
  apply (@client_error_uses_every_attempt tick_clock (always 404)
           (constant_draw 0) float_of_text
           (mkSt default_client fresh_world None) 404).
  - reflexivity.
  - simpl. lia.
  - exact (sample_client_sane 5).
  - apply draws_unit; vm_compute; discriminate.
  - reflexivity.
  - lia.
  - apply always_answers.
Defined.

Lemma error_rate_exceeds_one_witness :
  let t := get_telemetry
             (self (snd (get tick_clock (always 404) (constant_draw 0)
                           float_of_text
                           (mkSt default_client fresh_world None)))) in
  total_requests t = 1 /\ total_errors t = 7 /\
  (error_rate t == 7)%Q /\ (1 < error_rate t)%Q.
Proof.
  apply (@error_rate_exceeds_one tick_clock (always 404) (constant_draw 0)
           float_of_text (mkSt default_client fresh_world None) 404).
  - reflexivity.
  - simpl. lia.
  - exact (sample_client_sane 5).
  - apply draws_unit; vm_compute; discriminate.
  - reflexivity.
  - lia.
  - apply always_answers.
  - reflexivity.
  - reflexivity.
Defined.

Lemma failing_calls_open_breaker_witness :
  let r := calls tick_clock (always 503) (constant_draw 0) float_of_text 5
             (mkSt default_client fresh_world None) in
  fst r = repeat (Raise (HTTPError 503)) 5 /\
  requests (world (snd r)) = 30%nat /\
  circuit_open (self (snd r)) = true /\
  fst (get tick_clock (always 503) (constant_draw 0) float_of_text (snd r))
  = Raise CircuitOpenError.
Proof.
  destruct (@failing_calls_open_breaker tick_clock (always 503)
              (constant_draw 0) float_of_text
              (mkSt default_client fresh_world None) 5)
    as (H1 & H2 & _ & H4 & H5).
  - reflexivity.
  - simpl. lia.
  - exact (sample_client_sane 5).
  - apply draws_unit; vm_compute; discriminate.
  - apply always_answers.
  - lia.
  - reflexivity.
  - split; [exact H1|]. split; [exact H2|]. split; [exact H4|].
    apply H5. vm_compute. discriminate.
Defined.

Lemma long_hint_is_cut_to_cap_witness :
  exists d,
    Http._sleep_with_backoff (constant_draw 0) float_of_text 0 (Some "3")
      (mkSt (Http.init 10 5 (1 # 2) 2 5) fresh_world None)
    = (Normal tt,
       mkSt (Http.init 10 5 (1 # 2) 2 5) (slept d fresh_world) None) /\
    (d == 2)%Q.
Proof.
  apply (@long_hint_is_cut_to_cap (constant_draw 0) float_of_text 0
           (mkSt (Http.init 10 5 (1 # 2) 2 5) fresh_world None) "3"
           (Finite 3)).
  - discriminate.
  - reflexivity.
  - vm_compute. discriminate.
  - reflexivity.
  - right. exists 3%Q. split; [reflexivity|]. vm_compute. discriminate.
Defined.

Lemma rate_limited_answers hdr cap :
  hint_outcome float_of_text cap hdr <> HintOverflow ->
  forall i : nat,
  exists h,
    rate_limited hdr i = NetResponse (mkResponse 429 h) /\
    hint_outcome float_of_text cap h <> HintOverflow.
Proof. intros H i. exists hdr. split; [reflexivity|exact H]. Qed.

Lemma rate_limits_counted_witness :
  exists s',
    get tick_clock (rate_limited (Some "3")) (constant_draw 0) float_of_text
        (mkSt default_client fresh_world None)
    = (Raise (HTTPError 429), s') /\
    Z.of_nat (requests (world s')) = 6 /\
    Z.of_nat (List.length (sleeps (world s'))) = 5 /\
    rate_limit_count (self s') = 6 /\
    error_count (self s') = 2 /\
    consecutive_failures (self s') = 2.
Proof.
  apply (@rate_limits_counted tick_clock (rate_limited (Some "3"))
           (constant_draw 0) float_of_text
           (mkSt default_client fresh_world None)).
  - reflexivity.
  - simpl. lia.
  - exact (sample_client_sane 5).
  - apply draws_unit; vm_compute; discriminate.
  - apply rate_limited_answers. vm_compute. discriminate.
Defined.

Lemma breaker_blocks_witness :
  let s1 :=
    snd (record_failures (still_clock 100) 5
           (mkSt default_client fresh_world None)) in
  let r := calls (still_clock 100) (always 200) (constant_draw 0)
             float_of_text 3 s1 in
  circuit_open (self s1) = true /\
  fst r = [Raise CircuitOpenError; Raise CircuitOpenError;
           Raise CircuitOpenError] /\
  requests (world (snd r)) = 0%nat.
Proof.
  destruct (@breaker_blocks (still_clock 100) (always 200) (constant_draw 0)
              float_of_text (mkSt default_client fresh_world None) 3)
    as (Ho & Hr & Hq & _).
  - simpl. lia.
  - reflexivity.
  - intros i Hi. vm_compute. discriminate.
  - repeat split; assumption.
Defined.

Lemma final_client_error_recorded_twice_witness :
  exists s',
    get tick_clock (unavailable_then_missing 2) (constant_draw 0) float_of_text
        (mkSt (client_with_retries 2) fresh_world None)
    = (Raise (HTTPError 404), s') /\
    error_count (self s') = 2 /\
    requests (world s') = 3%nat.
Proof.
  destruct (@final_client_error_recorded_twice tick_clock
              (unavailable_then_missing 2) (constant_draw 0) float_of_text
              (mkSt (client_with_retries 2) fresh_world None)
              (mkSt (client_with_retries 2) fresh_world None)
              (mkResponse 404 None))
    as (s' & E & Ec & _ & R).
  - reflexivity.
  - simpl. lia.
  - exact (sample_client_sane 2).
  - apply draws_unit; vm_compute; discriminate.
  - intros i Hi. simpl in Hi.
    destruct i as [|[|i]]; [reflexivity|reflexivity|lia].
  - reflexivity.
  - reflexivity.
  - exists s'. split; [exact E|]. split; [exact Ec|exact R].
Defined.

End HttpExtras.
